(** * A shallow embedding of the mbed EEPROM driver (eeprom.cpp)

    The driver presents a serial EEPROM behind a two-wire bus as a linear
    byte address space.  The embedding follows eeprom.cpp function by
    function: the object's fields are a record, every C++ integer is a [Z]
    with its wrap-around written out, the local [cmd] arrays are lists of
    bytes, and the bus with the chip behind it is an explicit component of
    the state that also records the traffic. *)

From Stdlib Require Import ZArith List Bool Lia.
From Stdlib.Strings Require Import Byte.
From Stdlib.Strings Require String.
Import String.StringSyntax.
Import ListNotations.
Local Open Scope Z_scope.

(** ** Fixed-width integers *)

Definition u8 (x : Z) : Z := x mod 256.
Definition u16 (x : Z) : Z := x mod 65536.
Definition u32 (x : Z) : Z := x mod 4294967296.

(** Reading a 32-bit pattern as [int32_t]. *)
Definition s32 (x : Z) : Z :=
  let y := u32 x in if y <? 2147483648 then y else y - 4294967296.

(** A cast to [uint8_t] that lands in a byte buffer, and the value of a
    byte taken from one. *)
Definition byte_of_Z (x : Z) : byte :=
  match Byte.of_N (Z.to_N (u8 x)) with
  | Some b => b
  | None => x00
  end.

Definition Z_of_byte (b : byte) : Z := Z.of_N (Byte.to_N b).

(** ** What eeprom.h declares *)

Inductive TypeEeprom : Set :=
| T24C01 | T24C02 | T24C04 | T24C08 | T24C16
| T24C32 | T24C64 | T24C128 | T24C256 | T24C512
| T24C1024 | T24C1025 | M24M02.

(** Modelled from the spec: the header eeprom.h, which declares the
    enumeration [TypeEeprom], is not among the sources.  The constructor
    stores the enumerator as the size in bytes ([_size = _type]), so every
    enumerator is the chip's capacity in bytes; T24C1025 is one more than
    T24C1024, the two chips having the same capacity and the enumerators
    having to differ (the constructor and [checkAddress] both compensate
    for it). *)
Definition type_value (t : TypeEeprom) : Z :=
  match t with
  | T24C01 => 128
  | T24C02 => 256
  | T24C04 => 512
  | T24C08 => 1024
  | T24C16 => 2048
  | T24C32 => 4096
  | T24C64 => 8192
  | T24C128 => 16384
  | T24C256 => 32768
  | T24C512 => 65536
  | T24C1024 => 131072
  | T24C1025 => 131073
  | M24M02 => 262144
  end.

(** Modelled from the spec: the macros of eeprom.h, which is not among
    the sources: the base bus address of the 24Cxx family, the error
    codes in the order of the specification's taxonomy, and the size of
    the page buffer, the largest page size. *)
Definition EEPROM_Address : Z := 160.
Definition EEPROM_NoError : Z := 0.
Definition EEPROM_BadAddress : Z := 1.
Definition EEPROM_I2cError : Z := 2.
Definition EEPROM_ParamError : Z := 3.
Definition EEPROM_OutOfRange : Z := 4.
Definition EEPROM_MallocError : Z := 5.
Definition MAX_PAGE_SIZE : Z := 256.

(** ** The bus and the chip behind it *)

(** Modelled from the spec: the transactions of the external transport,
    an addressed write of some bytes, with or without the stop condition
    held back, and an addressed read of a number of bytes. *)
Inductive Transaction : Set :=
| BusWrite (addr : Z) (bytes : list byte) (repeated : bool)
| BusRead (addr : Z) (length : Z).

(** Modelled from the spec: how the chip numbers its cells.  [Linear]:
    by logical address, block [b] starting at cell [b * 255] (or
    [b * 65535]), the inverse of the driver's resolution.  [Banked]: as
    the data sheets do, block [b] starting at cell [b * 256] (or
    [b * 65536]). *)
Inductive Layout : Set := Linear | Banked.

(** Modelled from the spec: the bus handle [_i2c] with the chip behind
    it.  [cells] is the chip's storage, [cursor] its internal address
    counter, [acks] the acknowledge codes the coming transactions will be
    answered with (an exhausted script acknowledges with 0), [traffic]
    the transactions issued so far, latest first. *)
Record I2C : Type := mkI2C {
  layout : Layout;
  cells : Z -> byte;
  cursor : Z;
  acks : list Z;
  traffic : list Transaction
}.

(** ** The object *)

(** The members of the class, and with them the one piece of the
    environment besides the bus that the driver consults: [heap] scripts
    the coming calls of malloc ([false] for a NULL result; an exhausted
    script lets every allocation succeed). *)
Record EEPROM : Type := mkEEPROM {
  _i2c : I2C;
  _errnum : Z;
  _type : TypeEeprom;
  _address : Z;
  _page_write : Z;
  _page_block_number : Z;
  _size : Z;
  heap : list bool
}.

Definition set_errnum (e : EEPROM) (n : Z) : EEPROM :=
  mkEEPROM (_i2c e) n (_type e) (_address e) (_page_write e)
           (_page_block_number e) (_size e) (heap e).

Definition set_i2c (e : EEPROM) (b : I2C) : EEPROM :=
  mkEEPROM b (_errnum e) (_type e) (_address e) (_page_write e)
           (_page_block_number e) (_size e) (heap e).

Definition set_heap (e : EEPROM) (h : list bool) : EEPROM :=
  mkEEPROM (_i2c e) (_errnum e) (_type e) (_address e) (_page_write e)
           (_page_block_number e) (_size e) h.

(** [_type < T24C32] and [_type > T24C512], comparisons of enumerators. *)
Definition type_lt (a b : TypeEeprom) : bool := type_value a <? type_value b.
Definition type_gt (a b : TypeEeprom) : bool := type_value b <? type_value a.

(** *** EEPROM::EEPROM

    [address] is the [uint8_t] chip-select value.  The switch yields the
    error code, the shifted [_address], the page size and the number of
    blocks.  [_address] is kept without truncation: for every chip-select
    value that passes the range check it fits in 8 bits.  Setting the bus
    frequency leaves no trace in the model. *)
Definition EEPROM_switch (address : Z) (type : TypeEeprom) : Z * Z * Z * Z :=
  let errnum := EEPROM_NoError in
  let _address := address in
  match type with
  | T24C01 | T24C02 =>
      (if 7 <? address then EEPROM_BadAddress else errnum,
       Z.shiftl _address 1, 8, 1)
  | T24C04 =>
      (if 7 <? address then EEPROM_BadAddress else errnum,
       Z.shiftl (Z.land _address 254) 1, 16, 2)
  | T24C08 =>
      (if 7 <? address then EEPROM_BadAddress else errnum,
       Z.shiftl (Z.land _address 252) 1, 16, 4)
  | T24C16 =>
      (errnum, 0, 16, 8)
  | T24C32 | T24C64 =>
      (if 7 <? address then EEPROM_BadAddress else errnum,
       Z.shiftl _address 1, 32, 1)
  | T24C128 | T24C256 =>
      (if 7 <? address then EEPROM_BadAddress else errnum,
       Z.shiftl _address 1, 64, 1)
  | T24C512 =>
      (if 7 <? address then EEPROM_BadAddress else errnum,
       Z.shiftl _address 1, 128, 1)
  | T24C1024 =>
      (if 3 <? address then EEPROM_BadAddress else errnum,
       Z.shiftl (Z.land _address 254) 1, 128, 2)
  | T24C1025 =>
      (if 3 <? address then EEPROM_BadAddress else errnum,
       Z.shiftl _address 1, 128, 2)
  | M24M02 =>
      (if 1 <? address then EEPROM_BadAddress else errnum,
       Z.shiftl _address 3, 256, 4)
  end.

Definition TypeEeprom_eqb (a b : TypeEeprom) : bool :=
  type_value a =? type_value b.

Definition EEPROM_new (bus : I2C) (address : Z) (type : TypeEeprom) : EEPROM :=
  match EEPROM_switch address type with
  | (errnum, addr, page_write, page_block_number) =>
      mkEEPROM bus errnum type addr page_write page_block_number
               (if TypeEeprom_eqb type T24C1025
                then type_value T24C1024 else type_value type)
               []
  end.

(** *** EEPROM::getSize, EEPROM::getError *)
Definition getSize (e : EEPROM) : Z := _size e.
Definition getError (e : EEPROM) : Z := _errnum e.

(** *** EEPROM::getName

    The table [_name] and the switch that picks the index; the result is
    the entry at the index, none if the index were outside the table. *)
Local Open Scope string_scope.
Definition _name : list String.string :=
  ["24C01"; "24C02"; "24C04"; "24C08"; "24C16"; "24C32";
   "24C64"; "24C128"; "24C256"; "24C512"; "24C1024"; "24C1025";
   "M24M02"].
Local Close Scope string_scope.

Definition getName_index (t : TypeEeprom) : Z :=
  match t with
  | T24C01 => 0
  | T24C02 => 1
  | T24C04 => 2
  | T24C08 => 3
  | T24C16 => 4
  | T24C32 => 5
  | T24C64 => 6
  | T24C128 => 7
  | T24C256 => 8
  | T24C512 => 9
  | T24C1024 => 10
  | T24C1025 => 11
  | M24M02 => 12
  end.

Definition getName (e : EEPROM) : option String.string :=
  nth_error _name (Z.to_nat (getName_index (_type e))).

(** *** EEPROM::checkAddress *)
Definition checkAddress_type (t : TypeEeprom) (address : Z) : bool :=
  match t with
  | T24C01 => if address >=? type_value T24C01 then false else true
  | T24C02 => if address >=? type_value T24C02 then false else true
  | T24C04 => if address >=? type_value T24C04 then false else true
  | T24C08 => if address >=? type_value T24C08 then false else true
  | T24C16 => if address >=? type_value T24C16 then false else true
  | T24C32 => if address >=? type_value T24C32 then false else true
  | T24C64 => if address >=? type_value T24C64 then false else true
  | T24C128 => if address >=? type_value T24C128 then false else true
  | T24C256 => if address >=? type_value T24C256 then false else true
  | T24C512 => if address >=? type_value T24C512 then false else true
  | T24C1024 => if address >=? type_value T24C1024 then false else true
  | T24C1025 => if address >=? type_value T24C1025 - 1 then false else true
  | M24M02 => if address >=? type_value M24M02 - 1 then false else true
  end.

Definition checkAddress (e : EEPROM) (address : Z) : bool :=
  checkAddress_type (_type e) address.

(** ** The transport *)

(** Modelled from the spec: the two-wire transport and the chip that
    answers on it are external to the driver (the mbed I2C class and the
    hardware); the specification gives their interface only, a write and
    a read transaction that return an acknowledge code, 0 for success.
    The chip is a flat array of bytes.  A write transaction that carries
    bytes starts with the word address (one byte for the chips below
    T24C32, two bytes, most significant first, for the others); the bits
    of the bus address that the configured base leaves clear are the
    block-select bits, and block [b] with word address [w] denotes cell
    [b * stride + w].  The bytes after the word address are stored from
    there on; a read delivers bytes from the address counter on.  A
    transaction that is not acknowledged changes nothing but the traffic.
    With the [Linear] layout the stride is the driver's own, so that a
    cell's number is the logical address that resolves to it; with the
    [Banked] layout it is the chip's block size. *)
Definition word_width (chip : TypeEeprom) : Z :=
  if type_lt chip T24C32 then 1 else 2.

(** Modelled from the spec: the number of cells from one block of the chip
    to the next, under either layout. *)
Definition block_stride (l : Layout) (chip : TypeEeprom) : Z :=
  match l with
  | Linear => if type_lt chip T24C32 then 255 else 65535
  | Banked => if type_lt chip T24C32 then 256 else 65536
  end.

(** Modelled from the spec: the word address a chip reads from the first
    bytes of a write transaction, most significant byte first. *)
Definition word_of_bytes (bs : list byte) : Z :=
  fold_left (fun acc b => acc * 256 + Z_of_byte b) bs 0.

(** Modelled from the spec: the chip's storage after [bytes] were stored
    from cell [from] on, and the [n] bytes it delivers from cell [from]
    on. *)
Definition store (c : Z -> byte) (from : Z) (bytes : list byte) : Z -> byte :=
  fun k =>
    if (from <=? k) && (k <? from + Z.of_nat (length bytes))
    then nth (Z.to_nat (k - from)) bytes x00
    else c k.

Fixpoint fetch (c : Z -> byte) (from : Z) (n : nat) : list byte :=
  match n with
  | O => []
  | S n' => c from :: fetch c (from + 1) n'
  end.

(** Modelled from the spec: the acknowledge code of the next transaction,
    taken from the script. *)
Definition pop_ack (b : I2C) : Z * list Z :=
  match acks b with
  | [] => (0, [])
  | a :: rest => (a, rest)
  end.

(** Modelled from the spec: I2C::write(address, data, length, repeated),
    the transport's write transaction, answered by a chip of variant
    [chip] configured at the bus address [base]. *)
Definition i2c_write (chip : TypeEeprom) (base : Z) (b : I2C)
    (addr : Z) (cmd : list byte) (len : Z) (repeated : bool) : I2C * Z :=
  let bytes := firstn (Z.to_nat len) cmd in
  let log := BusWrite addr bytes repeated :: traffic b in
  let '(ack, rest) := pop_ack b in
  if negb (ack =? 0)
  then (mkI2C (layout b) (cells b) (cursor b) rest log, ack)
  else
    match bytes with
    | [] => (mkI2C (layout b) (cells b) (cursor b) rest log, 0)
    | _ :: _ =>
        let w := Z.to_nat (word_width chip) in
        let block := Z.shiftr (Z.land addr (Z.lnot base)) 1 in
        let from :=
          block * block_stride (layout b) chip
          + word_of_bytes (firstn w bytes) in
        let payload := skipn w bytes in
        (mkI2C (layout b) (store (cells b) from payload)
               (from + Z.of_nat (length payload)) rest log, 0)
    end.

(** Modelled from the spec: I2C::read(address, data, length), the
    transport's read transaction; the bytes delivered are the third
    component, none when the chip does not acknowledge. *)
Definition i2c_read (b : I2C) (addr : Z) (length : Z) : I2C * Z * list byte :=
  let log := BusRead addr length :: traffic b in
  let '(ack, rest) := pop_ack b in
  if negb (ack =? 0)
  then (mkI2C (layout b) (cells b) (cursor b) rest log, ack, [])
  else (mkI2C (layout b) (cells b) (cursor b + length) rest log, 0,
        fetch (cells b) (cursor b) (Z.to_nat length)).

(** ** Buffers *)

Definition peek (l : list byte) (i : Z) : byte := nth (Z.to_nat i) l x00.

Fixpoint poke_nat (l : list byte) (i : nat) (v : byte) : list byte :=
  match l, i with
  | [], _ => []
  | _ :: t, O => v :: t
  | h :: t, S i' => h :: poke_nat t i' v
  end.

Definition poke (l : list byte) (i : Z) (v : byte) : list byte :=
  poke_nat l (Z.to_nat i) v.

(** [memcpy] of the whole of [src] onto the start of [dst]. *)
Definition overlay (src dst : list byte) : list byte :=
  src ++ skipn (length src) dst.

(** The bytes [cmd[0 .. len-1]] that the loops over [l] compute:
    [cmd[l] = (uint8_t)(address >> (8 * (len - l - 1)))]. *)
Definition word_address (len address : Z) : list byte :=
  map (fun l => byte_of_Z (Z.shiftr address (8 * (len - Z.of_nat l - 1))))
      (seq 0 (Z.to_nat len)).

(** ** Address resolution

    The same lines open every transfer: the block goes to a [uint8_t],
    [address] is reduced in place, and the block is folded into the bus
    address, again a [uint8_t]. *)
Definition page_block_of (t : TypeEeprom) (address : Z) : Z * Z :=
  if type_lt t T24C32 then (u8 (address / 255), address mod 255)
  else if type_gt t T24C512 then (u8 (address / 65535), address mod 65535)
  else (0, address).

Definition base_address (e : EEPROM) : Z :=
  u8 (Z.lor EEPROM_Address (_address e)).

Definition device_address (e : EEPROM) (page_block : Z) : Z :=
  u8 (Z.lor (Z.lor EEPROM_Address (_address e)) (Z.shiftl page_block 1)).

Definition bus_write (e : EEPROM) (addr : Z) (cmd : list byte) (len : Z)
    (repeated : bool) : EEPROM * Z :=
  let '(bus, ack) :=
    i2c_write (_type e) (base_address e) (_i2c e) addr cmd len repeated in
  (set_i2c e bus, ack).

Definition bus_read (e : EEPROM) (addr : Z) (length : Z)
    : EEPROM * Z * list byte :=
  let '(bus, ack, got) := i2c_read (_i2c e) addr length in
  (set_i2c e bus, ack, got).

(** Modelled from the spec: the cell of the chip that a transfer at a
    logical address reaches: the block the chip reads from the bus
    address, times the stride of the layout, plus the word address the
    driver sends. *)
Definition cell_of (e : EEPROM) (address : Z) : Z :=
  let '(page_block, address) := page_block_of (_type e) address in
  Z.shiftr (Z.land (device_address e page_block) (Z.lnot (base_address e))) 1
  * block_stride (layout (_i2c e)) (_type e)
  + word_of_bytes (word_address (word_width (_type e)) address).

(** ** The operations *)

Section Driver.

(** What a local array or a malloc'ed block holds before it is written:
    anything.  Everything below holds whatever this content is. *)
Variable indeterminate : Z -> byte.

Definition fresh (n : Z) : list byte :=
  map (fun i => indeterminate (Z.of_nat i)) (seq 0 (Z.to_nat n)).

(** *** EEPROM::ready

    The do-while loop polls with an empty write until the chip
    acknowledges.  The script of acknowledge codes is finite, so the loop
    is followed for the length of the script; it cannot run out before
    the chip acknowledges.  A chip that never acknowledges, on which the
    loop of the source does not end, has no script: what is proved about
    [ready] is proved for chips that acknowledge after finitely many
    refusals. *)
Fixpoint ready_loop (n : nat) (e : EEPROM) (addr : Z) : EEPROM :=
  let '(e, ack) := bus_write e addr [x00] 0 false in
  match n with
  | O => e
  | S n' => if negb (ack =? 0) then ready_loop n' e addr else e
  end.

Definition ready (e : EEPROM) : EEPROM :=
  if negb (_errnum e =? 0) then e
  else ready_loop (length (acks (_i2c e))) e (base_address e).

(** *** EEPROM::write(uint32_t, int8_t) *)
Definition write_int8 (e : EEPROM) (address : Z) (data : byte) : EEPROM :=
  if negb (_errnum e =? 0) then e
  else if negb (checkAddress e address) then set_errnum e EEPROM_OutOfRange
  else
    let '(page_block, address) := page_block_of (_type e) address in
    let addr := device_address e page_block in
    let '(len, cmd) :=
      if type_lt (_type e) T24C32
      then (2, [byte_of_Z address; data])
      else (3, [byte_of_Z (Z.shiftr address 8); byte_of_Z address; data]) in
    let '(e, ack) := bus_write e addr cmd len false in
    if negb (ack =? 0) then set_errnum e EEPROM_I2cError
    else ready e.

(** *** EEPROM::read(uint32_t, int8_t&) *)
Definition read_int8 (e : EEPROM) (address : Z) (data : byte)
    : EEPROM * byte :=
  if negb (_errnum e =? 0) then (e, data)
  else if negb (checkAddress e address)
  then (set_errnum e EEPROM_OutOfRange, data)
  else
    let '(page_block, address) := page_block_of (_type e) address in
    let addr := device_address e page_block in
    let len := if type_lt (_type e) T24C32 then 1 else 2 in
    let cmd := word_address len address in
    let '(e, ack) := bus_write e addr cmd len true in
    if negb (ack =? 0) then (set_errnum e EEPROM_I2cError, data)
    else
      let '(e, ack, got) := bus_read e addr 1 in
      if negb (ack =? 0) then (set_errnum e EEPROM_I2cError, data)
      else (e, hd data got).

(** *** EEPROM::read(uint32_t, int8_t*, uint32_t)

    [data] is the content of the destination before the call, the result
    its content after. *)
Definition read_array (e : EEPROM) (address : Z) (data : list byte)
    (size : Z) : EEPROM * list byte :=
  if negb (_errnum e =? 0) then (e, data)
  else if negb (checkAddress e address)
  then (set_errnum e EEPROM_OutOfRange, data)
  else if negb (checkAddress e (u32 (address + size - 1)))
  then (set_errnum e EEPROM_OutOfRange, data)
  else
    let '(page_block, address) := page_block_of (_type e) address in
    let addr := device_address e page_block in
    let len := if type_lt (_type e) T24C32 then 1 else 2 in
    let cmd := word_address len address in
    let '(e, ack) := bus_write e addr cmd len true in
    if negb (ack =? 0) then (set_errnum e EEPROM_I2cError, data)
    else
      let '(e, ack, got) := bus_read e addr size in
      if negb (ack =? 0) then (set_errnum e EEPROM_I2cError, data)
      else (e, overlay got data).

(** *** EEPROM::read(int8_t&) *)
Definition read_current (e : EEPROM) (data : byte) : EEPROM * byte :=
  if negb (_errnum e =? 0) then (e, data)
  else
    let addr := base_address e in
    let '(e, ack, got) := bus_read e addr 1 in
    if negb (ack =? 0) then (set_errnum e EEPROM_I2cError, data)
    else (e, hd data got).

(** malloc, answered from the script. *)
Definition malloc (e : EEPROM) (size : Z) : EEPROM * option (list byte) :=
  match heap e with
  | false :: rest => (set_heap e rest, None)
  | true :: rest => (set_heap e rest, Some (fresh size))
  | [] => (e, Some (fresh size))
  end.

(** *** EEPROM::read(uint32_t, void*, uint32_t) *)
Definition read_any (e : EEPROM) (address : Z) (data : list byte)
    (size : Z) : EEPROM * list byte :=
  if negb (_errnum e =? 0) then (e, data)
  else if negb (checkAddress e (u32 (address + size - 1)))
  then (set_errnum e EEPROM_OutOfRange, data)
  else
    match malloc e size with
    | (e, None) => (set_errnum e EEPROM_MallocError, data)
    | (e, Some cmd) =>
        let '(e, cmd) := read_array e address cmd size in
        (e, overlay (firstn (Z.to_nat size) cmd) data)
    end.

(** *** EEPROM::write(uint32_t, int8_t[], uint32_t)

    The loop over [j], a [uint8_t]: it stops at the first [j] that fails
    the test, and [j] wraps from 255 to 0.  [fuel] bounds the number of
    tests; [None] is the loop still running when the fuel is spent. *)
Fixpoint splice (fuel : nat) (j : Z)
    (page_write page_offset len bytes_to_write written_cnt : Z)
    (data cmd : list byte) : option (list byte) :=
  match fuel with
  | O => None
  | S fuel' =>
      if (j <? u32 (page_write - page_offset)) && (j <? bytes_to_write)
      then splice fuel' (u8 (j + 1))
                  page_write page_offset len bytes_to_write written_cnt data
                  (poke cmd (j + page_offset + len)
                        (peek data (written_cnt + j)))
      else Some cmd
  end.

(** The loop over [i], which runs [blocs] times ([i] and [blocs] are both
    [uint8_t], so [i] reaches [blocs] without wrapping).  The page read
    [read(address - page_offset, cmd + len, _page_write)] passes a
    [uint8_t*], which only the [void*] overload of [read] accepts.
    The comparison of [bytes_to_write] with [_page_write] is taken
    signed, [_page_write] being a member narrower than [int]; it is only
    ever decisive with [bytes_to_write] at 0 or above, where the
    signedness does not matter, in everything proved below. *)
Fixpoint write_pages (fuel : nat) (blocs : nat) (e : EEPROM)
    (address start_address : Z) (data : list byte)
    (length written_cnt bytes_to_write : Z) (cmd : list byte)
    : option EEPROM :=
  match blocs with
  | O => Some e
  | S blocs' =>
      let '(page_block, address) := page_block_of (_type e) address in
      let addr := device_address e page_block in
      let len := if type_lt (_type e) T24C32 then 1 else 2 in
      let page_offset := address mod _page_write e in
      let cmd :=
        overlay (word_address len (address - page_offset)) cmd in
      let '(e, cmd) :=
        if negb (page_offset =? 0) || (bytes_to_write <? _page_write e)
        then
          let '(e', page) :=
            read_any e (u32 (address - page_offset))
                     (skipn (Z.to_nat len) cmd) (_page_write e) in
          (e', firstn (Z.to_nat len) cmd ++ page)
        else (e, cmd) in
      match splice fuel 0 (_page_write e) page_offset len bytes_to_write
                   written_cnt data cmd with
      | None => None
      | Some cmd =>
          let '(e, ack) := bus_write e addr cmd (_page_write e + len) false in
          if negb (ack =? 0) then Some (set_errnum e EEPROM_I2cError)
          else
            let e := ready e in
            let written_cnt :=
              u32 (written_cnt + (_page_write e - page_offset)) in
            let address := u32 (start_address + written_cnt) in
            let bytes_to_write := s32 (length - written_cnt) in
            write_pages fuel blocs' e address start_address data
                        length written_cnt bytes_to_write cmd
      end
  end.

Definition write_array (fuel : nat) (e : EEPROM) (address : Z)
    (data : list byte) (length : Z) : option EEPROM :=
  if negb (_errnum e =? 0) then Some e
  else if negb (checkAddress e address)
  then Some (set_errnum e EEPROM_OutOfRange)
  else if negb (checkAddress e (u32 (address + length - 1)))
  then Some (set_errnum e EEPROM_OutOfRange)
  else
    let offset := address mod _page_write e in
    let blocs := u8 (u32 (length + offset) / _page_write e) in
    let remain := u16 (u32 (length + offset) - blocs * _page_write e) in
    let blocs := if negb (remain =? 0) then u8 (blocs + 1) else blocs in
    let bytes_to_write := s32 length in
    let start_address := address in
    write_pages fuel (Z.to_nat blocs) e address start_address data
                length 0 bytes_to_write (fresh (MAX_PAGE_SIZE + 2)).

(** *** The scalar overloads

    A short, a long and a float reach the bus as the bytes of their
    object representation, which is what [memcpy] moves; they are given
    and returned as these bytes. *)
Definition bytes2 : Set := byte * byte.
Definition bytes4 : Set := byte * byte * byte * byte.

Definition list_of_bytes2 (d : bytes2) : list byte :=
  let '(a, b) := d in [a; b].
Definition list_of_bytes4 (d : bytes4) : list byte :=
  let '(a, b, c, d) := d in [a; b; c; d].
Definition bytes2_of_list (l : list byte) : bytes2 :=
  (peek l 0, peek l 1).
Definition bytes4_of_list (l : list byte) : bytes4 :=
  (peek l 0, peek l 1, peek l 2, peek l 3).

(** EEPROM::write(uint32_t, int16_t) *)
Definition write_int16 (fuel : nat) (e : EEPROM) (address : Z)
    (data : bytes2) : option EEPROM :=
  if negb (_errnum e =? 0) then Some e
  else if negb (checkAddress e (u32 (address + 1)))
  then Some (set_errnum e EEPROM_OutOfRange)
  else write_array fuel e address (list_of_bytes2 data) 2.

(** EEPROM::write(uint32_t, int32_t) *)
Definition write_int32 (fuel : nat) (e : EEPROM) (address : Z)
    (data : bytes4) : option EEPROM :=
  if negb (_errnum e =? 0) then Some e
  else if negb (checkAddress e (u32 (address + 3)))
  then Some (set_errnum e EEPROM_OutOfRange)
  else write_array fuel e address (list_of_bytes4 data) 4.

(** EEPROM::write(uint32_t, float) *)
Definition write_float (fuel : nat) (e : EEPROM) (address : Z)
    (data : bytes4) : option EEPROM :=
  if negb (_errnum e =? 0) then Some e
  else if negb (checkAddress e (u32 (address + 3)))
  then Some (set_errnum e EEPROM_OutOfRange)
  else write_array fuel e address (list_of_bytes4 data) 4.

(** EEPROM::write(uint32_t, void*, uint32_t) *)
Definition write_any (fuel : nat) (e : EEPROM) (address : Z)
    (data : list byte) (size : Z) : option EEPROM :=
  if negb (_errnum e =? 0) then Some e
  else if negb (checkAddress e (u32 (address + size - 1)))
  then Some (set_errnum e EEPROM_OutOfRange)
  else
    match malloc e size with
    | (e, None) => Some (set_errnum e EEPROM_MallocError)
    | (e, Some cmd) =>
        let cmd := overlay (firstn (Z.to_nat size) data) cmd in
        write_array fuel e address cmd size
    end.

(** EEPROM::read(uint32_t, int16_t&) *)
Definition read_int16 (e : EEPROM) (address : Z) (data : bytes2)
    : EEPROM * bytes2 :=
  if negb (_errnum e =? 0) then (e, data)
  else if negb (checkAddress e (u32 (address + 1)))
  then (set_errnum e EEPROM_OutOfRange, data)
  else
    let '(e, cmd) := read_array e address (fresh 2) 2 in
    (e, bytes2_of_list cmd).

(** EEPROM::read(uint32_t, int32_t&) *)
Definition read_int32 (e : EEPROM) (address : Z) (data : bytes4)
    : EEPROM * bytes4 :=
  if negb (_errnum e =? 0) then (e, data)
  else if negb (checkAddress e (u32 (address + 3)))
  then (set_errnum e EEPROM_OutOfRange, data)
  else
    let '(e, cmd) := read_array e address (fresh 4) 4 in
    (e, bytes4_of_list cmd).

(** EEPROM::read(uint32_t, float&) *)
Definition read_float (e : EEPROM) (address : Z) (data : bytes4)
    : EEPROM * bytes4 :=
  if negb (_errnum e =? 0) then (e, data)
  else if negb (checkAddress e (u32 (address + 3)))
  then (set_errnum e EEPROM_OutOfRange, data)
  else
    let '(e, cmd) := read_array e address (fresh 4) 4 in
    (e, bytes4_of_list cmd).

(** *** EEPROM::clear

    [i] counts from 0 to [_size / 4]; each round writes the long 0. *)
Definition zero4 : bytes4 := (x00, x00, x00, x00).

Fixpoint clear_loop (fuel : nat) (rounds : nat) (i : Z) (e : EEPROM)
    : option EEPROM :=
  match rounds with
  | O => Some e
  | S rounds' =>
      match write_int32 fuel e (u32 (i * 4)) zero4 with
      | None => None
      | Some e' => clear_loop fuel rounds' (i + 1) e'
      end
  end.

Definition clear (fuel : nat) (e : EEPROM) : option EEPROM :=
  clear_loop fuel (Z.to_nat (_size e / 4)) 0 e.

(** ** Calls

    Every public operation as a value, for statements about all of them
    and about sequences of them.  A call carries its arguments; for a read
    that includes the content of the destination before the call.  [run]
    gives the object after the call and the bytes of the destination. *)
Inductive Call : Type :=
| CallWriteInt8 (address : Z) (data : byte)
| CallWriteArray (address : Z) (data : list byte) (length : Z)
| CallWriteInt16 (address : Z) (data : bytes2)
| CallWriteInt32 (address : Z) (data : bytes4)
| CallWriteFloat (address : Z) (data : bytes4)
| CallWriteAny (address : Z) (data : list byte) (size : Z)
| CallReadInt8 (address : Z) (data : byte)
| CallReadArray (address : Z) (data : list byte) (size : Z)
| CallReadCurrent (data : byte)
| CallReadInt16 (address : Z) (data : bytes2)
| CallReadInt32 (address : Z) (data : bytes4)
| CallReadFloat (address : Z) (data : bytes4)
| CallReadAny (address : Z) (data : list byte) (size : Z)
| CallClear
| CallReady.

Definition destination (c : Call) : list byte :=
  match c with
  | CallReadInt8 _ d | CallReadCurrent d => [d]
  | CallReadArray _ d _ | CallReadAny _ d _ => d
  | CallReadInt16 _ d => list_of_bytes2 d
  | CallReadInt32 _ d | CallReadFloat _ d => list_of_bytes4 d
  | _ => []
  end.

Definition written (r : option EEPROM) : option (EEPROM * list byte) :=
  option_map (fun e => (e, [])) r.

Definition run (fuel : nat) (c : Call) (e : EEPROM)
    : option (EEPROM * list byte) :=
  match c with
  | CallWriteInt8 a d => Some (write_int8 e a d, [])
  | CallWriteArray a d n => written (write_array fuel e a d n)
  | CallWriteInt16 a d => written (write_int16 fuel e a d)
  | CallWriteInt32 a d => written (write_int32 fuel e a d)
  | CallWriteFloat a d => written (write_float fuel e a d)
  | CallWriteAny a d n => written (write_any fuel e a d n)
  | CallReadInt8 a d => let '(e, d) := read_int8 e a d in Some (e, [d])
  | CallReadArray a d n => Some (read_array e a d n)
  | CallReadCurrent d => let '(e, d) := read_current e d in Some (e, [d])
  | CallReadInt16 a d =>
      let '(e, d) := read_int16 e a d in Some (e, list_of_bytes2 d)
  | CallReadInt32 a d =>
      let '(e, d) := read_int32 e a d in Some (e, list_of_bytes4 d)
  | CallReadFloat a d =>
      let '(e, d) := read_float e a d in Some (e, list_of_bytes4 d)
  | CallReadAny a d n => Some (read_any e a d n)
  | CallClear => written (clear fuel e)
  | CallReady => Some (ready e, [])
  end.

Fixpoint run_all (fuel : nat) (cs : list Call) (e : EEPROM)
    : option EEPROM :=
  match cs with
  | [] => Some e
  | c :: rest =>
      match run fuel c e with
      | None => None
      | Some (e', _) => run_all fuel rest e'
      end
  end.

(** The bytes a call addresses, as the first address and their number;
    the calls that take no address have none. *)
Definition span (c : Call) : option (Z * Z) :=
  match c with
  | CallWriteInt8 a _ | CallReadInt8 a _ => Some (a, 1)
  | CallWriteArray a _ n | CallWriteAny a _ n
  | CallReadArray a _ n | CallReadAny a _ n => Some (a, n)
  | CallWriteInt16 a _ | CallReadInt16 a _ => Some (a, 2)
  | CallWriteInt32 a _ | CallWriteFloat a _
  | CallReadInt32 a _ | CallReadFloat a _ => Some (a, 4)
  | CallReadCurrent _ | CallClear | CallReady => None
  end.

(** The calls that are meant to leave the chip's content alone: the
    reads and the poll. *)
Definition reads (c : Call) : bool :=
  match c with
  | CallReadInt8 _ _ | CallReadArray _ _ _ | CallReadCurrent _
  | CallReadInt16 _ _ | CallReadInt32 _ _ | CallReadFloat _ _
  | CallReadAny _ _ _ | CallReady => true
  | _ => false
  end.

(** How many of the coming transactions the script refuses before the
    first one it acknowledges. *)
Fixpoint refusals (script : list Z) : nat :=
  match script with
  | [] => O
  | a :: rest => if negb (a =? 0) then S (refusals rest) else O
  end.

(** ** The specification's vocabulary *)

(** The two variants whose bounds check subtracts one. *)
Definition quirked (t : TypeEeprom) : bool :=
  match t with
  | T24C1025 | M24M02 => true
  | _ => false
  end.

Definition nominal_capacity (t : TypeEeprom) : Z := type_value t.

Definition effective_capacity (t : TypeEeprom) : Z :=
  if quirked t then nominal_capacity t - 1 else nominal_capacity t.

(** The page size the constructor gives a variant. *)
Definition page_size (t : TypeEeprom) : Z :=
  match t with
  | T24C01 | T24C02 => 8
  | T24C04 | T24C08 | T24C16 => 16
  | T24C32 | T24C64 => 32
  | T24C128 | T24C256 => 64
  | T24C512 | T24C1024 | T24C1025 => 128
  | M24M02 => 256
  end.

(** Address resolution as the specification words it, by page size. *)
Definition resolve_by_page_size (page_size address : Z) : Z * Z :=
  if page_size <? 32 then (address / 255, address mod 255)
  else if 128 <? page_size then (address / 65535, address mod 65535)
  else (0, address).

(** Address resolution by family of variants. *)
Definition resolve_by_family (t : TypeEeprom) (address : Z) : Z * Z :=
  match t with
  | T24C01 | T24C02 | T24C04 | T24C08 | T24C16 =>
      (address / 255, address mod 255)
  | T24C1024 | T24C1025 | M24M02 =>
      (address / 65535, address mod 65535)
  | _ => (0, address)
  end.

(** The largest chip-select value the specification lists for a variant. *)
Definition chip_select_limit (t : TypeEeprom) : Z :=
  match t with
  | T24C1024 | T24C1025 => 3
  | M24M02 => 1
  | _ => 7
  end.

Definition is_T24C16 (t : TypeEeprom) : bool :=
  match t with
  | T24C16 => true
  | _ => false
  end.

(** A write transaction that carries a page: word address and data. *)
Definition is_page_write (t : Transaction) : bool :=
  match t with
  | BusWrite _ bytes false => 1 <? Z.of_nat (length bytes)
  | _ => false
  end.

(** Neither the bus nor the allocator is scripted to fail, and the only
    fault that may be recorded is OutOfRange. *)
Definition calm (e : EEPROM) : Prop :=
  acks (_i2c e) = [] /\ heap e = [] /\
  (_errnum e = EEPROM_NoError \/ _errnum e = EEPROM_OutOfRange).

(** A page size that a long, written at a multiple of 4, never
    straddles. *)
Definition long_pages (e : EEPROM) : Prop :=
  0 < _page_write e <= 256 /\ _page_write e mod 4 = 0.

(** The logical addresses that resolve to block 0 with the address
    unchanged: those below the stride of the variant's family. *)
Definition first_block_size (t : TypeEeprom) : Z :=
  if type_lt t T24C32 then 255
  else if type_gt t T24C512 then 65535
  else type_value t.

(** Where a span has to end to stay both in range and in block 0. *)
Definition span_limit (t : TypeEeprom) : Z :=
  Z.min (effective_capacity t) (first_block_size t).

(** A device of variant [t], as constructed, without a fault, on a bus
    and with an allocator that are not scripted to fail. *)
Definition sound (t : TypeEeprom) (e : EEPROM) : Prop :=
  _type e = t /\ _page_write e = page_size t /\
  _errnum e = EEPROM_NoError /\ acks (_i2c e) = [] /\ heap e = [].

(** Nothing that an operation can observe has changed from [e] to [e']:
    only the chip's address counter and the traffic may differ. *)
Definition steady (e e' : EEPROM) : Prop :=
  _type e' = _type e /\ _address e' = _address e /\
  _page_write e' = _page_write e /\
  _errnum e' = _errnum e /\ heap e' = heap e /\
  acks (_i2c e') = acks (_i2c e) /\ layout (_i2c e') = layout (_i2c e) /\
  forall k, cells (_i2c e') k = cells (_i2c e) k.

(** The chip holds in [e'] what it holds in [e]. *)
Definition same_content (e e' : EEPROM) : Prop :=
  layout (_i2c e') = layout (_i2c e) /\
  forall k, cells (_i2c e') k = cells (_i2c e) k.

(** The error code of [e'] is the one of [e], or one of the three that
    an operation records. *)
Definition recorded (e e' : EEPROM) : Prop :=
  _errnum e' = _errnum e \/ _errnum e' = EEPROM_I2cError \/
  _errnum e' = EEPROM_OutOfRange \/ _errnum e' = EEPROM_MallocError.

(** The members that are set at construction and read ever after. *)
Definition config (e : EEPROM) : TypeEeprom * Z * Z * Z * Z :=
  (_type e, _address e, _page_write e, _page_block_number e, _size e).

(** The error the constructor records, as the specification lists it:
    BadAddress above the variant's limit, no error otherwise. *)
Definition construction_error_as_specified (t : TypeEeprom) (address : Z) : Z :=
  if chip_select_limit t <? address then EEPROM_BadAddress else EEPROM_NoError.

(** ** Sample devices and payloads *)

Definition zeroed : Z -> byte := fun _ => x00.
Definition erased : Z -> byte := fun _ => xff.
Definition ramp : Z -> byte := fun k => byte_of_Z (k + 100).
Definition idle_bus (l : Layout) (c : Z -> byte) : I2C := mkI2C l c 0 [] [].

(** The bytes 1, 2, ..., n. *)
Definition count_up (n : nat) : list byte :=
  map (fun i => byte_of_Z (Z.of_nat i + 1)) (seq 0 n).

Definition sample_calls : list Call :=
  [CallWriteInt8 5 x2a; CallReadCurrent x00; CallWriteInt32 8 zero4].

(** A T24C02 whose next allocation fails and whose next transaction is
    not acknowledged. *)
Definition starved_device : EEPROM :=
  set_heap (EEPROM_new (mkI2C Linear ramp 0 [1] []) 0 T24C02) [false].

(** * Properties *)

(** ** Bounds check *)

Lemma checkAddress_type_accepts (t : TypeEeprom) (address : Z) :
  checkAddress_type t address = true <-> address < effective_capacity t.
Proof.
  unfold effective_capacity, nominal_capacity.
  destruct t; cbn [checkAddress_type quirked type_value];
    match goal with
    | |- context [?a >=? ?b] => destruct (Z.geb_spec a b)
    end; split; intro Hacc; try reflexivity; try discriminate; lia.
Qed.

(** C3.  For every variant the bounds check accepts a logical address
    exactly when it lies strictly below the effective capacity: the
    nominal capacity minus one for the two quirked variants T24C1025 and
    M24M02, the nominal capacity itself for every other variant. *)
Theorem checkAddress_accepts_below_effective_capacity :
  forall (e : EEPROM) (address : Z),
    checkAddress e address = true <->
    address < effective_capacity (_type e).
Proof.
  intros e address. unfold checkAddress. apply checkAddress_type_accepts.
Qed.

Lemma effective_capacity_le_nominal (t : TypeEeprom) :
  effective_capacity t <= nominal_capacity t.
Proof. destruct t; vm_compute; discriminate. Qed.

(** ** Construction *)

Lemma EEPROM_new_errnum (bus : I2C) (address : Z) (t : TypeEeprom) :
  _errnum (EEPROM_new bus address t) =
  if negb (is_T24C16 t) && (chip_select_limit t <? address)
  then EEPROM_BadAddress else EEPROM_NoError.
Proof.
  unfold EEPROM_new.
  destruct t; cbn; try reflexivity; destruct (_ <? address); reflexivity.
Qed.

(** C8, as amended.  The constructor records BadAddress exactly when the
    chip-select value exceeds the variant's limit (7, 3 for T24C1024 and
    T24C1025, 1 for M24M02) and the variant is not T24C16; the T24C16
    case checks nothing and starts with no error whatever the value. *)
Theorem construction_records_bad_address :
  forall (bus : I2C) (address : Z) (t : TypeEeprom),
    getError (EEPROM_new bus address t) =
    if negb (is_T24C16 t) && (chip_select_limit t <? address)
    then EEPROM_BadAddress else EEPROM_NoError.
Proof.
  intros bus address t. unfold getError. apply EEPROM_new_errnum.
Qed.

Lemma EEPROM_new_type (bus : I2C) (address : Z) (t : TypeEeprom) :
  _type (EEPROM_new bus address t) = t.
Proof. unfold EEPROM_new. destruct (EEPROM_switch address t) as [[[? ?] ?] ?]. reflexivity. Qed.

Lemma EEPROM_new_page_write (bus : I2C) (address : Z) (t : TypeEeprom) :
  _page_write (EEPROM_new bus address t) = page_size t.
Proof. destruct t; reflexivity. Qed.

Lemma EEPROM_new_size (bus : I2C) (address : Z) (t : TypeEeprom) :
  getSize (EEPROM_new bus address t) =
  match t with
  | T24C1025 => nominal_capacity T24C1024
  | _ => nominal_capacity t
  end.
Proof. destruct t; reflexivity. Qed.

(** ** Address resolution *)

Lemma u8_small (x : Z) : 0 <= x < 256 -> u8 x = x.
Proof. intro H. unfold u8. apply Z.mod_small. exact H. Qed.

Lemma u8_lor (x y : Z) : u8 (Z.lor x y) = Z.lor (u8 x) (u8 y).
Proof.
  unfold u8. change 256 with (2 ^ 8).
  rewrite <- !Z.land_ones by lia. apply Z.land_lor_distr_l.
Qed.

Lemma type_lt_T24C32_page_size (t : TypeEeprom) :
  type_lt t T24C32 = (page_size t <? 32).
Proof. destruct t; reflexivity. Qed.

Lemma page_block_in_range (t : TypeEeprom) (address : Z) :
  0 <= address -> checkAddress_type t address = true ->
  page_block_of t address = resolve_by_family t address /\
  0 <= fst (resolve_by_family t address) <= 8.
Proof.
  intros H0 H.
  assert (Hlt : address < type_value t).
  { pose proof (effective_capacity_le_nominal t) as Hle.
    apply checkAddress_type_accepts in H.
    unfold nominal_capacity in Hle. lia. }
  unfold page_block_of, resolve_by_family.
  assert (Hsmall : address < 2048 -> 0 <= address / 255 <= 8).
  { intro. split; [apply Z.div_pos; lia
                  | apply Z.lt_succ_r, Z.div_lt_upper_bound; lia]. }
  assert (Hlarge : address < 262144 -> 0 <= address / 65535 <= 8).
  { intro. split; [apply Z.div_pos; lia
                  | apply Z.lt_succ_r, Z.div_lt_upper_bound; lia]. }
  destruct t; cbn [type_value] in Hlt;
    repeat match goal with
    | |- context [type_lt ?a ?b] =>
        let v := eval vm_compute in (type_lt a b) in
        change (type_lt a b) with v
    | |- context [type_gt ?a ?b] =>
        let v := eval vm_compute in (type_gt a b) in
        change (type_gt a b) with v
    end; cbv iota; cbn [fst];
    try (split; [reflexivity | lia]);
    (split; [rewrite u8_small by lia; reflexivity | lia]).
Qed.

(** C2, as amended.  For every variant and every in-range logical
    address the resolution gives block = address / 255 and in-block
    address = address % 255 for the variants below T24C32 (those with a
    page size below 32), block = address / 65535 and in-block address =
    address % 65535 for the variants above T24C512 (T24C1024, T24C1025
    and M24M02, with page sizes 128, 128 and 256), block 0 and the
    address unchanged for the others; the bus address is the configured
    base address OR-ed with the block shifted left by one. *)
Theorem address_resolution_by_family :
  forall (bus : I2C) (chip_select : Z) (t : TypeEeprom) (address : Z),
    0 <= address ->
    checkAddress (EEPROM_new bus chip_select t) address = true ->
    let e := EEPROM_new bus chip_select t in
    let block := fst (page_block_of (_type e) address) in
    page_block_of (_type e) address = resolve_by_family t address /\
    type_lt (_type e) T24C32 = (_page_write e <? 32) /\
    ((_page_write e <? 32) = true ->
     page_block_of (_type e) address = (address / 255, address mod 255)) /\
    device_address e block = Z.lor (base_address e) (Z.shiftl block 1).
Proof.
  intros bus chip_select t address H0 H e block.
  unfold checkAddress in H. subst e block.
  rewrite EEPROM_new_type in *. rewrite EEPROM_new_page_write.
  destruct (page_block_in_range t address H0 H) as [Hres Hb].
  split; [exact Hres|]. split; [apply type_lt_T24C32_page_size|]. split.
  - intro Hp. rewrite Hres. destruct t; try reflexivity; discriminate Hp.
  - rewrite Hres. unfold device_address, base_address.
    rewrite u8_lor. f_equal. apply u8_small.
    rewrite Z.shiftl_mul_pow2 by lia. change (2 ^ 1) with 2. lia.
Qed.

(** ** The sticky fault *)

Lemma faulted_test (e : EEPROM) :
  _errnum e <> 0 -> negb (_errnum e =? 0) = true.
Proof. intro H. apply Z.eqb_neq in H. rewrite H. reflexivity. Qed.

Lemma clear_loop_faulted (fuel rounds : nat) (i : Z) (e : EEPROM) :
  _errnum e <> 0 -> clear_loop fuel rounds i e = Some e.
Proof.
  intro H. revert i. induction rounds as [|rounds IH]; intro i; cbn [clear_loop].
  - reflexivity.
  - unfold write_int32. rewrite (faulted_test e H). apply IH.
Qed.

Lemma run_faulted (fuel : nat) (c : Call) (e : EEPROM) :
  _errnum e <> 0 -> run fuel c e = Some (e, destination c).
Proof.
  intro H. pose proof (faulted_test e H) as Ht.
  destruct c; cbn [run destination];
    unfold write_int8, write_array, write_int16, write_int32, write_float,
           write_any, read_int8, read_array, read_current, read_int16,
           read_int32, read_float, read_any, clear, ready;
    try rewrite Ht; try reflexivity.
  unfold written. rewrite clear_loop_faulted by exact H. reflexivity.
Qed.

(** C6, as amended.  Every operation (each overload of write and of
    read, clear, and the completion poll) that is entered while the error
    state holds a fault code returns the object as it was: no transaction
    is added to the traffic, nothing is allocated, and the chip, the
    destination of a read and the error state are untouched.  So after
    any sequence of operations entered in that state getError still
    reports the code that was recorded when the sequence began. *)
Theorem fault_is_sticky :
  forall (fuel : nat) (e : EEPROM),
    getError e <> EEPROM_NoError ->
    (forall c : Call, run fuel c e = Some (e, destination c)) /\
    (forall cs : list Call, run_all fuel cs e = Some e).
Proof.
  intros fuel e H. unfold getError, EEPROM_NoError in H. split.
  - intro c. apply run_faulted. exact H.
  - intro cs. induction cs as [|c cs IH]; cbn [run_all].
    + reflexivity.
    + rewrite run_faulted by exact H. exact IH.
Qed.

(** ** What no operation changes *)

Lemma config_set_errnum (e : EEPROM) (n : Z) : config (set_errnum e n) = config e.
Proof. reflexivity. Qed.

Lemma config_set_i2c (e : EEPROM) (b : I2C) : config (set_i2c e b) = config e.
Proof. reflexivity. Qed.

Lemma config_set_heap (e : EEPROM) (h : list bool) : config (set_heap e h) = config e.
Proof. reflexivity. Qed.

Lemma config_bus_write e addr cmd len rep e' ack :
  bus_write e addr cmd len rep = (e', ack) -> config e' = config e.
Proof.
  unfold bus_write. destruct (i2c_write _ _ _ _ _ _ _) as [b a].
  intro H. inversion H. reflexivity.
Qed.

Lemma config_bus_read e addr len e' ack got :
  bus_read e addr len = (e', ack, got) -> config e' = config e.
Proof.
  unfold bus_read. destruct (i2c_read _ _ _) as [[b a] g].
  intro H. inversion H. reflexivity.
Qed.

Lemma config_malloc e size e' r :
  malloc e size = (e', r) -> config e' = config e.
Proof.
  unfold malloc. destruct (heap e) as [|[|] rest]; intro H; inversion H; reflexivity.
Qed.

Lemma config_ready_loop n e addr : config (ready_loop n e addr) = config e.
Proof.
  revert e. induction n as [|n IH]; intro e; cbn [ready_loop];
    destruct (bus_write e addr [x00] 0 false) as [e1 ack] eqn:E;
    apply config_bus_write in E.
  - exact E.
  - destruct (negb (ack =? 0)); [rewrite IH|]; exact E.
Qed.

Lemma config_ready e : config (ready e) = config e.
Proof.
  unfold ready. destruct (negb (_errnum e =? 0)); [reflexivity|].
  apply config_ready_loop.
Qed.

Ltac config_step :=
  match goal with
  | |- config (set_errnum _ _) = _ => rewrite config_set_errnum
  | |- config (ready _) = _ => rewrite config_ready
  | |- config (fst (if ?b then _ else _)) = _ => destruct b
  | |- config (if ?b then _ else _) = _ => destruct b
  | |- config (fst (let '(_, _) := ?p in _)) = _ =>
      let E := fresh "E" in destruct p eqn:E
  | |- config (let '(_, _) := ?p in _) = _ =>
      let E := fresh "E" in destruct p eqn:E
  | E : bus_write _ _ _ _ _ = (_, _) |- _ =>
      apply config_bus_write in E
  | E : bus_read _ _ _ = (_, _, _) |- _ =>
      apply config_bus_read in E
  | E : malloc _ _ = (_, _) |- _ =>
      apply config_malloc in E
  | |- config (fst (match ?o with Some _ => _ | None => _ end)) = _ =>
      destruct o
  | |- config (match ?o with Some _ => _ | None => _ end) = _ =>
      destruct o
  | |- config (fst (_, _)) = _ => cbn [fst]
  | |- ?x = ?x => reflexivity
  | H : config ?a = config ?b |- config ?a = _ => rewrite H
  end.

Lemma config_write_int8 e a d : config (write_int8 e a d) = config e.
Proof.
  unfold write_int8. repeat config_step.
Qed.

Lemma config_read_array e a d n : config (fst (read_array e a d n)) = config e.
Proof. unfold read_array. repeat config_step. Qed.

Lemma config_read_int8 e a d : config (fst (read_int8 e a d)) = config e.
Proof. unfold read_int8. repeat config_step. Qed.

Lemma config_read_current e d : config (fst (read_current e d)) = config e.
Proof. unfold read_current. repeat config_step. Qed.

Lemma config_read_any e a d n : config (fst (read_any e a d n)) = config e.
Proof.
  unfold read_any. repeat config_step.
  match goal with
  | E : read_array ?e1 _ ?c _ = (?e2, _) |- _ =>
      pose proof (config_read_array e1 a c n) as H; rewrite E in H
  end.
  cbn [fst] in H. congruence.
Qed.


Ltac config_read_array_step :=
  match goal with
  | E : read_array ?e1 ?a ?c ?n = (_, _) |- _ =>
      let C := fresh "C" in
      pose proof (config_read_array e1 a c n) as C;
      rewrite E in C; cbn [fst] in C; clear E
  end.

Lemma config_read_int16 e a d :
  config (fst (read_int16 e a d)) = config e.
Proof. unfold read_int16. repeat config_step. config_read_array_step. assumption. Qed.

Lemma config_read_int32 e a d :
  config (fst (read_int32 e a d)) = config e.
Proof. unfold read_int32. repeat config_step. config_read_array_step. assumption. Qed.

Lemma config_write_pages fuel blocs :
  forall e address start data length wc btw cmd e',
    write_pages fuel blocs e address start data length wc btw cmd
    = Some e' ->
    config e' = config e.
Proof.
  induction blocs as [|blocs IH];
    intros e address start data length wc btw cmd e';
    cbn [write_pages]; intro H.
  - inversion H; reflexivity.
  - destruct (page_block_of (_type e) address) as [pb a].
    match type of H with
    | context [let '(_, _) := ?p in _] => destruct p as [e1 cmd1] eqn:E1
    end.
    assert (C1 : config e1 = config e).
    { destruct (_ || _) in E1.
      - match type of E1 with
        | context [read_any ?x ?y ?z ?w] =>
            pose proof (config_read_any x y z w) as C;
            destruct (read_any x y z w) as [e2 pg]
        end.
        inversion E1; subst. exact C.
      - inversion E1; reflexivity. }
    destruct (splice _ _ _ _ _ _ _ _ _) as [cmd2|]; [|discriminate].
    destruct (bus_write _ _ _ _ _) as [e3 ack] eqn:E3.
    apply config_bus_write in E3.
    destruct (negb (ack =? 0)).
    + inversion H; subst. rewrite config_set_errnum. congruence.
    + apply IH in H. rewrite H, config_ready. congruence.
Qed.

Lemma config_write_array fuel e a d n e' :
  write_array fuel e a d n = Some e' -> config e' = config e.
Proof.
  unfold write_array.
  repeat match goal with
  | |- (if ?b then _ else _) = _ -> _ => destruct b
  | |- Some _ = Some _ -> _ =>
      let H := fresh in intro H; inversion H; subst; reflexivity
  end.
  apply config_write_pages.
Qed.

Lemma config_write_int16 fuel e a d e' :
  write_int16 fuel e a d = Some e' -> config e' = config e.
Proof.
  unfold write_int16.
  repeat match goal with
  | |- (if ?b then _ else _) = _ -> _ => destruct b
  | |- Some _ = Some _ -> _ =>
      let H := fresh in intro H; inversion H; subst; reflexivity
  end.
  apply config_write_array.
Qed.

Lemma config_write_int32 fuel e a d e' :
  write_int32 fuel e a d = Some e' -> config e' = config e.
Proof.
  unfold write_int32.
  repeat match goal with
  | |- (if ?b then _ else _) = _ -> _ => destruct b
  | |- Some _ = Some _ -> _ =>
      let H := fresh in intro H; inversion H; subst; reflexivity
  end.
  apply config_write_array.
Qed.

Lemma config_write_any fuel e a d n e' :
  write_any fuel e a d n = Some e' -> config e' = config e.
Proof.
  unfold write_any.
  repeat match goal with
  | |- (if ?b then _ else _) = _ -> _ => destruct b
  | |- Some _ = Some _ -> _ =>
      let H := fresh in intro H; inversion H; subst; reflexivity
  end.
  destruct (malloc e n) as [e1 [cmd|]] eqn:E;
    apply config_malloc in E; intro H.
  - apply config_write_array in H. congruence.
  - inversion H; subst. rewrite config_set_errnum. exact E.
Qed.

Lemma config_clear_loop fuel rounds :
  forall i e e',
    clear_loop fuel rounds i e = Some e' -> config e' = config e.
Proof.
  induction rounds as [|rounds IH]; intros i e e'; cbn [clear_loop]; intro H.
  - inversion H; reflexivity.
  - destruct (write_int32 _ _ _ _) as [e1|] eqn:E; [|discriminate].
    apply config_write_int32 in E. apply IH in H. congruence.
Qed.

Lemma config_run fuel c e e' out :
  run fuel c e = Some (e', out) -> config e' = config e.
Proof.
  destruct c; cbn [run]; unfold written; intro H.
  - inversion H; subst. apply config_write_int8.
  - destruct (write_array _ _ _ _ _) eqn:E; inversion H; subst.
    eapply config_write_array; eassumption.
  - destruct (write_int16 _ _ _ _) eqn:E; inversion H; subst.
    eapply config_write_int16; eassumption.
  - destruct (write_int32 _ _ _ _) eqn:E; inversion H; subst.
    eapply config_write_int32; eassumption.
  - destruct (write_float _ _ _ _) eqn:E; inversion H; subst.
    eapply config_write_int32; eassumption.
  - destruct (write_any _ _ _ _ _) eqn:E; inversion H; subst.
    eapply config_write_any; eassumption.
  - pose proof (config_read_int8 e address data) as C.
    destruct (read_int8 e address data). inversion H; subst. exact C.
  - pose proof (config_read_array e address data size) as C.
    inversion H as [R]. rewrite R in C. exact C.
  - pose proof (config_read_current e data) as C.
    destruct (read_current e data). inversion H; subst. exact C.
  - pose proof (config_read_int16 e address data) as C.
    destruct (read_int16 e address data). inversion H; subst. exact C.
  - pose proof (config_read_int32 e address data) as C.
    destruct (read_int32 e address data). inversion H; subst. exact C.
  - pose proof (config_read_int32 e address data) as C.
    change (read_int32 e address data) with (read_float e address data) in C.
    destruct (read_float e address data). inversion H; subst. exact C.
  - pose proof (config_read_any e address data size) as C.
    inversion H as [R]. rewrite R in C. exact C.
  - destruct (clear _ _) eqn:E; inversion H; subst.
    eapply config_clear_loop; eassumption.
  - inversion H; subst. apply config_ready.
Qed.

Lemma config_run_all fuel cs :
  forall e e', run_all fuel cs e = Some e' -> config e' = config e.
Proof.
  induction cs as [|c cs IH]; intros e e'; cbn [run_all]; intro H.
  - inversion H; reflexivity.
  - destruct (run fuel c e) as [[e1 out]|] eqn:E; [|discriminate].
    apply config_run in E. apply IH in H. congruence.
Qed.

(** C10.  getSize returns the variant's nominal capacity, except for
    T24C1025, for which it returns the capacity of T24C1024; the value is
    fixed by the constructor, and no sequence of operations changes it. *)
Theorem getSize_fixed_at_construction :
  forall (bus : I2C) (chip_select : Z) (t : TypeEeprom)
         (fuel : nat) (calls : list Call) (e' : EEPROM),
    run_all fuel calls (EEPROM_new bus chip_select t) = Some e' ->
    getSize e' =
    match t with
    | T24C1025 => nominal_capacity T24C1024
    | _ => nominal_capacity t
    end.
Proof.
  intros bus chip_select t fuel calls e' H.
  apply config_run_all in H. rewrite <- EEPROM_new_size with (bus := bus) (address := chip_select).
  unfold getSize. unfold config in H. congruence.
Qed.

(** ** The 20-byte write at address 10 of a T24C16 *)

(** C5.  On a T24C16 (page size 16, 8 blocks, one-byte word address) a
    healthy device writes 20 bytes at logical address 10 in exactly two
    page transactions.  The first rewrites the page of addresses 0-15: it
    carries the ten bytes read back from addresses 0-9 and the first 6
    payload bytes.  The second rewrites the page of addresses 16-31: it
    carries the remaining 14 payload bytes and the two bytes read back
    from addresses 30-31.  Each page is read before it is written and the
    chip is polled after it.  Reading addresses 10-29 afterwards returns
    the 20 bytes of the payload, and no fault is recorded. *)
Theorem T24C16_write_20_bytes_at_10 :
  forall (l : Layout) (content : Z -> byte) (chip_select : Z)
         (data buffer : list byte),
    length data = 20%nat ->
    let e0 := EEPROM_new (idle_bus l content) chip_select T24C16 in
    let page1 :=
      BusWrite 160 (x00 :: fetch content 0 10 ++ firstn 6 data) false in
    let page2 :=
      BusWrite 160 (x10 :: skipn 6 data ++ fetch content 30 2) false in
    exists e1 : EEPROM,
      write_array 256 e0 10 data 20 = Some e1 /\
      getError e1 = EEPROM_NoError /\
      rev (traffic (_i2c e1)) =
        [BusWrite 160 [x00] true; BusRead 160 16; page1; BusWrite 160 [] false;
         BusWrite 160 [x10] true; BusRead 160 16; page2; BusWrite 160 [] false] /\
      filter is_page_write (rev (traffic (_i2c e1))) = [page1; page2] /\
      getError (fst (read_array e1 10 buffer 20)) = EEPROM_NoError /\
      snd (read_array e1 10 buffer 20) = data ++ skipn 20 buffer.
Proof.
  intros l content chip_select data buffer Hlen e0 page1 page2.
  do 20 (destruct data as [|? data]; [discriminate Hlen|]).
  destruct data; [|discriminate Hlen]. clear Hlen.
  subst e0 page1 page2.
  eexists. split; [vm_compute; reflexivity|].
  repeat split; vm_compute; reflexivity.
Qed.

(** ** A zero-length write *)

(** C9, at the failing input.  On a device without a recorded fault, of
    whatever variant, the array write of length 0 at logical address 0
    records OutOfRange: the last address of the span, [address + length -
    1], wraps around to 4294967295, which the bounds check rejects. *)
Theorem zero_length_write_at_0_is_rejected :
  forall (fuel : nat) (e : EEPROM) (data : list byte),
    getError e = EEPROM_NoError ->
    checkAddress e 0 = true /\
    write_array fuel e 0 data 0 = Some (set_errnum e EEPROM_OutOfRange).
Proof.
  intros fuel e data H. unfold getError, EEPROM_NoError in H.
  unfold write_array, checkAddress. rewrite H.
  destruct (_type e); split; reflexivity.
Qed.

(** ** Runs on a bus that acknowledges *)

Lemma bus_write_calm e addr cmd len rep e' ack :
  acks (_i2c e) = [] ->
  bus_write e addr cmd len rep = (e', ack) ->
  ack = 0 /\ acks (_i2c e') = [] /\ heap e' = heap e /\ _errnum e' = _errnum e.
Proof.
  intros Ha. unfold bus_write, i2c_write, pop_ack. rewrite Ha. cbn [negb Z.eqb].
  destruct (firstn (Z.to_nat len) cmd); intro H; inversion H; subst; cbn; auto.
Qed.

Lemma bus_read_calm e addr len e' ack got :
  acks (_i2c e) = [] ->
  bus_read e addr len = (e', ack, got) ->
  ack = 0 /\ acks (_i2c e') = [] /\ heap e' = heap e /\ _errnum e' = _errnum e.
Proof.
  intros Ha. unfold bus_read, i2c_read, pop_ack. rewrite Ha. cbn [negb Z.eqb].
  intro H; inversion H; subst; cbn; auto.
Qed.

Lemma calm_set_errnum_OutOfRange e :
  calm e -> calm (set_errnum e EEPROM_OutOfRange).
Proof. intros (Ha & Hh & _). repeat split; auto. Qed.

Lemma ready_calm e : calm e -> calm (ready e).
Proof.
  intros (Ha & Hh & He). unfold ready.
  destruct (negb (_errnum e =? 0)); [repeat split; assumption|].
  rewrite Ha. cbn [length ready_loop].
  destruct (bus_write e (base_address e) [x00] 0 false) as [e1 ack] eqn:E.
  apply bus_write_calm in E; [|exact Ha].
  destruct E as (_ & Ha1 & Hh1 & He1).
  repeat split; congruence.
Qed.

Lemma read_array_calm e a d n : calm e -> calm (fst (read_array e a d n)).
Proof.
  intros C. pose proof C as (Ha & Hh & He). unfold read_array.
  destruct (negb (_errnum e =? 0)); [exact C|].
  destruct (negb (checkAddress e a));
    [apply calm_set_errnum_OutOfRange; exact C|].
  destruct (negb (checkAddress e (u32 (a + n - 1))));
    [apply calm_set_errnum_OutOfRange; exact C|].
  destruct (page_block_of (_type e) a) as [pb a'].
  destruct (bus_write _ _ _ _ _) as [e1 ack] eqn:E1.
  apply bus_write_calm in E1; [|exact Ha].
  destruct E1 as (-> & Ha1 & Hh1 & He1). cbn [negb Z.eqb].
  destruct (bus_read _ _ _) as [[e2 ack2] got] eqn:E2.
  apply bus_read_calm in E2; [|exact Ha1].
  destruct E2 as (-> & Ha2 & Hh2 & He2). cbn [negb Z.eqb fst].
  repeat split; congruence.
Qed.

Lemma malloc_calm e n : heap e = [] -> malloc e n = (e, Some (fresh n)).
Proof. intro H. unfold malloc. rewrite H. reflexivity. Qed.

Lemma read_any_calm e a d n : calm e -> calm (fst (read_any e a d n)).
Proof.
  intros C. pose proof C as (Ha & Hh & He). unfold read_any.
  destruct (negb (_errnum e =? 0)); [exact C|].
  destruct (negb (checkAddress e (u32 (a + n - 1))));
    [apply calm_set_errnum_OutOfRange; exact C|].
  rewrite malloc_calm by exact Hh.
  pose proof (read_array_calm e a (fresh n) n C) as C1.
  destruct (read_array e a (fresh n) n) as [e1 c1]. exact C1.
Qed.

Lemma write_pages_calm fuel blocs :
  forall e address start data length wc btw cmd e',
    calm e ->
    write_pages fuel blocs e address start data length wc btw cmd = Some e' ->
    calm e'.
Proof.
  induction blocs as [|blocs IH];
    intros e address start data length wc btw cmd e' C;
    cbn [write_pages]; intro H.
  - inversion H; subst; exact C.
  - destruct (page_block_of (_type e) address) as [pb a].
    match type of H with
    | context [let '(_, _) := ?p in _] => destruct p as [e1 cmd1] eqn:E1
    end.
    assert (C1 : calm e1).
    { destruct (_ || _) in E1.
      - match type of E1 with
        | context [read_any ?x ?y ?z ?w] =>
            pose proof (read_any_calm x y z w C) as C1;
            destruct (read_any x y z w) as [e2 pg]
        end.
        inversion E1; subst. exact C1.
      - inversion E1; subst; exact C. }
    destruct (splice _ _ _ _ _ _ _ _ _) as [cmd2|]; [|discriminate].
    destruct (bus_write _ _ _ _ _) as [e3 ack] eqn:E3.
    apply bus_write_calm in E3; [|apply C1].
    destruct E3 as (-> & Ha3 & Hh3 & He3). cbn [negb Z.eqb] in H.
    apply IH in H; [exact H|]. apply ready_calm.
    destruct C1 as (_ & Hh1 & He1). repeat split; congruence.
Qed.

Lemma write_array_calm fuel e a d n e' :
  calm e -> write_array fuel e a d n = Some e' -> calm e'.
Proof.
  intro C. unfold write_array.
  destruct (negb (_errnum e =? 0)); [intro H; inversion H; subst; exact C|].
  destruct (negb (checkAddress e a));
    [intro H; inversion H; subst; apply calm_set_errnum_OutOfRange; exact C|].
  destruct (negb (checkAddress e (u32 (a + n - 1))));
    [intro H; inversion H; subst; apply calm_set_errnum_OutOfRange; exact C|].
  apply write_pages_calm. exact C.
Qed.

Lemma write_int32_calm fuel e a d e' :
  calm e -> write_int32 fuel e a d = Some e' -> calm e'.
Proof.
  intro C. unfold write_int32.
  destruct (negb (_errnum e =? 0)); [intro H; inversion H; subst; exact C|].
  destruct (negb (checkAddress e (u32 (a + 3))));
    [intro H; inversion H; subst; apply calm_set_errnum_OutOfRange; exact C|].
  apply write_array_calm. exact C.
Qed.

Lemma clear_loop_calm fuel rounds :
  forall i e e', calm e -> clear_loop fuel rounds i e = Some e' -> calm e'.
Proof.
  induction rounds as [|rounds IH]; intros i e e' C; cbn [clear_loop]; intro H.
  - inversion H; subst; exact C.
  - destruct (write_int32 _ _ _ _) as [e1|] eqn:E; [|discriminate].
    apply write_int32_calm in E; [|exact C]. eapply IH; eassumption.
Qed.

(** ** Termination of the inner loop *)

Lemma splice_returns fuel :
  forall j pw po len btw wc data cmd,
    0 <= j -> btw <= 255 -> (Z.to_nat (btw - j) < fuel)%nat ->
    exists c, splice fuel j pw po len btw wc data cmd = Some c.
Proof.
  induction fuel as [|fuel IH]; intros j pw po len btw wc data cmd Hj Hb Hf.
  - lia.
  - cbn [splice].
    destruct ((j <? u32 (pw - po)) && (j <? btw)) eqn:E; [|eauto].
    apply andb_true_iff in E. destruct E as [_ E]. apply Z.ltb_lt in E.
    rewrite u8_small by lia. apply IH; lia.
Qed.

(** A full page of 256 bytes: every [uint8_t] passes both tests, so the
    loop over [j] never ends. *)
Lemma splice_diverges fuel :
  forall j len btw wc data cmd,
    0 <= j < 256 -> 256 <= btw ->
    splice fuel j 256 0 len btw wc data cmd = None.
Proof.
  induction fuel as [|fuel IH]; intros j len btw wc data cmd Hj Hb.
  - reflexivity.
  - cbn [splice]. change (u32 (256 - 0)) with 256.
    assert (E1 : (j <? 256) = true) by (apply Z.ltb_lt; lia).
    assert (E2 : (j <? btw) = true) by (apply Z.ltb_lt; lia).
    rewrite E1, E2. cbn [andb]. apply IH; [|exact Hb].
    unfold u8. apply Z.mod_pos_bound. lia.
Qed.

Lemma blocs_of_one_page pw off len :
  0 < pw <= 256 -> 0 <= off -> 0 < len -> off + len <= pw ->
  (if negb (u16 (u32 (len + off) - u8 (u32 (len + off) / pw) * pw) =? 0)
   then u8 (u8 (u32 (len + off) / pw) + 1)
   else u8 (u32 (len + off) / pw)) = 1.
Proof.
  intros Hpw Hoff Hlen Hfit.
  assert (Hx : u32 (len + off) = len + off) by (apply Z.mod_small; lia).
  rewrite Hx. destruct (Z.eq_dec (len + off) pw) as [E|E].
  - rewrite E, Z_div_same_full by lia. change (u8 1) with 1.
    replace (pw - 1 * pw) with 0 by lia. reflexivity.
  - rewrite Z.div_small by lia. change (u8 0) with 0.
    replace (len + off - 0 * pw) with (len + off) by lia.
    assert (Hr : u16 (len + off) = len + off) by (apply Z.mod_small; lia).
    rewrite Hr. destruct (Z.eqb_spec (len + off) 0); [lia|]. reflexivity.
Qed.

Lemma aligned_long_fits pw a :
  0 < pw -> pw mod 4 = 0 -> a mod 4 = 0 -> a mod pw + 4 <= pw.
Proof.
  intros Hpw H4 Ha.
  assert (Hd : (4 | pw)) by (apply Z.mod_divide; [lia|exact H4]).
  assert (Hm : (a mod pw) mod 4 = 0)
    by (rewrite Z.mod_mod_divide; [exact Ha|exact Hd]).
  pose proof (Z.mod_pos_bound a pw Hpw) as Hb.
  apply Z.mod_divide in Hm; [|lia]. destruct Hm as [q Hq]. destruct Hd as [p Hp].
  lia.
Qed.

(** ** clear *)

Lemma long_pages_new bus cs t : long_pages (EEPROM_new bus cs t).
Proof. unfold long_pages. rewrite EEPROM_new_page_write. destruct t; cbn; lia. Qed.

Lemma long_pages_config e e' : config e' = config e -> long_pages e -> long_pages e'.
Proof. unfold long_pages, config. intros C H. inversion C. congruence. Qed.

Lemma write_int32_returns fuel e a d :
  (5 <= fuel)%nat -> long_pages e -> 0 <= a -> a mod 4 = 0 ->
  exists e', write_int32 fuel e a d = Some e'.
Proof.
  intros Hf [Hpw H4] Ha0 Ha. unfold write_int32, write_array.
  destruct (negb (_errnum e =? 0)); [eauto|].
  destruct (negb (checkAddress e (u32 (a + 3)))); [eauto|].
  destruct (negb (checkAddress e a)); [eauto|].
  destruct (negb (checkAddress e (u32 (a + 4 - 1)))); [eauto|].
  pose proof (aligned_long_fits (_page_write e) a (proj1 Hpw) H4 Ha) as Hfit.
  rewrite blocs_of_one_page
    by (try exact Hpw; try lia; apply Z.mod_pos_bound; lia).
  change (Z.to_nat 1) with 1%nat. cbn [write_pages].
  destruct (page_block_of (_type e) a) as [pb a'].
  match goal with
  | |- context [let '(_, _) := ?p in _] => destruct p as [e1 cmd1]
  end.
  match goal with
  | |- context [splice ?f ?j ?pw ?po ?len ?btw ?wc ?dt ?c] =>
      destruct (splice_returns f j pw po len btw wc dt c) as [c2 Hc];
        [lia | vm_compute; discriminate | change btw with 4; lia | rewrite Hc]
  end.
  destruct (bus_write _ _ _ _ _) as [e3 ack].
  destruct (negb (ack =? 0)); eauto.
Qed.

Lemma u32_long_aligned i : 0 <= u32 (i * 4) /\ u32 (i * 4) mod 4 = 0.
Proof.
  unfold u32. split.
  - apply Z.mod_pos_bound. lia.
  - rewrite Z.mod_mod_divide by (exists 1073741824; reflexivity).
    apply Z.mod_mul. lia.
Qed.

Lemma clear_loop_returns fuel rounds :
  forall i e,
    (5 <= fuel)%nat -> long_pages e ->
    exists e', clear_loop fuel rounds i e = Some e'.
Proof.
  induction rounds as [|rounds IH]; intros i e Hf Hp; cbn [clear_loop].
  - eauto.
  - destruct (u32_long_aligned i) as [H0 H4].
    destruct (write_int32_returns fuel e (u32 (i * 4)) zero4 Hf Hp H0 H4)
      as [e1 E].
    rewrite E. apply IH; [exact Hf|].
    apply config_write_int32 in E. eapply long_pages_config; eassumption.
Qed.

Lemma checkAddress_config e e' a :
  config e' = config e -> checkAddress e' a = checkAddress e a.
Proof. unfold config, checkAddress. intro C. inversion C. congruence. Qed.

(** The last round of [clear] decides: when its long does not pass the
    bounds check, the loop ends with a fault recorded. *)
Lemma clear_loop_last_round fuel rounds :
  forall i e e',
    clear_loop fuel (S rounds) i e = Some e' ->
    checkAddress e (u32 (u32 ((i + Z.of_nat rounds) * 4) + 3)) = false ->
    _errnum e' <> 0.
Proof.
  induction rounds as [|rounds IH]; intros i e e' H Hc.
  - cbn [clear_loop] in H. replace (i + Z.of_nat 0) with i in Hc by lia.
    unfold write_int32 in H. rewrite Hc in H. cbn [negb] in H.
    destruct (Z.eqb_spec (_errnum e) 0) as [E|E]; cbn [negb] in H;
      inversion H; subst; [discriminate|exact E].
  - remember (S rounds) as r. cbn [clear_loop] in H. subst r.
    destruct (write_int32 fuel e (u32 (i * 4)) zero4) as [e1|] eqn:E;
      [|discriminate].
    apply config_write_int32 in E.
    apply (IH (i + 1) e1 e' H).
    rewrite (checkAddress_config e e1 _ E).
    replace (i + 1 + Z.of_nat rounds) with (i + Z.of_nat (S rounds)) by lia.
    exact Hc.
Qed.

(** C7, at the failing input.  On an M24M02, whatever the chip holds and
    however it numbers its cells, clear() returns, and it returns with a
    fault recorded: OutOfRange when the device was healthy (chip-select 0
    or 1), the construction's BadAddress otherwise.  The last round writes
    the long at 262140; its last byte, 262143, is the one address that the
    bounds check of this variant gives up. *)
Theorem clear_M24M02_ends_faulted :
  forall (l : Layout) (content : Z -> byte) (chip_select : Z) (fuel : nat),
    (5 <= fuel)%nat ->
    exists e' : EEPROM,
      clear fuel (EEPROM_new (idle_bus l content) chip_select M24M02)
      = Some e' /\
      getError e' =
      (if 1 <? chip_select then EEPROM_BadAddress else EEPROM_OutOfRange).
Proof.
  intros l content chip_select fuel Hf.
  set (e0 := EEPROM_new (idle_bus l content) chip_select M24M02).
  unfold clear.
  destruct (clear_loop_returns fuel (Z.to_nat (_size e0 / 4)) 0 e0 Hf
              (long_pages_new _ _ _)) as [e' E].
  exists e'. split; [exact E|].
  change (_size e0 / 4) with (Z.succ 65535) in E.
  rewrite Z2Nat.inj_succ in E by lia.
  pose proof (clear_loop_last_round fuel _ 0 e0 e' E) as Hlast.
  rewrite Z2Nat.id in Hlast by lia.
  specialize (Hlast eq_refl).
  unfold getError. destruct (Z.ltb_spec 1 chip_select) as [Hcs|Hcs].
  - assert (He0 : _errnum e0 = EEPROM_BadAddress).
    { unfold e0. rewrite EEPROM_new_errnum.
      cbn [is_T24C16 negb chip_select_limit andb].
      apply Z.ltb_lt in Hcs. rewrite Hcs. reflexivity. }
    rewrite clear_loop_faulted in E by (rewrite He0; discriminate).
    inversion E; subst. exact He0.
  - assert (C0 : calm e0).
    { repeat split; try reflexivity. left.
      unfold e0. rewrite EEPROM_new_errnum.
      cbn [is_T24C16 negb chip_select_limit andb].
      apply Z.ltb_ge in Hcs. rewrite Hcs. reflexivity. }
    destruct (clear_loop_calm _ _ _ _ _ C0 E) as (_ & _ & [He|He]).
    + exfalso. apply Hlast. exact He.
    + exact He.
Qed.

(** ** Writes that are not read back *)

(** C1, at a failing input.  A T24C04 (chip-select 0, healthy) is given
    10 bytes to write at logical address 250, a span within capacity that
    crosses the page boundary at 256.  The write returns without fault,
    and so does reading the same span back, but the bytes read are not
    the bytes written: one of them is the byte that address 0 held before
    the write (the sixth when the chip numbers its cells by logical
    address, the seventh, with the last payload byte lost, when it numbers
    them by block).  The second page is resolved to block 1 with in-block
    address 1; the page offset and the page read before the write are
    taken from that in-block address, so the page of address 0 is read and
    written to block 1 with the payload one cell up. *)
Theorem straddling_write_T24C04_not_read_back :
  forall (l : Layout) (content : Z -> byte) (data buffer : list byte),
    length data = 10%nat ->
    let e0 := EEPROM_new (idle_bus l content) 0 T24C04 in
    exists e1 : EEPROM,
      write_array 256 e0 250 data 10 = Some e1 /\
      getError e1 = EEPROM_NoError /\
      getError (fst (read_array e1 250 buffer 10)) = EEPROM_NoError /\
      snd (read_array e1 250 buffer 10) =
        match l with
        | Linear => firstn 5 data ++ content 0 :: skipn 6 data
        | Banked => firstn 6 data ++ content 0 :: firstn 3 (skipn 6 data)
        end ++ skipn 10 buffer.
Proof.
  intros l content data buffer Hlen e0.
  do 10 (destruct data as [|? data]; [discriminate Hlen|]).
  destruct data; [|discriminate Hlen]. clear Hlen. subst e0.
  destruct l; (eexists; split; [vm_compute; reflexivity|]);
    repeat split; vm_compute; reflexivity.
Qed.

(** C4, at a failing input.  A T24C04 (chip-select 0, healthy) is given 4
    bytes to write at logical address 256, a span inside one page.  The
    write returns without fault; afterwards the 11 addresses that follow
    the span, 260-270, which before the write read as the chip's own
    cells, read as what addresses 5-15 held: the page read before the
    write is the page of in-block address 0 of block 0, not the page that
    is written. *)
Theorem sub_page_write_T24C04_alters_page :
  forall (l : Layout) (content : Z -> byte) (data buffer : list byte),
    length data = 4%nat ->
    let e0 := EEPROM_new (idle_bus l content) 0 T24C04 in
    exists e1 : EEPROM,
      write_array 256 e0 256 data 4 = Some e1 /\
      getError e1 = EEPROM_NoError /\
      snd (read_array e0 260 buffer 11) =
        fetch content (match l with Linear => 260 | Banked => 261 end) 11
        ++ skipn 11 buffer /\
      snd (read_array e1 260 buffer 11) =
        fetch content 5 11 ++ skipn 11 buffer /\
      snd (read_array e1 256 buffer 4) = data ++ skipn 4 buffer.
Proof.
  intros l content data buffer Hlen e0.
  do 4 (destruct data as [|? data]; [discriminate Hlen|]).
  destruct data; [|discriminate Hlen]. clear Hlen. subst e0.
  destruct l; (eexists; split; [vm_compute; reflexivity|]);
    repeat split; vm_compute; reflexivity.
Qed.

(** The number of pages is kept in a [uint8_t].  A T24C64 (8192 bytes,
    pages of 32) asked to write its whole capacity counts 256 pages, kept
    as 0 and raised to 1 by the remainder: one page is written, and the
    read back returns the payload's first 32 bytes followed by what the
    chip held. *)
Lemma whole_capacity_write_T24C64_writes_one_page :
  forall l : Layout,
    let e0 := EEPROM_new (idle_bus l zeroed) 0 T24C64 in
    let data := repeat x01 (Z.to_nat 8192) in
    exists e1 : EEPROM,
      write_array 256 e0 0 data 8192 = Some e1 /\
      getError e1 = EEPROM_NoError /\
      length (filter is_page_write (traffic (_i2c e1))) = 1%nat /\
      snd (read_array e1 0 [] 8192) =
        repeat x01 32 ++ repeat x00 (Z.to_nat 8160).
Proof.
  intros l e0 data. subst e0 data.
  destruct l; (eexists; split; [vm_compute; reflexivity|]);
    repeat split; vm_compute; reflexivity.
Qed.

(** X5.  On an M24M02 the page holds 256 bytes and the loop over [j], a
    [uint8_t], cannot count them: the write of a whole page never
    returns. *)
Lemma whole_page_write_M24M02_never_returns :
  forall (fuel : nat) (e : EEPROM) (data : list byte),
    _errnum e = EEPROM_NoError -> _type e = M24M02 -> _page_write e = 256 ->
    write_array fuel e 0 data 256 = None.
Proof.
  intros fuel e data He Ht Hp. unfold write_array, checkAddress.
  rewrite He, Ht, Hp.
  change (negb (EEPROM_NoError =? 0)) with false.
  change (negb (checkAddress_type M24M02 0)) with false.
  change (negb (checkAddress_type M24M02 (u32 (0 + 256 - 1)))) with false.
  cbv iota. change (Z.to_nat _) with 1%nat at 1.
  cbn [write_pages]. rewrite Ht, Hp.
  change (page_block_of M24M02 0) with (0, 0). cbv iota.
  change (0 mod 256) with 0. change (s32 256) with 256.
  change (negb (0 =? 0) || (256 <? 256)) with false. cbv iota.
  rewrite Hp, splice_diverges by lia. reflexivity.
Qed.

(** * The paged write on its sound domain

    Where every page of the span lies in block 0, the logical address and
    the in-block address coincide and the engine does what it is meant to
    do.  The lemmas below build up to that. *)

(** ** Bytes and buffers *)

Lemma Z_of_byte_of_Z (x : Z) : Z_of_byte (byte_of_Z x) = u8 x.
Proof.
  unfold Z_of_byte, byte_of_Z.
  assert (Hb : 0 <= u8 x < 256) by (apply Z.mod_pos_bound; lia).
  destruct (Byte.of_N (Z.to_N (u8 x))) as [b|] eqn:E.
  - apply Byte.to_of_N in E. rewrite E. apply Z2N.id. lia.
  - apply Byte.of_N_None_iff in E. lia.
Qed.

Lemma length_word_address (len a : Z) :
  length (word_address len a) = Z.to_nat len.
Proof. unfold word_address. rewrite length_map, length_seq. reflexivity. Qed.

Lemma word_of_bytes_word_address (t : TypeEeprom) (a : Z) :
  0 <= a < first_block_size t -> first_block_size t <= 65536 ->
  word_of_bytes (word_address (word_width t) a) = a.
Proof.
  unfold first_block_size, word_width. intros Ha Hs.
  destruct (type_lt t T24C32).
  - change (word_address 1 a) with [byte_of_Z (Z.shiftr a 0)].
    unfold word_of_bytes. cbn [fold_left]. rewrite Z_of_byte_of_Z.
    rewrite Z.shiftr_0_r. rewrite u8_small; lia.
  - change (word_address 2 a)
      with [byte_of_Z (Z.shiftr a 8); byte_of_Z (Z.shiftr a 0)].
    unfold word_of_bytes. cbn [fold_left]. rewrite !Z_of_byte_of_Z.
    rewrite Z.shiftr_0_r. rewrite Z.shiftr_div_pow2 by lia.
    change (2 ^ 8) with 256. unfold u8.
    assert (Hq : 0 <= a / 256 < 256)
      by (split; [apply Z.div_pos; lia | apply Z.div_lt_upper_bound; lia]).
    rewrite (Z.mod_small (a / 256)) by exact Hq.
    pose proof (Z.div_mod a 256). lia.
Qed.

Lemma length_fetch (c : Z -> byte) (n : nat) :
  forall a, length (fetch c a n) = n.
Proof. induction n as [|n IH]; intro a; cbn; [reflexivity | rewrite IH; reflexivity]. Qed.

Lemma nth_fetch (c : Z -> byte) (n : nat) :
  forall a i d, (i < n)%nat -> nth i (fetch c a n) d = c (a + Z.of_nat i).
Proof.
  induction n as [|n IH]; intros a i d Hi; [lia|].
  destruct i as [|i]; cbn [fetch nth].
  - f_equal. lia.
  - rewrite IH by lia. f_equal. lia.
Qed.

Lemma fetch_ext (c c' : Z -> byte) (n : nat) :
  forall a, (forall k, c k = c' k) -> fetch c a n = fetch c' a n.
Proof.
  induction n as [|n IH]; intros a H; cbn; [reflexivity|].
  rewrite H, (IH (a + 1) H). reflexivity.
Qed.

Lemma peek_fetch (c : Z -> byte) (a : Z) (n : nat) (i : Z) :
  0 <= i < Z.of_nat n -> peek (fetch c a n) i = c (a + i).
Proof.
  intro Hi. unfold peek. rewrite nth_fetch by lia. f_equal. lia.
Qed.

Lemma length_poke_nat (l : list byte) :
  forall i v, length (poke_nat l i v) = length l.
Proof.
  induction l as [|h t IH]; intros i v; [reflexivity|].
  destruct i; cbn; [reflexivity | rewrite IH; reflexivity].
Qed.

Lemma nth_poke_nat (l : list byte) :
  forall i v k,
    nth k (poke_nat l i v) x00 =
    if (k =? i)%nat && (i <? length l)%nat then v else nth k l x00.
Proof.
  induction l as [|h t IH]; intros i v k.
  - cbn. rewrite andb_false_r. reflexivity.
  - destruct i as [|i]; destruct k as [|k]; cbn [poke_nat nth length]; try reflexivity.
    rewrite IH. reflexivity.
Qed.

Lemma length_poke (l : list byte) (i : Z) (v : byte) :
  length (poke l i v) = length l.
Proof. apply length_poke_nat. Qed.

Lemma peek_poke (l : list byte) (i k : Z) (v : byte) :
  0 <= i < Z.of_nat (length l) -> 0 <= k ->
  peek (poke l i v) k = if k =? i then v else peek l k.
Proof.
  intros Hi Hk. unfold peek, poke. rewrite nth_poke_nat.
  destruct (Nat.ltb_spec (Z.to_nat i) (length l)); [|lia].
  rewrite andb_true_r.
  destruct (Z.eqb_spec k i) as [->|Hne].
  - rewrite Nat.eqb_refl. reflexivity.
  - destruct (Nat.eqb_spec (Z.to_nat k) (Z.to_nat i)); [lia | reflexivity].
Qed.

Lemma length_overlay (src dst : list byte) :
  (length src <= length dst)%nat -> length (overlay src dst) = length dst.
Proof. intro H. unfold overlay. rewrite length_app, length_skipn. lia. Qed.

Lemma peek_overlay (src dst : list byte) (k : Z) :
  0 <= k ->
  peek (overlay src dst) k =
  if k <? Z.of_nat (length src) then peek src k else peek dst k.
Proof.
  intro Hk. unfold peek, overlay.
  destruct (Z.ltb_spec k (Z.of_nat (length src))).
  - apply app_nth1. lia.
  - rewrite app_nth2 by lia. rewrite nth_skipn. f_equal. lia.
Qed.

Lemma peek_app (l1 l2 : list byte) (k : Z) :
  0 <= k ->
  peek (l1 ++ l2) k =
  if k <? Z.of_nat (length l1) then peek l1 k
  else peek l2 (k - Z.of_nat (length l1)).
Proof.
  intro Hk. unfold peek.
  destruct (Z.ltb_spec k (Z.of_nat (length l1))).
  - apply app_nth1. lia.
  - rewrite app_nth2 by lia. f_equal. lia.
Qed.

Lemma peek_firstn (l : list byte) (n : nat) (k : Z) :
  0 <= k < Z.of_nat n -> peek (firstn n l) k = peek l k.
Proof.
  intro Hk. unfold peek. rewrite nth_firstn.
  destruct (Nat.ltb_spec (Z.to_nat k) n); [reflexivity | lia].
Qed.

Lemma peek_skipn (l : list byte) (n : nat) (k : Z) :
  0 <= k -> peek (skipn n l) k = peek l (k + Z.of_nat n).
Proof.
  intro Hk. unfold peek. rewrite nth_skipn. f_equal. lia.
Qed.

Lemma list_eq_peek (l1 l2 : list byte) :
  length l1 = length l2 ->
  (forall k, 0 <= k < Z.of_nat (length l1) -> peek l1 k = peek l2 k) ->
  l1 = l2.
Proof.
  intros Hl Hp. apply nth_ext with (d := x00) (d' := x00); [exact Hl|].
  intros n Hn. specialize (Hp (Z.of_nat n)). unfold peek in Hp.
  rewrite Nat2Z.id in Hp. apply Hp. lia.
Qed.

Lemma length_fresh (n : Z) : length (fresh n) = Z.to_nat n.
Proof. unfold fresh. rewrite length_map, length_seq. reflexivity. Qed.

(** ** Transactions in block 0 *)

Lemma steady_refl e : steady e e.
Proof. repeat split; reflexivity. Qed.

Lemma steady_sound t e e' : steady e e' -> sound t e -> sound t e'.
Proof.
  intros (Ht & _ & Hp & He & Hh & Ha & _) (St & Sp & Se & Sa & Sh).
  repeat split; congruence.
Qed.

Lemma first_block_size_bound (t : TypeEeprom) : first_block_size t <= 65536.
Proof. destruct t; vm_compute; discriminate. Qed.

Lemma page_block_of_first_block (t : TypeEeprom) (a : Z) :
  0 <= a < first_block_size t -> page_block_of t a = (0, a).
Proof.
  unfold first_block_size, page_block_of. intro Ha.
  destruct (type_lt t T24C32); [|destruct (type_gt t T24C512)].
  - rewrite Z.div_small, Z.mod_small by lia. reflexivity.
  - rewrite Z.div_small, Z.mod_small by lia. reflexivity.
  - reflexivity.
Qed.

Lemma device_address_block0 (e : EEPROM) :
  device_address e 0 = base_address e.
Proof.
  unfold device_address, base_address.
  change (Z.shiftl 0 1) with 0. rewrite Z.lor_0_r. reflexivity.
Qed.

Lemma bus_write_block0 t e cmd len rep :
  sound t e -> firstn (Z.to_nat len) cmd <> [] ->
  let bytes := firstn (Z.to_nat len) cmd in
  let from := word_of_bytes (firstn (Z.to_nat (word_width t)) bytes) in
  let payload := skipn (Z.to_nat (word_width t)) bytes in
  bus_write e (device_address e 0) cmd len rep =
  (set_i2c e
     (mkI2C (layout (_i2c e)) (store (cells (_i2c e)) from payload)
            (from + Z.of_nat (length payload)) []
            (BusWrite (device_address e 0) bytes rep :: traffic (_i2c e))),
   0).
Proof.
  intros (Ht & Hp & He & Ha & Hh) Hne bytes from payload.
  unfold bus_write, i2c_write, pop_ack. rewrite Ha. cbn [negb Z.eqb].
  fold bytes. destruct bytes as [|b0 bs] eqn:Eb; [contradiction|].
  rewrite device_address_block0, Z.land_lnot_diag.
  change (Z.shiftr 0 1) with 0. rewrite Z.mul_0_l, Z.add_0_l, Ht.
  reflexivity.
Qed.

Lemma bus_read_acked e addr n :
  acks (_i2c e) = [] ->
  bus_read e addr n =
  (set_i2c e
     (mkI2C (layout (_i2c e)) (cells (_i2c e)) (cursor (_i2c e) + n) []
            (BusRead addr n :: traffic (_i2c e))),
   0, fetch (cells (_i2c e)) (cursor (_i2c e)) (Z.to_nat n)).
Proof.
  intro Ha. unfold bus_read, i2c_read, pop_ack. rewrite Ha. reflexivity.
Qed.

Lemma store_nil (c : Z -> byte) (a k : Z) : store c a [] k = c k.
Proof.
  unfold store. cbn [length]. destruct (Z.leb_spec a k); cbn [andb];
    [|reflexivity].
  destruct (Z.ltb_spec k (a + Z.of_nat 0)); [lia | reflexivity].
Qed.

Lemma firstn_all_app (l1 l2 : list byte) (n : nat) :
  n = length l1 -> firstn n (l1 ++ l2) = l1.
Proof.
  intros ->. rewrite firstn_app, Nat.sub_diag, firstn_all. cbn.
  apply app_nil_r.
Qed.

Lemma word_width_pos (t : TypeEeprom) : 1 <= word_width t <= 2.
Proof. unfold word_width. destruct (type_lt t T24C32); lia. Qed.

(** The sequential read of a span that starts in block 0 delivers the
    cells of the span and leaves the device as it was. *)
Lemma read_array_first_block t e a d n :
  sound t e -> 0 <= a < first_block_size t -> 0 <= n ->
  checkAddress e a = true -> checkAddress e (u32 (a + n - 1)) = true ->
  exists e',
    read_array e a d n =
    (e', overlay (fetch (cells (_i2c e)) a (Z.to_nat n)) d) /\
    steady e e'.
Proof.
  intros S Ha Hn Hc1 Hc2. pose proof S as (Ht & Hp & He & Hacks & Hh).
  unfold read_array. rewrite He, Hc1, Hc2. cbn [negb Z.eqb EEPROM_NoError].
  rewrite Ht, (page_block_of_first_block t a Ha).
  change (if type_lt t T24C32 then 1 else 2) with (word_width t).
  pose proof (word_width_pos t) as Hw.
  assert (Hf : firstn (Z.to_nat (word_width t))
                 (word_address (word_width t) a)
               = word_address (word_width t) a).
  { apply firstn_all2. rewrite length_word_address. lia. }
  rewrite (bus_write_block0 t e _ _ true S).
  2:{ rewrite Hf. intro E. apply (f_equal (@length byte)) in E.
      rewrite length_word_address in E. cbn in E. lia. }
  cbn [negb Z.eqb]. rewrite !Hf.
  rewrite word_of_bytes_word_address
    by (try exact Ha; apply first_block_size_bound).
  rewrite skipn_all2 by (rewrite length_word_address; lia).
  rewrite bus_read_acked by reflexivity.
  cbn [negb Z.eqb set_i2c _i2c cells cursor layout traffic length].
  eexists. split.
  - f_equal. f_equal. rewrite Z.add_0_r.
    apply fetch_ext. intro k. apply store_nil.
  - repeat split; try reflexivity; cbn; try assumption.
    + symmetry; exact Hacks.
    + intro k. apply store_nil.
Qed.

Lemma read_any_first_block t e a d n :
  sound t e -> 0 <= a < first_block_size t -> 0 <= n ->
  checkAddress e a = true -> checkAddress e (u32 (a + n - 1)) = true ->
  exists e',
    read_any e a d n =
    (e', overlay (fetch (cells (_i2c e)) a (Z.to_nat n)) d) /\
    steady e e'.
Proof.
  intros S Ha Hn Hc1 Hc2. pose proof S as (Ht & Hp & He & Hacks & Hh).
  unfold read_any. rewrite He, Hc2. cbn [negb Z.eqb EEPROM_NoError].
  rewrite malloc_calm by exact Hh.
  destruct (read_array_first_block t e a (fresh n) n S Ha Hn Hc1 Hc2)
    as (e' & E & St).
  rewrite E. exists e'. split; [|exact St].
  f_equal. f_equal. unfold overlay.
  rewrite length_fetch, skipn_all2 by (rewrite length_fresh; lia).
  rewrite app_nil_r. apply firstn_all2. rewrite length_fetch. lia.
Qed.

Lemma ready_sound t e :
  sound t e ->
  ready e =
  set_i2c e
    (mkI2C (layout (_i2c e)) (cells (_i2c e)) (cursor (_i2c e)) []
           (BusWrite (base_address e) [] false :: traffic (_i2c e))).
Proof.
  intros (Ht & Hp & He & Ha & Hh). unfold ready.
  rewrite He, Ha. cbn [negb Z.eqb EEPROM_NoError length ready_loop].
  unfold bus_write, i2c_write, pop_ack. rewrite Ha. reflexivity.
Qed.

(** ** The loop over [j] *)

Lemma splice_spec fuel pw po len btw wc data m :
  m = Z.max 0 (Z.min (u32 (pw - po)) btw) -> m <= 255 ->
  0 <= po -> 0 <= len ->
  forall j cmd,
    0 <= j <= m -> (Z.to_nat (m - j) < fuel)%nat ->
    po + len + m <= Z.of_nat (length cmd) ->
    exists cmd',
      splice fuel j pw po len btw wc data cmd = Some cmd' /\
      length cmd' = length cmd /\
      forall k, 0 <= k ->
        peek cmd' k =
        if (po + len + j <=? k) && (k <? po + len + m)
        then peek data (wc + (k - po - len))
        else peek cmd k.
Proof.
  intros Hm Hm255 Hpo Hlen.
  induction fuel as [|fuel IH]; intros j cmd Hj Hf Hfit; [lia|].
  cbn [splice].
  destruct ((j <? u32 (pw - po)) && (j <? btw)) eqn:E.
  - apply andb_true_iff in E. destruct E as [E1 E2].
    apply Z.ltb_lt in E1, E2.
    assert (Hjm : j < m) by lia.
    rewrite u8_small by lia.
    destruct (IH (j + 1) (poke cmd (j + po + len) (peek data (wc + j))))
      as (cmd' & Hs & Hl & Hk); try lia.
    { rewrite length_poke. exact Hfit. }
    exists cmd'. split; [exact Hs|]. rewrite length_poke in Hl.
    split; [exact Hl|]. intros k Hk0. rewrite (Hk k Hk0).
    rewrite peek_poke by lia.
    repeat match goal with
    | |- context [?a <=? ?b] => destruct (Z.leb_spec a b)
    | |- context [?a <? ?b] => destruct (Z.ltb_spec a b)
    | |- context [?a =? ?b] => destruct (Z.eqb_spec a b)
    end; cbn [andb]; try reflexivity; try lia; f_equal; lia.
  - exists cmd. split; [reflexivity|]. split; [reflexivity|].
    intros k Hk0.
    assert (Hjm : j = m).
    { apply andb_false_iff in E. destruct E as [E|E]; apply Z.ltb_ge in E; lia. }
    destruct (Z.leb_spec (po + len + j) k);
      destruct (Z.ltb_spec k (po + len + m)); cbn [andb];
      try reflexivity; lia.
Qed.

(** ** One page of the write *)

Ltac variant_constants :=
  repeat match goal with
  | |- context [page_size ?t] =>
      let v := eval vm_compute in (page_size t) in
      change (page_size t) with v in *
  | |- context [span_limit ?t] =>
      let v := eval vm_compute in (span_limit t) in
      change (span_limit t) with v in *
  | |- context [effective_capacity ?t] =>
      let v := eval vm_compute in (effective_capacity t) in
      change (effective_capacity t) with v in *
  | |- context [first_block_size ?t] =>
      let v := eval vm_compute in (first_block_size t) in
      change (first_block_size t) with v in *
  end.

Lemma span_page_in_range t A :
  0 <= A < span_limit t ->
  let ps := A - A mod page_size t in
  0 <= ps <= A /\ ps < first_block_size t /\
  u32 ps = ps /\ u32 (ps + page_size t - 1) = ps + page_size t - 1 /\
  checkAddress_type t ps = true /\
  checkAddress_type t (ps + page_size t - 1) = true.
Proof.
  intros HA ps.
  assert (Hpw : 0 < page_size t) by (destruct t; reflexivity).
  pose proof (Z.mod_pos_bound A (page_size t) Hpw) as Hr.
  pose proof (Z.div_mod A (page_size t) ltac:(lia)) as Hd.
  assert (Hq : 0 <= A / page_size t) by (apply Z.div_pos; lia).
  subst ps. revert Hr Hd Hq.
  generalize (A / page_size t). generalize (A mod page_size t).
  intros r q Hr Hd Hq.
  rewrite !checkAddress_type_accepts. unfold u32.
  revert HA Hpw Hr Hd.
  destruct t; variant_constants; intros HA Hpw Hr Hd;
    rewrite !Z.mod_small by lia; lia.
Qed.

Lemma write_pages_step t fuel n e A start data length wc btw cmd :
  sound t e -> (256 <= fuel)%nat ->
  Z.of_nat (List.length cmd) = 258 ->
  0 <= A < span_limit t -> 0 <= wc -> 0 < btw ->
  let pw := page_size t in
  let po := A mod pw in
  let m := Z.min (pw - po) btw in
  m <= 255 ->
  exists e' cmd',
    write_pages fuel (S n) e A start data length wc btw cmd =
    write_pages fuel n e' (u32 (start + u32 (wc + (pw - po)))) start data
                length (u32 (wc + (pw - po)))
                (s32 (length - u32 (wc + (pw - po)))) cmd' /\
    sound t e' /\ layout (_i2c e') = layout (_i2c e) /\
    _address e' = _address e /\
    Z.of_nat (List.length cmd') = 258 /\
    forall k,
      cells (_i2c e') k =
      if (A <=? k) && (k <? A + m) then peek data (wc + (k - A))
      else cells (_i2c e) k.
Proof.
  intros S Hfuel Hcmd HA Hwc Hbtw pw po m Hm.
  pose proof S as (Ht & Hp & He & Hacks & Hh).
  pose proof (span_page_in_range t A HA) as Hpage. cbv zeta in Hpage.
  fold pw in Hpage. fold po in Hpage.
  destruct Hpage as (Hps & Hfb & Hu1 & Hu2 & Hc1 & Hc2).
  assert (Hpw : 0 < pw <= 256) by (unfold pw; destruct t; cbn; lia).
  assert (Hpo : 0 <= po < pw) by (apply Z.mod_pos_bound; lia).
  pose proof (word_width_pos t) as Hw.
  cbn [write_pages].
  rewrite Ht, page_block_of_first_block
    by (unfold span_limit in HA; lia).
  change (if type_lt t T24C32 then 1 else 2) with (word_width t).
  rewrite Hp. fold pw. fold po.
  set (w := word_width t) in *.
  set (cmd0 := overlay (word_address w (A - po)) cmd).
  assert (Hl0 : Z.of_nat (List.length cmd0) = 258).
  { unfold cmd0. rewrite length_overlay; [exact Hcmd|].
    rewrite length_word_address. lia. }
  assert (Hw0 : forall k, 0 <= k < w ->
                  peek cmd0 k = peek (word_address w (A - po)) k).
  { intros k Hk. unfold cmd0. rewrite peek_overlay by lia.
    rewrite length_word_address.
    destruct (Z.ltb_spec k (Z.of_nat (Z.to_nat w))); [reflexivity | lia]. }
  assert (Hrmw :
    exists e1 cmd1,
      (if negb (po =? 0) || (btw <? pw)
       then
         let '(e'0, page) :=
           read_any e (u32 (A - po)) (skipn (Z.to_nat w) cmd0) pw in
         (e'0, firstn (Z.to_nat w) cmd0 ++ page)
       else (e, cmd0)) = (e1, cmd1) /\
      steady e e1 /\ Z.of_nat (List.length cmd1) = 258 /\
      (forall k, 0 <= k < w ->
         peek cmd1 k = peek (word_address w (A - po)) k) /\
      ((po = 0 /\ pw <= btw) \/
       forall i, 0 <= i < pw ->
         peek cmd1 (i + w) = cells (_i2c e) (A - po + i))).
  { destruct (negb (po =? 0) || (btw <? pw)) eqn:E.
    - rewrite Hu1.
      destruct (read_any_first_block t e (A - po)
                  (skipn (Z.to_nat w) cmd0) pw S) as (e1 & Er & St);
        try lia.
      { unfold checkAddress. rewrite Ht. exact Hc1. }
      { unfold checkAddress. rewrite Ht, Hu2. exact Hc2. }
      rewrite Er. eexists. eexists. split; [reflexivity|].
      split; [exact St|].
      assert (Hlf : List.length (firstn (Z.to_nat w) cmd0) = Z.to_nat w)
        by (apply firstn_length_le; lia).
      split; [|split].
      + rewrite length_app, Hlf, length_overlay;
          rewrite ?length_fetch, ?length_skipn; lia.
      + intros k Hk. rewrite peek_app, Hlf by lia.
        destruct (Z.ltb_spec k (Z.of_nat (Z.to_nat w))); [|lia].
        rewrite peek_firstn by lia. apply Hw0. exact Hk.
      + right. intros i Hi. rewrite peek_app, Hlf by lia.
        destruct (Z.ltb_spec (i + w) (Z.of_nat (Z.to_nat w))); [lia|].
        rewrite peek_overlay, length_fetch by lia.
        destruct (Z.ltb_spec (i + w - Z.of_nat (Z.to_nat w))
                             (Z.of_nat (Z.to_nat pw))); [|lia].
        rewrite peek_fetch by lia. f_equal. lia.
    - exists e, cmd0. split; [reflexivity|].
      split; [apply steady_refl|]. split; [exact Hl0|].
      split; [exact Hw0|]. left.
      apply orb_false_iff in E. destruct E as [E1 E2].
      apply negb_false_iff, Z.eqb_eq in E1. apply Z.ltb_ge in E2. lia. }
  destruct Hrmw as (e1 & cmd1 & -> & St & Hl1 & Hw1 & Hpage).
  pose proof (steady_sound t e e1 St S) as S1.
  pose proof S1 as (Ht1 & Hp1 & He1 & Hacks1 & Hh1).
  destruct St as (_ & Haddr1 & _ & _ & _ & _ & Hlay1 & Hcells1).
  rewrite Hp1. fold pw.
  destruct (splice_spec fuel pw po w btw wc data m) with (j := 0) (cmd := cmd1)
    as (cmd2 & -> & Hl2 & Hk2); try lia.
  { unfold u32. rewrite Z.mod_small by lia. unfold m. lia. }
  assert (Hdev : device_address e 0 = device_address e1 0)
    by (unfold device_address; rewrite Haddr1; reflexivity).
  rewrite Hdev.
  assert (Hbytes : firstn (Z.to_nat w)
                     (firstn (Z.to_nat (pw + w)) cmd2)
                   = word_address w (A - po)).
  { apply list_eq_peek.
    - rewrite length_word_address, firstn_length_le; [reflexivity|].
      rewrite firstn_length_le; lia.
    - intros k Hk. rewrite firstn_length_le in Hk
        by (rewrite firstn_length_le; lia).
      rewrite !peek_firstn by lia. rewrite Hk2 by lia.
      destruct (Z.leb_spec (po + w + 0) k); cbn [andb]; [lia|].
      apply Hw1. lia. }
  rewrite (bus_write_block0 t e1 cmd2 (pw + w) false S1).
  2:{ intro E. apply (f_equal (@List.length byte)) in E.
      rewrite firstn_length_le in E by lia. cbn in E. lia. }
  cbn [negb Z.eqb]. fold w. rewrite Hbytes.
  assert (Hwa : word_of_bytes (word_address w (A - po)) = A - po)
    by (apply word_of_bytes_word_address;
        [lia | apply first_block_size_bound]).
  rewrite Hwa.
  match goal with
  | |- context [ready ?e3] =>
      assert (S3 : sound t e3) by (repeat split; assumption);
      rewrite (ready_sound t e3 S3)
  end.
  cbn [set_i2c _i2c _page_write layout cells cursor traffic _type _address
       _errnum heap _page_block_number _size].
  rewrite Hp1. fold pw.
  eexists. eexists. split; [reflexivity|].
  split; [repeat split; assumption|].
  split; [exact Hlay1|]. split; [exact Haddr1|].
  split; [rewrite Hl2; exact Hl1|].
  intro k. cbn [set_i2c _i2c cells]. unfold store.
  rewrite length_skipn, firstn_length_le by lia.
  replace (Z.of_nat (Z.to_nat (pw + w) - Z.to_nat w)) with pw by lia.
  destruct (Z.leb_spec (A - po) k); destruct (Z.ltb_spec k (A - po + pw));
    cbn [andb].
  - change (nth (Z.to_nat (k - (A - po)))
              (skipn (Z.to_nat w) (firstn (Z.to_nat (pw + w)) cmd2)) x00)
      with (peek (skipn (Z.to_nat w) (firstn (Z.to_nat (pw + w)) cmd2))
                 (k - (A - po))).
    rewrite peek_skipn, peek_firstn, Hk2 by lia.
    destruct (Z.leb_spec (po + w + 0) (k - (A - po) + Z.of_nat (Z.to_nat w)));
      destruct (Z.ltb_spec (k - (A - po) + Z.of_nat (Z.to_nat w))
                           (po + w + m));
      destruct (Z.leb_spec A k); destruct (Z.ltb_spec k (A + m));
      cbn [andb]; try lia; try (f_equal; lia);
      (destruct Hpage as [[Hz Hfull]|Hpage];
       [unfold m in *; lia
       | replace (k - (A - po) + Z.of_nat (Z.to_nat w))
           with ((k - (A - po)) + w) by lia;
         rewrite Hpage by lia; f_equal; lia]).
  - destruct (Z.leb_spec A k); destruct (Z.ltb_spec k (A + m));
      cbn [andb]; try (unfold m in *; lia); apply Hcells1.
  - destruct (Z.leb_spec A k); destruct (Z.ltb_spec k (A + m));
      cbn [andb]; try (unfold m in *; lia); apply Hcells1.
  - destruct (Z.leb_spec A k); destruct (Z.ltb_spec k (A + m));
      cbn [andb]; try (unfold m in *; lia); apply Hcells1.
Qed.

(** ** The loop over the pages *)

Lemma s32_small (x : Z) : -2147483648 <= x < 2147483648 -> s32 x = x.
Proof.
  intro H. unfold s32, u32.
  destruct (Z_lt_le_dec x 0) as [Hn|Hp].
  - replace (x mod 4294967296) with (x + 4294967296).
    + destruct (Z.ltb_spec (x + 4294967296) 2147483648); lia.
    + apply Z.mod_unique with (q := -1); lia.
  - rewrite Z.mod_small by lia.
    destruct (Z.ltb_spec x 2147483648); lia.
Qed.

Lemma u32_small (x : Z) : 0 <= x < 4294967296 -> u32 x = x.
Proof. intro H. unfold u32. apply Z.mod_small. exact H. Qed.

Lemma span_limit_bound (t : TypeEeprom) : span_limit t <= 65536.
Proof. destruct t; vm_compute; discriminate. Qed.

Lemma page_size_bound (t : TypeEeprom) : 8 <= page_size t <= 256.
Proof. destruct t; cbn; lia. Qed.

Lemma next_page_aligned (A pw : Z) :
  0 < pw -> (A + (pw - A mod pw)) mod pw = 0.
Proof.
  intro Hpw. pose proof (Z.div_mod A pw ltac:(lia)) as Hd.
  replace (A + (pw - A mod pw)) with ((A / pw + 1) * pw) by lia.
  apply Z.mod_mul. lia.
Qed.

Lemma write_pages_first_block t fuel start data length :
  (256 <= fuel)%nat -> 0 <= start -> start + length <= span_limit t ->
  page_size t <= 128 \/ length <= 255 ->
  forall n e A wc cmd,
    sound t e -> Z.of_nat (List.length cmd) = 258 ->
    A = start + wc -> 0 <= wc ->
    (Z.of_nat n - 1) * page_size t
      < length - wc + A mod page_size t <= Z.of_nat n * page_size t ->
    n = 0%nat \/ wc < length ->
    exists e',
      write_pages fuel n e A start data length wc (length - wc) cmd
      = Some e' /\
      sound t e' /\ layout (_i2c e') = layout (_i2c e) /\
      forall k,
        cells (_i2c e') k =
        if (A <=? k) && (k <? start + length) then peek data (k - start)
        else cells (_i2c e) k.
Proof.
  intros Hfuel Hstart Hspan Hsmall.
  pose proof (page_size_bound t) as Hpw.
  pose proof (span_limit_bound t) as Hlim.
  induction n as [|n IH]; intros e A wc cmd S Hcmd HA Hwc Hn Hbtw.
  - cbn [write_pages]. exists e. split; [reflexivity|].
    split; [exact S|]. split; [reflexivity|]. intro k.
    pose proof (Z.mod_pos_bound A (page_size t) ltac:(lia)).
    destruct (Z.leb_spec A k); destruct (Z.ltb_spec k (start + length));
      cbn [andb]; try reflexivity; lia.
  - destruct Hbtw as [Hbtw|Hbtw]; [discriminate|].
    pose proof (Z.mod_pos_bound A (page_size t) ltac:(lia)) as Hpo.
    destruct (write_pages_step t fuel n e A start data length wc
                (length - wc) cmd S Hfuel Hcmd) as
      (e1 & cmd1 & -> & S1 & Hlay1 & _ & Hcmd1 & Hcells1); try lia.
    set (po := A mod page_size t) in *.
    set (wc' := wc + (page_size t - po)).
    rewrite !(u32_small wc') by (unfold wc'; lia).
    rewrite (u32_small (start + wc')) by (unfold wc'; lia).
    rewrite s32_small by (unfold wc'; lia).
    assert (Hal : (start + wc') mod page_size t = 0).
    { unfold wc'. replace (start + (wc + (page_size t - po)))
        with (A + (page_size t - A mod page_size t)) by (unfold po; lia).
      apply next_page_aligned. lia. }
    destruct (IH e1 (start + wc') wc' cmd1 S1 Hcmd1 eq_refl) as
      (e' & Hw & S' & Hlay' & Hcells'); try (unfold wc'; lia).
    { rewrite Hal. unfold wc'. lia. }
    { destruct n as [|n]; [left; reflexivity|right].
      unfold wc'. nia. }
    exists e'. split; [exact Hw|]. split; [exact S'|].
    split; [congruence|]. intro k. rewrite Hcells', Hcells1.
    unfold wc'.
    destruct (Z.leb_spec (start + (wc + (page_size t - po))) k);
      destruct (Z.ltb_spec k (start + length));
      destruct (Z.leb_spec A k);
      destruct (Z.ltb_spec k (A + Z.min (page_size t - po) (length - wc)));
      cbn [andb]; try reflexivity; try lia; f_equal; lia.
Qed.

Lemma blocs_count pw x :
  0 < pw <= 256 -> 0 < x <= 255 * pw ->
  let n :=
    if negb (u16 (u32 x - u8 (u32 x / pw) * pw) =? 0)
    then u8 (u8 (u32 x / pw) + 1)
    else u8 (u32 x / pw) in
  0 <= n <= 255 /\ (n - 1) * pw < x <= n * pw.
Proof.
  intros Hpw Hx.
  rewrite (u32_small x) by lia.
  pose proof (Z.div_mod x pw ltac:(lia)) as Hd.
  pose proof (Z.mod_pos_bound x pw ltac:(lia)) as Hr.
  assert (Hq : 0 <= x / pw <= 255).
  { split; [apply Z.div_pos; lia|].
    apply Z.div_le_upper_bound; lia. }
  rewrite (u8_small (x / pw)) by lia.
  replace (x - x / pw * pw) with (x mod pw) by lia.
  unfold u16. rewrite (Z.mod_small (x mod pw)) by lia.
  destruct (Z.eqb_spec (x mod pw) 0) as [E|E]; cbn [negb]; cbv zeta.
  - nia.
  - assert (x / pw < 255) by nia.
    rewrite u8_small by lia. nia.
Qed.

Lemma write_array_in_first_block :
  forall (t : TypeEeprom) (fuel : nat) (e : EEPROM) (address : Z)
         (data : list byte) (length : Z),
    sound t e -> (256 <= fuel)%nat ->
    0 <= address -> 0 < length -> address + length <= span_limit t ->
    address mod page_size t + length <= 255 * page_size t ->
    page_size t <= 128 \/ length <= 255 ->
    exists e' : EEPROM,
      write_array fuel e address data length = Some e' /\
      sound t e' /\ layout (_i2c e') = layout (_i2c e) /\
      forall k,
        cells (_i2c e') k =
        if (address <=? k) && (k <? address + length)
        then peek data (k - address)
        else cells (_i2c e) k.
Proof.
  intros t fuel e address data length S Hfuel Ha Hlen Hspan Hpages Hsmall.
  pose proof S as (Ht & Hp & He & Hacks & Hh).
  pose proof (page_size_bound t) as Hpw.
  pose proof (span_limit_bound t) as Hlim.
  pose proof (Z.mod_pos_bound address (page_size t) ltac:(lia)) as Hoff.
  assert (Hcap : span_limit t <= effective_capacity t)
    by (unfold span_limit; lia).
  unfold write_array. rewrite He. cbn [negb Z.eqb EEPROM_NoError].
  unfold checkAddress. rewrite Ht.
  rewrite (proj2 (checkAddress_type_accepts t address)) by lia.
  rewrite (u32_small (address + length - 1)) by lia.
  rewrite (proj2 (checkAddress_type_accepts t (address + length - 1)))
    by lia.
  cbn [negb]. rewrite Hp.
  destruct (blocs_count (page_size t) (length + address mod page_size t))
    as [Hn1 Hn2]; try lia.
  cbv zeta in Hn1, Hn2.
  match goal with
  | |- context [write_pages _ (Z.to_nat ?b)] => set (n := b) in *
  end.
  rewrite s32_small by lia.
  pose proof (write_pages_first_block t fuel address data length
                Hfuel Ha Hspan Hsmall (Z.to_nat n) e address 0
                (fresh (MAX_PAGE_SIZE + 2)) S) as Hloop.
  rewrite Z.sub_0_r in Hloop. apply Hloop; try reflexivity; lia.
Qed.

(** X1.  The paged write on its sound domain.  On a device without a
    fault, for a span that ends within the part of block 0 that is in
    range, covers at most 255 pages and, on an M24M02, has at most 255
    bytes, the write returns, records no fault, stores the payload on the
    span and leaves every other cell of the chip as it was. *)
Theorem write_array_first_block :
  forall (t : TypeEeprom) (fuel : nat) (e : EEPROM) (address : Z)
         (data : list byte) (length : Z),
    sound t e -> (256 <= fuel)%nat ->
    0 <= address -> 0 < length -> address + length <= span_limit t ->
    address mod page_size t + length <= 255 * page_size t ->
    page_size t <= 128 \/ length <= 255 ->
    exists e' : EEPROM,
      write_array fuel e address data length = Some e' /\
      sound t e' /\ layout (_i2c e') = layout (_i2c e) /\
      forall k,
        cells (_i2c e') k =
        if (address <=? k) && (k <? address + length)
        then peek data (k - address)
        else cells (_i2c e) k.
Proof. exact write_array_in_first_block. Qed.

Lemma sound_new (l : Layout) (content : Z -> byte) (cs : Z) (t : TypeEeprom) :
  getError (EEPROM_new (idle_bus l content) cs t) = EEPROM_NoError ->
  sound t (EEPROM_new (idle_bus l content) cs t).
Proof.
  intro H. unfold sound. rewrite EEPROM_new_type, EEPROM_new_page_write.
  repeat split; try assumption; destruct t; reflexivity.
Qed.

(** X2.  Round trip on the sound domain: what the paged write stored, the
    sequential read of the same span returns, and the bytes outside the
    span are the bytes from before the write. *)
Theorem write_then_read_first_block :
  forall (t : TypeEeprom) (fuel : nat) (e : EEPROM) (address : Z)
         (data buffer : list byte) (length : Z),
    sound t e -> (256 <= fuel)%nat ->
    0 <= address -> 0 < length -> Z.of_nat (List.length data) = length ->
    address + length <= span_limit t ->
    address mod page_size t + length <= 255 * page_size t ->
    page_size t <= 128 \/ length <= 255 ->
    exists e1 e2 : EEPROM,
      write_array fuel e address data length = Some e1 /\
      read_array e1 address buffer length
      = (e2, data ++ skipn (Z.to_nat length) buffer) /\
      getError e2 = EEPROM_NoError /\
      forall k, ~ (address <= k < address + length) ->
        cells (_i2c e2) k = cells (_i2c e) k.
Proof.
  intros t fuel e address data buffer length S Hfuel Ha Hlen Hdata Hspan
         Hpages Hsmall.
  destruct (write_array_in_first_block t fuel e address data length
              S Hfuel Ha Hlen Hspan Hpages Hsmall)
    as (e1 & Hw & S1 & _ & Hcells).
  pose proof S1 as (Ht1 & _).
  assert (Hcap : span_limit t <= effective_capacity t /\
                 span_limit t <= first_block_size t)
    by (unfold span_limit; lia).
  pose proof (span_limit_bound t) as Hlim.
  destruct (read_array_first_block t e1 address buffer length S1)
    as (e2 & Hr & St); try lia.
  { unfold checkAddress. rewrite Ht1. apply checkAddress_type_accepts. lia. }
  { unfold checkAddress. rewrite Ht1, u32_small by lia.
    apply checkAddress_type_accepts. lia. }
  exists e1, e2. split; [exact Hw|].
  assert (Hf : fetch (cells (_i2c e1)) address (Z.to_nat length) = data).
  { apply list_eq_peek.
    - rewrite length_fetch. lia.
    - intros k Hk. rewrite length_fetch in Hk.
      rewrite peek_fetch by lia. rewrite Hcells.
      destruct (Z.leb_spec address (address + k));
        destruct (Z.ltb_spec (address + k) (address + length));
        cbn [andb]; try lia. f_equal. lia. }
  rewrite Hf in Hr. unfold overlay in Hr.
  replace (List.length data) with (Z.to_nat length) in Hr by lia.
  split; [exact Hr|].
  destruct St as (_ & _ & _ & He2 & _ & _ & _ & Hc2).
  split.
  - unfold getError. rewrite He2. apply S1.
  - intros k Hk. rewrite Hc2, Hcells.
    destruct (Z.leb_spec address k);
      destruct (Z.ltb_spec k (address + length)); cbn [andb];
      try reflexivity; lia.
Qed.

(** ** The zero-length write away from address 0 *)

Lemma read_array_sound t e a d n :
  sound t e -> checkAddress e a = true ->
  checkAddress e (u32 (a + n - 1)) = true ->
  sound t (fst (read_array e a d n)).
Proof.
  intros S Hc1 Hc2. pose proof S as (Ht & Hp & He & Ha & Hh).
  unfold read_array. rewrite He, Hc1, Hc2. cbn [negb Z.eqb EEPROM_NoError].
  destruct (page_block_of (_type e) a) as [pb a'].
  destruct (bus_write _ _ _ _ _) as [e1 ack] eqn:E1.
  pose proof (config_bus_write _ _ _ _ _ _ _ E1) as C1.
  apply bus_write_calm in E1; [|exact Ha].
  destruct E1 as (-> & Ha1 & Hh1 & He1). cbn [negb Z.eqb].
  destruct (bus_read _ _ _) as [[e2 ack2] got] eqn:E2.
  pose proof (config_bus_read _ _ _ _ _ _ E2) as C2.
  apply bus_read_calm in E2; [|exact Ha1].
  destruct E2 as (-> & Ha2 & Hh2 & He2). cbn [negb Z.eqb fst].
  unfold config in C1, C2. inversion C1. inversion C2.
  repeat split; congruence.
Qed.

Lemma read_any_sound t e a d n :
  sound t e -> checkAddress e a = true ->
  checkAddress e (u32 (a + n - 1)) = true ->
  sound t (fst (read_any e a d n)).
Proof.
  intros S Hc1 Hc2. pose proof S as (Ht & Hp & He & Ha & Hh).
  unfold read_any. rewrite He, Hc2. cbn [negb Z.eqb EEPROM_NoError].
  rewrite malloc_calm by exact Hh.
  pose proof (read_array_sound t e a (fresh n) n S Hc1 Hc2) as S1.
  destruct (read_array e a (fresh n) n) as [e1 c1]. exact S1.
Qed.

(** The page of the in-block address is in range whenever the logical
    address is. *)
Lemma in_block_page_in_range t A :
  0 <= A -> checkAddress_type t A = true ->
  let a := snd (page_block_of t A) in
  let ps := a - a mod page_size t in
  u32 ps = ps /\
  checkAddress_type t ps = true /\
  checkAddress_type t (u32 (ps + page_size t - 1)) = true.
Proof.
  intros HA Hc a ps.
  apply checkAddress_type_accepts in Hc.
  assert (Ha : 0 <= a <= A /\ a < (if type_lt t T24C32 then 255 else
                                   if type_gt t T24C512 then 65535
                                   else effective_capacity t)).
  { subst a. unfold page_block_of.
    destruct (type_lt t T24C32); [|destruct (type_gt t T24C512)];
      cbn [snd].
    - pose proof (Z.mod_pos_bound A 255 ltac:(lia)).
      pose proof (Z.mod_le A 255 HA ltac:(lia)). lia.
    - pose proof (Z.mod_pos_bound A 65535 ltac:(lia)).
      pose proof (Z.mod_le A 65535 HA ltac:(lia)). lia.
    - lia. }
  assert (Hpw : 0 < page_size t) by (destruct t; reflexivity).
  pose proof (Z.mod_pos_bound a (page_size t) Hpw) as Hr.
  pose proof (Z.div_mod a (page_size t) ltac:(lia)) as Hd.
  assert (Hq : 0 <= a / page_size t) by (apply Z.div_pos; lia).
  subst ps. clearbody a. revert Hr Hd Hq.
  generalize (a / page_size t). generalize (a mod page_size t).
  intros r q Hr Hd Hq.
  rewrite !checkAddress_type_accepts. unfold u32.
  revert Hc Ha Hpw Hr Hd.
  destruct t;
    repeat match goal with
    | |- context [type_lt ?x ?y] =>
        let v := eval vm_compute in (type_lt x y) in
        change (type_lt x y) with v
    | |- context [type_gt ?x ?y] =>
        let v := eval vm_compute in (type_gt x y) in
        change (type_gt x y) with v
    end; cbv iota; variant_constants; intros Hc Ha Hpw Hr Hd;
    rewrite !Z.mod_small by lia; lia.
Qed.

(** X3.  At every in-range logical address other than 0 the array write of
    length 0 returns and records no fault (when the address is not
    page-aligned it rewrites one page with what it read). *)
Theorem zero_length_write_above_0 :
  forall (t : TypeEeprom) (fuel : nat) (e : EEPROM) (address : Z)
         (data : list byte),
    sound t e -> (1 <= fuel)%nat ->
    0 < address -> checkAddress e address = true ->
    exists e' : EEPROM,
      write_array fuel e address data 0 = Some e' /\
      getError e' = EEPROM_NoError.
Proof.
  intros t fuel e address data S Hfuel Ha Hc.
  pose proof S as (Ht & Hp & He & Hacks & Hh).
  pose proof (page_size_bound t) as Hpw.
  pose proof (Z.mod_pos_bound address (page_size t) ltac:(lia)) as Hoff.
  assert (Hcap : address < effective_capacity t).
  { unfold checkAddress in Hc. rewrite Ht in Hc.
    apply checkAddress_type_accepts in Hc. exact Hc. }
  assert (Hcapb : effective_capacity t <= 262144)
    by (destruct t; vm_compute; discriminate).
  unfold write_array. rewrite He, Hc. cbn [negb Z.eqb EEPROM_NoError].
  rewrite (u32_small (address + 0 - 1)) by lia.
  unfold checkAddress at 1. rewrite Ht.
  rewrite (proj2 (checkAddress_type_accepts t (address + 0 - 1))) by lia.
  cbn [negb]. rewrite Hp, Z.add_0_l.
  rewrite (u32_small (address mod page_size t)) by lia.
  rewrite Z.div_small by lia. change (u8 0) with 0.
  rewrite Z.mul_0_l, Z.sub_0_r. unfold u16.
  rewrite (Z.mod_small (address mod page_size t)) by lia.
  destruct (Z.eqb_spec (address mod page_size t) 0) as [E|E]; cbn [negb].
  - change (Z.to_nat 0) with 0%nat. cbn [write_pages].
    exists e. split; [reflexivity | exact He].
  - change (Z.to_nat (u8 (0 + 1))) with 1%nat. cbn [write_pages].
    rewrite Ht.
    pose proof (in_block_page_in_range t address ltac:(lia)) as Hin.
    unfold checkAddress in Hc. rewrite Ht in Hc. specialize (Hin Hc).
    cbv zeta in Hin.
    destruct (page_block_of t address) as [pb a]. cbn [snd] in Hin.
    rewrite Hp. destruct Hin as (Hu & Hc1 & Hc2).
    change (s32 0) with 0.
    assert (Hrmw : negb (a mod page_size t =? 0) || (0 <? page_size t) = true).
    { destruct (Z.ltb_spec 0 (page_size t)); [|lia]. apply orb_true_r. }
    rewrite Hrmw, Hu.
    match goal with
    | |- context [read_any e ?x ?y ?z] =>
        pose proof (read_any_sound t e x y z S) as S1;
        destruct (read_any e x y z) as [e1 page]
    end.
    cbn [fst] in S1.
    assert (S1' : sound t e1).
    { apply S1; unfold checkAddress; rewrite Ht; assumption. }
    clear S1. pose proof S1' as (Ht1 & Hp1 & He1 & Hacks1 & Hh1).
    destruct fuel as [|fuel]; [lia|]. cbn [splice].
    rewrite andb_false_r.
    destruct (bus_write e1 _ _ _ _) as [e2 ack] eqn:E2.
    pose proof (config_bus_write _ _ _ _ _ _ _ E2) as C2.
    apply bus_write_calm in E2; [|exact Hacks1].
    destruct E2 as (-> & Ha2 & Hh2 & He2). cbn [negb Z.eqb].
    eexists. split; [reflexivity|].
    assert (S2 : sound t e2).
    { unfold config in C2. inversion C2. repeat split; congruence. }
    rewrite (ready_sound t e2 S2). unfold getError. cbn. apply S2.
Qed.

(** ** clear on the variants that lie in block 0 *)

Lemma peek_zero4 (k : Z) : peek (list_of_bytes4 zero4) k = x00.
Proof.
  unfold peek. cbn [list_of_bytes4 zero4].
  destruct (Z.to_nat k) as [|[|[|[|[|n]]]]]; reflexivity.
Qed.

Lemma clear_loop_first_block t fuel :
  (256 <= fuel)%nat ->
  forall rounds i e,
    sound t e -> 0 <= i -> 4 * (i + Z.of_nat rounds) <= span_limit t ->
    exists e',
      clear_loop fuel rounds i e = Some e' /\
      sound t e' /\ layout (_i2c e') = layout (_i2c e) /\
      forall k,
        cells (_i2c e') k =
        if (4 * i <=? k) && (k <? 4 * (i + Z.of_nat rounds)) then x00
        else cells (_i2c e) k.
Proof.
  intro Hfuel. pose proof (span_limit_bound t) as Hlim.
  pose proof (page_size_bound t) as Hpw.
  induction rounds as [|rounds IH]; intros i e Hsd Hi Hspan.
  - cbn [clear_loop]. exists e. split; [reflexivity|].
    split; [exact Hsd|]. split; [reflexivity|]. intro k.
    destruct (Z.leb_spec (4 * i) k);
      destruct (Z.ltb_spec k (4 * (i + Z.of_nat 0))); cbn [andb];
      try reflexivity; lia.
  - cbn [clear_loop]. pose proof Hsd as (Ht & Hp & He & Hacks & Hh).
    assert (Hcap : span_limit t <= effective_capacity t)
      by (unfold span_limit; lia).
    rewrite (u32_small (i * 4)) by lia.
    unfold write_int32. rewrite He. cbn [negb Z.eqb EEPROM_NoError].
    rewrite (u32_small (i * 4 + 3)) by lia.
    unfold checkAddress. rewrite Ht.
    rewrite (proj2 (checkAddress_type_accepts t (i * 4 + 3))) by lia.
    cbn [negb].
    pose proof (Z.mod_pos_bound (i * 4) (page_size t) ltac:(lia)) as Hoff.
    destruct (write_array_in_first_block t fuel e (i * 4)
                (list_of_bytes4 zero4) 4 Hsd Hfuel)
      as (e1 & -> & S1 & Hlay1 & Hcells1); try lia.
    destruct (IH (i + 1) e1 S1) as (e' & Hc & S' & Hlay' & Hcells');
      try lia.
    exists e'. split; [exact Hc|]. split; [exact S'|].
    split; [congruence|]. intro k. rewrite Hcells', Hcells1, peek_zero4.
    destruct (Z.leb_spec (4 * (i + 1)) k);
      destruct (Z.ltb_spec k (4 * (i + 1 + Z.of_nat rounds)));
      destruct (Z.leb_spec (i * 4) k);
      destruct (Z.ltb_spec k (i * 4 + 4));
      destruct (Z.leb_spec (4 * i) k);
      destruct (Z.ltb_spec k (4 * (i + Z.of_nat (S rounds))));
      cbn [andb]; try reflexivity; lia.
Qed.

(** X4.  On the variants whose whole capacity lies in block 0 (T24C01 and
    T24C32 through T24C512) clear() on a healthy device returns without
    a fault, and reading the whole capacity afterwards returns zeros. *)
Theorem clear_then_read_first_block :
  forall (t : TypeEeprom) (l : Layout) (content : Z -> byte)
         (chip_select : Z) (fuel : nat) (buffer : list byte),
    span_limit t = nominal_capacity t ->
    getError (EEPROM_new (idle_bus l content) chip_select t)
    = EEPROM_NoError ->
    (256 <= fuel)%nat ->
    exists e1 e2 : EEPROM,
      clear fuel (EEPROM_new (idle_bus l content) chip_select t) = Some e1 /\
      getError e1 = EEPROM_NoError /\
      read_array e1 0 buffer (nominal_capacity t)
      = (e2, repeat x00 (Z.to_nat (nominal_capacity t))
             ++ skipn (Z.to_nat (nominal_capacity t)) buffer) /\
      getError e2 = EEPROM_NoError.
Proof.
  intros t l content cs fuel buffer Hspan He0 Hfuel.
  set (e0 := EEPROM_new (idle_bus l content) cs t) in *.
  pose proof (sound_new l content cs t He0) as S0. fold e0 in S0.
  assert (Hsize : _size e0 = nominal_capacity t /\
                  4 * (nominal_capacity t / 4) = nominal_capacity t /\
                  0 < nominal_capacity t)
    by (destruct t; try (vm_compute in Hspan; discriminate Hspan);
        repeat split; reflexivity).
  destruct Hsize as (Hsize & H4 & Hpos).
  assert (Hq : 0 <= nominal_capacity t / 4) by (apply Z.div_pos; lia).
  unfold clear. rewrite Hsize.
  destruct (clear_loop_first_block t fuel Hfuel
              (Z.to_nat (nominal_capacity t / 4)) 0 e0 S0)
    as (e1 & Hc & S1 & _ & Hcells1); try lia.
  rewrite Z.add_0_l, Z2Nat.id, H4 in Hcells1 by lia.
  pose proof S1 as (Ht1 & _ & He1 & _).
  pose proof (span_limit_bound t) as Hlim.
  assert (Hcap : span_limit t <= effective_capacity t /\
                 span_limit t <= first_block_size t)
    by (unfold span_limit; lia).
  destruct (read_array_first_block t e1 0 buffer (nominal_capacity t) S1)
    as (e2 & Hr & St); try lia.
  { unfold checkAddress. rewrite Ht1. apply checkAddress_type_accepts. lia. }
  { unfold checkAddress. rewrite Ht1, u32_small by lia.
    apply checkAddress_type_accepts. lia. }
  exists e1, e2. split; [exact Hc|]. split; [exact He1|].
  assert (Hf : fetch (cells (_i2c e1)) 0 (Z.to_nat (nominal_capacity t))
               = repeat x00 (Z.to_nat (nominal_capacity t))).
  { apply list_eq_peek.
    - rewrite length_fetch, repeat_length. reflexivity.
    - intros k Hk. rewrite length_fetch in Hk.
      rewrite peek_fetch by lia. rewrite Hcells1.
      destruct (Z.leb_spec (4 * 0) (0 + k));
        destruct (Z.ltb_spec (0 + k) (nominal_capacity t));
        cbn [andb]; try lia.
      unfold peek. symmetry. apply nth_repeat. }
  rewrite Hf in Hr. unfold overlay in Hr. rewrite repeat_length in Hr.
  split; [exact Hr|].
  destruct St as (_ & _ & _ & He2 & _). unfold getError. congruence.
Qed.

(** ** More fuel changes nothing *)

Lemma splice_fuel_mono fuel :
  forall fuel' j pw po len btw wc data cmd cmd',
    splice fuel j pw po len btw wc data cmd = Some cmd' ->
    (fuel <= fuel')%nat ->
    splice fuel' j pw po len btw wc data cmd = Some cmd'.
Proof.
  induction fuel as [|fuel IH];
    intros fuel' j pw po len btw wc data cmd cmd' H Hle; [discriminate|].
  destruct fuel' as [|fuel']; [lia|]. cbn [splice] in *.
  destruct ((j <? u32 (pw - po)) && (j <? btw)); [|exact H].
  apply IH; [exact H | lia].
Qed.

Lemma write_pages_fuel_mono fuel fuel' blocs :
  (fuel <= fuel')%nat ->
  forall e address start data length wc btw cmd e',
    write_pages fuel blocs e address start data length wc btw cmd = Some e' ->
    write_pages fuel' blocs e address start data length wc btw cmd = Some e'.
Proof.
  intro Hle. induction blocs as [|blocs IH];
    intros e address start data length wc btw cmd e'; cbn [write_pages];
    [trivial|].
  destruct (page_block_of (_type e) address) as [pb a].
  match goal with
  | |- context [let '(_, _) := ?p in _] => destruct p as [e1 cmd1]
  end.
  destruct (splice fuel _ _ _ _ _ _ _ _) as [cmd2|] eqn:E; [|discriminate].
  rewrite (splice_fuel_mono _ _ _ _ _ _ _ _ _ _ _ E Hle).
  destruct (bus_write _ _ _ _ _) as [e3 ack].
  destruct (negb (ack =? 0)); [trivial|]. apply IH.
Qed.

(** Whatever the array write returns with some fuel, it returns with any
    larger fuel. *)
Lemma write_array_fuel_mono fuel fuel' e address data length e' :
  (fuel <= fuel')%nat ->
  write_array fuel e address data length = Some e' ->
  write_array fuel' e address data length = Some e'.
Proof.
  intro Hle. unfold write_array.
  repeat match goal with
  | |- (if ?b then _ else _) = _ -> _ => destruct b; [trivial|]
  end.
  apply write_pages_fuel_mono. exact Hle.
Qed.

(** * Further properties of the operations *)

(** ** Termination with pages of at most 255 bytes *)

Lemma splice_returns_short fuel :
  forall j pw po len btw wc data cmd,
    0 <= j -> u32 (pw - po) <= 255 ->
    (Z.to_nat (u32 (pw - po) - j) < fuel)%nat ->
    exists c, splice fuel j pw po len btw wc data cmd = Some c.
Proof.
  induction fuel as [|fuel IH]; intros j pw po len btw wc data cmd Hj Hb Hf.
  - lia.
  - cbn [splice].
    destruct ((j <? u32 (pw - po)) && (j <? btw)) eqn:E; [|eauto].
    apply andb_true_iff in E. destruct E as [E _]. apply Z.ltb_lt in E.
    rewrite u8_small by lia. apply IH; lia.
Qed.

Lemma page_write_config e e' :
  config e' = config e -> _page_write e' = _page_write e.
Proof. unfold config. intro C. inversion C. reflexivity. Qed.

Lemma write_pages_returns fuel blocs :
  forall e address start data length wc btw cmd,
    (256 <= fuel)%nat -> 0 < _page_write e <= 255 ->
    exists e',
      write_pages fuel blocs e address start data length wc btw cmd = Some e'.
Proof.
  induction blocs as [|blocs IH];
    intros e address start data length wc btw cmd Hf Hp; cbn [write_pages].
  - eauto.
  - destruct (page_block_of (_type e) address) as [pb a].
    match goal with
    | |- context [let '(_, _) := ?p in _] => destruct p as [e1 cmd1] eqn:E1
    end.
    assert (C1 : config e1 = config e).
    { destruct (_ || _) in E1.
      - match type of E1 with
        | context [read_any ?x ?y ?z ?w] =>
            pose proof (config_read_any x y z w) as C1;
            destruct (read_any x y z w) as [e2 pg]
        end.
        inversion E1; subst. exact C1.
      - inversion E1; subst; reflexivity. }
    pose proof (page_write_config _ _ C1) as P1. rewrite P1.
    pose proof (Z.mod_pos_bound a (_page_write e) ltac:(lia)) as Hoff.
    match goal with
    | |- context [splice ?f ?j ?pw ?po ?len ?b ?w ?dt ?c] =>
        destruct (splice_returns_short f j pw po len b w dt c) as [c2 Hc];
          [lia | rewrite u32_small by lia; lia
           | rewrite u32_small by lia; lia | rewrite Hc]
    end.
    destruct (bus_write _ _ _ _ _) as [e3 ack] eqn:E3.
    destruct (negb (ack =? 0)); [eauto|].
    apply IH; [exact Hf|].
    apply config_bus_write in E3.
    rewrite (page_write_config _ _ (config_ready e3)),
            (page_write_config _ _ E3), P1.
    exact Hp.
Qed.

Lemma write_array_returns fuel e a d n :
  (256 <= fuel)%nat -> 0 < _page_write e <= 255 ->
  exists e', write_array fuel e a d n = Some e'.
Proof.
  intros Hf Hp. unfold write_array.
  destruct (negb (_errnum e =? 0)); [eauto|].
  destruct (negb (checkAddress e a)); [eauto|].
  destruct (negb (checkAddress e (u32 (a + n - 1)))); [eauto|].
  apply write_pages_returns; assumption.
Qed.

Lemma clear_loop_write_returns fuel rounds :
  forall i e,
    (256 <= fuel)%nat -> 0 < _page_write e <= 255 ->
    exists e', clear_loop fuel rounds i e = Some e'.
Proof.
  induction rounds as [|rounds IH]; intros i e Hf Hp; cbn [clear_loop].
  - eauto.
  - assert (W : exists e1, write_int32 fuel e (u32 (i * 4)) zero4 = Some e1).
    { unfold write_int32.
      destruct (negb (_errnum e =? 0)); [eauto|].
      destruct (negb (checkAddress e _)); [eauto|].
      apply write_array_returns; assumption. }
    destruct W as [e1 E]. rewrite E. apply IH; [exact Hf|].
    apply config_write_int32 in E.
    rewrite (page_write_config _ _ E). exact Hp.
Qed.

Lemma run_returns fuel c e :
  (256 <= fuel)%nat -> 0 < _page_write e <= 255 ->
  exists r, run fuel c e = Some r.
Proof.
  intros Hf Hp.
  destruct c; cbn [run]; eauto.
  - destruct (write_array_returns fuel e address data length Hf Hp) as [e' E].
    rewrite E. cbn. eauto.
  - unfold write_int16.
    destruct (negb (_errnum e =? 0)); [cbn; eauto|].
    destruct (negb (checkAddress e _)); [cbn; eauto|].
    destruct (write_array_returns fuel e address (list_of_bytes2 data) 2 Hf Hp)
      as [e' E].
    rewrite E. cbn. eauto.
  - unfold write_int32.
    destruct (negb (_errnum e =? 0)); [cbn; eauto|].
    destruct (negb (checkAddress e _)); [cbn; eauto|].
    destruct (write_array_returns fuel e address (list_of_bytes4 data) 4 Hf Hp)
      as [e' E].
    rewrite E. cbn. eauto.
  - unfold write_float.
    destruct (negb (_errnum e =? 0)); [cbn; eauto|].
    destruct (negb (checkAddress e _)); [cbn; eauto|].
    destruct (write_array_returns fuel e address (list_of_bytes4 data) 4 Hf Hp)
      as [e' E].
    rewrite E. cbn. eauto.
  - unfold write_any.
    destruct (negb (_errnum e =? 0)); [cbn; eauto|].
    destruct (negb (checkAddress e _)); [cbn; eauto|].
    destruct (malloc e size) as [e1 [cmd|]] eqn:M; [|cbn; eauto].
    apply config_malloc in M.
    destruct (write_array_returns fuel e1 address
                (overlay (firstn (Z.to_nat size) data) cmd) size Hf) as [e' E].
    { rewrite (page_write_config _ _ M). exact Hp. }
    rewrite E. cbn. eauto.
  - destruct (read_int8 e address data). eauto.
  - destruct (read_current e data). eauto.
  - destruct (read_int16 e address data). eauto.
  - destruct (read_int32 e address data). eauto.
  - destruct (read_float e address data). eauto.
  - unfold clear.
    destruct (clear_loop_write_returns fuel (Z.to_nat (_size e / 4)) 0 e Hf Hp)
      as [e' E].
    rewrite E. cbn. eauto.
Qed.

Lemma run_all_returns fuel cs :
  forall e,
    (256 <= fuel)%nat -> 0 < _page_write e <= 255 ->
    exists e', run_all fuel cs e = Some e'.
Proof.
  induction cs as [|c cs IH]; intros e Hf Hp; cbn [run_all].
  - eauto.
  - destruct (run_returns fuel c e Hf Hp) as [[e1 out] E]. rewrite E.
    apply IH; [exact Hf|].
    apply config_run in E. rewrite (page_write_config _ _ E). exact Hp.
Qed.

(** X6.  With a page of at most 255 bytes, which is what the constructor
    sets for every variant but M24M02, and on a chip that acknowledges
    after finitely many refusals, every sequence of operations returns,
    whatever the arguments and the allocator: the loop over [j] ends
    before the [uint8_t] can wrap, and every poll is answered in the
    end.  (On a chip that never acknowledges the poll of the source does
    not return; such a chip has no acknowledge script.) *)
Theorem every_call_returns :
  forall (fuel : nat) (cs : list Call) (e : EEPROM),
    (256 <= fuel)%nat -> 0 < _page_write e <= 255 ->
    exists e' : EEPROM, run_all fuel cs e = Some e'.
Proof. intros fuel cs e. apply run_all_returns. Qed.

(** ** Faults on a bus that acknowledges, with an allocator that succeeds *)

Lemma write_int8_calm e a d : calm e -> calm (write_int8 e a d).
Proof.
  intros C. pose proof C as (Ha & Hh & He). unfold write_int8.
  destruct (negb (_errnum e =? 0)); [exact C|].
  destruct (negb (checkAddress e a));
    [apply calm_set_errnum_OutOfRange; exact C|].
  destruct (page_block_of (_type e) a) as [pb a'].
  destruct (if type_lt (_type e) T24C32 then _ else _) as [len cmd].
  destruct (bus_write _ _ _ _ _) as [e1 ack] eqn:E1.
  apply bus_write_calm in E1; [|exact Ha].
  destruct E1 as (-> & Ha1 & Hh1 & He1). cbn [negb Z.eqb].
  apply ready_calm. repeat split; congruence.
Qed.

Lemma read_int8_calm e a d : calm e -> calm (fst (read_int8 e a d)).
Proof.
  intros C. pose proof C as (Ha & Hh & He). unfold read_int8.
  destruct (negb (_errnum e =? 0)); [exact C|].
  destruct (negb (checkAddress e a));
    [apply calm_set_errnum_OutOfRange; exact C|].
  destruct (page_block_of (_type e) a) as [pb a'].
  destruct (bus_write _ _ _ _ _) as [e1 ack] eqn:E1.
  apply bus_write_calm in E1; [|exact Ha].
  destruct E1 as (-> & Ha1 & Hh1 & He1). cbn [negb Z.eqb].
  destruct (bus_read _ _ _) as [[e2 ack2] got] eqn:E2.
  apply bus_read_calm in E2; [|exact Ha1].
  destruct E2 as (-> & Ha2 & Hh2 & He2). cbn [negb Z.eqb fst].
  repeat split; congruence.
Qed.

Lemma read_current_calm e d : calm e -> calm (fst (read_current e d)).
Proof.
  intros C. pose proof C as (Ha & Hh & He). unfold read_current.
  destruct (negb (_errnum e =? 0)); [exact C|].
  destruct (bus_read _ _ _) as [[e2 ack2] got] eqn:E2.
  apply bus_read_calm in E2; [|exact Ha].
  destruct E2 as (-> & Ha2 & Hh2 & He2). cbn [negb Z.eqb fst].
  repeat split; congruence.
Qed.

Lemma read_int16_calm e a d : calm e -> calm (fst (read_int16 e a d)).
Proof.
  intros C. unfold read_int16.
  destruct (negb (_errnum e =? 0)); [exact C|].
  destruct (negb (checkAddress e _));
    [apply calm_set_errnum_OutOfRange; exact C|].
  pose proof (read_array_calm e a (fresh 2) 2 C) as C1.
  destruct (read_array e a (fresh 2) 2) as [e1 c1]. exact C1.
Qed.

Lemma read_int32_calm e a d : calm e -> calm (fst (read_int32 e a d)).
Proof.
  intros C. unfold read_int32.
  destruct (negb (_errnum e =? 0)); [exact C|].
  destruct (negb (checkAddress e _));
    [apply calm_set_errnum_OutOfRange; exact C|].
  pose proof (read_array_calm e a (fresh 4) 4 C) as C1.
  destruct (read_array e a (fresh 4) 4) as [e1 c1]. exact C1.
Qed.

Lemma write_int16_calm fuel e a d e' :
  calm e -> write_int16 fuel e a d = Some e' -> calm e'.
Proof.
  intro C. unfold write_int16.
  destruct (negb (_errnum e =? 0)); [intro H; inversion H; subst; exact C|].
  destruct (negb (checkAddress e (u32 (a + 1))));
    [intro H; inversion H; subst; apply calm_set_errnum_OutOfRange; exact C|].
  apply write_array_calm. exact C.
Qed.

Lemma write_any_calm fuel e a d n e' :
  calm e -> write_any fuel e a d n = Some e' -> calm e'.
Proof.
  intro C. pose proof C as (Ha & Hh & He). unfold write_any.
  destruct (negb (_errnum e =? 0)); [intro H; inversion H; subst; exact C|].
  destruct (negb (checkAddress e _));
    [intro H; inversion H; subst; apply calm_set_errnum_OutOfRange; exact C|].
  rewrite malloc_calm by exact Hh.
  apply write_array_calm. exact C.
Qed.

Lemma run_calm fuel c e e' out :
  calm e -> run fuel c e = Some (e', out) -> calm e'.
Proof.
  intro C. destruct c; cbn [run]; unfold written; intro H.
  - inversion H; subst. apply write_int8_calm. exact C.
  - destruct (write_array _ _ _ _ _) eqn:E; inversion H; subst.
    eapply write_array_calm; eassumption.
  - destruct (write_int16 _ _ _ _) eqn:E; inversion H; subst.
    eapply write_int16_calm; eassumption.
  - destruct (write_int32 _ _ _ _) eqn:E; inversion H; subst.
    eapply write_int32_calm; eassumption.
  - destruct (write_float _ _ _ _) eqn:E; inversion H; subst.
    eapply write_int32_calm; eassumption.
  - destruct (write_any _ _ _ _ _) eqn:E; inversion H; subst.
    eapply write_any_calm; eassumption.
  - pose proof (read_int8_calm e address data C) as C1.
    destruct (read_int8 e address data). inversion H; subst. exact C1.
  - pose proof (read_array_calm e address data size C) as C1.
    inversion H as [R]. rewrite R in C1. exact C1.
  - pose proof (read_current_calm e data C) as C1.
    destruct (read_current e data). inversion H; subst. exact C1.
  - pose proof (read_int16_calm e address data C) as C1.
    destruct (read_int16 e address data). inversion H; subst. exact C1.
  - pose proof (read_int32_calm e address data C) as C1.
    destruct (read_int32 e address data). inversion H; subst. exact C1.
  - pose proof (read_int32_calm e address data C) as C1.
    change (read_int32 e address data) with (read_float e address data) in C1.
    destruct (read_float e address data). inversion H; subst. exact C1.
  - pose proof (read_any_calm e address data size C) as C1.
    inversion H as [R]. rewrite R in C1. exact C1.
  - destruct (clear _ _) eqn:E; inversion H; subst.
    eapply clear_loop_calm; eassumption.
  - inversion H; subst. apply ready_calm. exact C.
Qed.

Lemma run_all_calm fuel cs :
  forall e e', calm e -> run_all fuel cs e = Some e' -> calm e'.
Proof.
  induction cs as [|c cs IH]; intros e e' C; cbn [run_all]; intro H.
  - inversion H; subst. exact C.
  - destruct (run fuel c e) as [[e1 out]|] eqn:E; [|discriminate].
    apply run_calm in E; [|exact C]. eapply IH; eassumption.
Qed.

(** X7.  On a bus that acknowledges every transaction and with an
    allocator that never fails, the only fault a sequence of operations
    can record is OutOfRange: I2cError and MallocError come from the
    environment alone, and BadAddress and ParamError are never recorded
    by an operation. *)
Theorem only_OutOfRange_without_environment_faults :
  forall (fuel : nat) (cs : list Call) (e e' : EEPROM),
    getError e = EEPROM_NoError ->
    acks (_i2c e) = [] -> heap e = [] ->
    run_all fuel cs e = Some e' ->
    getError e' = EEPROM_NoError \/ getError e' = EEPROM_OutOfRange.
Proof.
  intros fuel cs e e' He Ha Hh H.
  assert (C : calm e) by (repeat split; auto).
  apply (run_all_calm fuel cs e e' C H).
Qed.

(** ** Spans that leave the chip *)

Lemma checkAddress_rejects e x :
  effective_capacity (_type e) <= x -> checkAddress e x = false.
Proof.
  intro H. destruct (checkAddress e x) eqn:E; [|reflexivity].
  apply checkAddress_type_accepts in E. lia.
Qed.

(** X8.  A call whose span of at least one byte ends beyond the
    effective capacity without wrapping around 2^32 (address + length at
    most 4294967296) is rejected before anything happens: OutOfRange is
    recorded, nothing goes over the bus, nothing is allocated and the
    destination of a read keeps its content.  The bound on address +
    length is needed: the check is made on address + length - 1 in
    [uint32_t], and a length that wraps it into range passes. *)
Theorem span_beyond_capacity_is_rejected :
  forall (fuel : nat) (c : Call) (e : EEPROM) (a n : Z),
    getError e = EEPROM_NoError -> span c = Some (a, n) ->
    0 <= a -> 0 < n -> a + n <= 4294967296 ->
    effective_capacity (_type e) < a + n ->
    run fuel c e = Some (set_errnum e EEPROM_OutOfRange, destination c).
Proof.
  intros fuel c e a n He Hs Ha Hn Hfit Hout. unfold getError in He.
  assert (Hlast : checkAddress e (u32 (a + n - 1)) = false).
  { rewrite u32_small by lia. apply checkAddress_rejects. lia. }
  destruct c; cbn [span] in Hs; inversion Hs; subst; clear Hs;
    cbn [run destination]; unfold written.
  - unfold write_int8. rewrite He. cbn [negb Z.eqb EEPROM_NoError].
    rewrite checkAddress_rejects by lia. reflexivity.
  - unfold write_array. rewrite He. cbn [negb Z.eqb EEPROM_NoError].
    destruct (checkAddress e a); [|reflexivity].
    rewrite Hlast. reflexivity.
  - unfold write_int16. rewrite He. cbn [negb Z.eqb EEPROM_NoError].
    replace (a + 1) with (a + 2 - 1) by lia. rewrite Hlast. reflexivity.
  - unfold write_int32. rewrite He. cbn [negb Z.eqb EEPROM_NoError].
    replace (a + 3) with (a + 4 - 1) by lia. rewrite Hlast. reflexivity.
  - unfold write_float. rewrite He. cbn [negb Z.eqb EEPROM_NoError].
    replace (a + 3) with (a + 4 - 1) by lia. rewrite Hlast. reflexivity.
  - unfold write_any. rewrite He. cbn [negb Z.eqb EEPROM_NoError].
    rewrite Hlast. reflexivity.
  - unfold read_int8. rewrite He. cbn [negb Z.eqb EEPROM_NoError].
    rewrite checkAddress_rejects by lia. reflexivity.
  - unfold read_array. rewrite He. cbn [negb Z.eqb EEPROM_NoError].
    destruct (checkAddress e a); [|reflexivity].
    rewrite Hlast. reflexivity.
  - unfold read_int16. rewrite He. cbn [negb Z.eqb EEPROM_NoError].
    replace (a + 1) with (a + 2 - 1) by lia. rewrite Hlast. reflexivity.
  - unfold read_int32. rewrite He. cbn [negb Z.eqb EEPROM_NoError].
    replace (a + 3) with (a + 4 - 1) by lia. rewrite Hlast. reflexivity.
  - unfold read_float. rewrite He. cbn [negb Z.eqb EEPROM_NoError].
    replace (a + 3) with (a + 4 - 1) by lia. rewrite Hlast. reflexivity.
  - unfold read_any. rewrite He. cbn [negb Z.eqb EEPROM_NoError].
    rewrite Hlast. reflexivity.
Qed.

(** ** What the reads leave alone *)

Lemma same_content_refl e : same_content e e.
Proof. split; reflexivity. Qed.

Lemma same_content_trans e1 e2 e3 :
  same_content e1 e2 -> same_content e2 e3 -> same_content e1 e3.
Proof.
  intros [L1 C1] [L2 C2]. split; [congruence|].
  intro k. rewrite C2. apply C1.
Qed.

Lemma same_content_set_errnum e n : same_content e (set_errnum e n).
Proof. split; reflexivity. Qed.

Lemma same_content_errnum e e' n :
  same_content e e' -> same_content e (set_errnum e' n).
Proof. intros [L C]. split; assumption. Qed.

(** A write transaction that carries no more than the word address
    stores nothing. *)
Lemma bus_write_address_only e addr cmd len rep e' ack :
  (Z.to_nat len <= Z.to_nat (word_width (_type e)))%nat ->
  bus_write e addr cmd len rep = (e', ack) ->
  same_content e e'.
Proof.
  intro Hlen. unfold bus_write, i2c_write, same_content.
  destruct (pop_ack (_i2c e)) as [a rest].
  destruct (negb (a =? 0)).
  - intro H; inversion H; subst. cbn. auto.
  - destruct (firstn (Z.to_nat len) cmd) as [|b0 bs] eqn:Eb.
    + intro H; inversion H; subst. cbn. auto.
    + intro H; inversion H; subst. cbn [set_i2c _i2c layout cells].
      split; [reflexivity|]. intro k.
      rewrite skipn_all2.
      * apply store_nil.
      * rewrite <- Eb, length_firstn. lia.
Qed.

Lemma bus_read_same_content e addr len e' ack got :
  bus_read e addr len = (e', ack, got) -> same_content e e'.
Proof.
  unfold bus_read, i2c_read, same_content.
  destruct (pop_ack (_i2c e)) as [a rest].
  destruct (negb (a =? 0)); intro H; inversion H; subst; cbn; auto.
Qed.

Lemma ready_loop_same_content n :
  forall e addr, same_content e (ready_loop n e addr).
Proof.
  induction n as [|n IH]; intros e addr; cbn [ready_loop];
    destruct (bus_write e addr [x00] 0 false) as [e1 ack] eqn:E;
    apply bus_write_address_only in E; try (cbn; lia).
  - exact E.
  - destruct (negb (ack =? 0)); [|exact E].
    eapply same_content_trans; [exact E|apply IH].
Qed.

Lemma ready_same_content e : same_content e (ready e).
Proof.
  unfold ready. destruct (negb (_errnum e =? 0));
    [apply same_content_refl | apply ready_loop_same_content].
Qed.

Lemma word_width_len e :
  (Z.to_nat (if type_lt (_type e) T24C32 then 1 else 2)
   <= Z.to_nat (word_width (_type e)))%nat.
Proof. unfold word_width. lia. Qed.

Lemma read_array_same_content e a d n :
  same_content e (fst (read_array e a d n)).
Proof.
  unfold read_array.
  destruct (negb (_errnum e =? 0)); [apply same_content_refl|].
  destruct (negb (checkAddress e a)); [apply same_content_set_errnum|].
  destruct (negb (checkAddress e _)); [apply same_content_set_errnum|].
  destruct (page_block_of (_type e) a) as [pb a'].
  destruct (bus_write _ _ _ _ _) as [e1 ack] eqn:E1.
  apply bus_write_address_only in E1; [|apply word_width_len].
  destruct (negb (ack =? 0)); [apply same_content_errnum; exact E1|].
  destruct (bus_read _ _ _) as [[e2 ack2] got] eqn:E2.
  apply bus_read_same_content in E2.
  pose proof (same_content_trans _ _ _ E1 E2) as T.
  destruct (negb (ack2 =? 0)); [apply same_content_errnum; exact T|exact T].
Qed.

Lemma read_int8_same_content e a d :
  same_content e (fst (read_int8 e a d)).
Proof.
  unfold read_int8.
  destruct (negb (_errnum e =? 0)); [apply same_content_refl|].
  destruct (negb (checkAddress e a)); [apply same_content_set_errnum|].
  destruct (page_block_of (_type e) a) as [pb a'].
  destruct (bus_write _ _ _ _ _) as [e1 ack] eqn:E1.
  apply bus_write_address_only in E1; [|apply word_width_len].
  destruct (negb (ack =? 0)); [apply same_content_errnum; exact E1|].
  destruct (bus_read _ _ _) as [[e2 ack2] got] eqn:E2.
  apply bus_read_same_content in E2.
  pose proof (same_content_trans _ _ _ E1 E2) as T.
  destruct (negb (ack2 =? 0)); [apply same_content_errnum; exact T|exact T].
Qed.

Lemma read_current_same_content e d :
  same_content e (fst (read_current e d)).
Proof.
  unfold read_current.
  destruct (negb (_errnum e =? 0)); [apply same_content_refl|].
  destruct (bus_read _ _ _) as [[e2 ack2] got] eqn:E2.
  apply bus_read_same_content in E2.
  destruct (negb (ack2 =? 0)); [apply same_content_errnum; exact E2|exact E2].
Qed.

Lemma malloc_same_content e n e' r :
  malloc e n = (e', r) -> same_content e e'.
Proof.
  unfold malloc. destruct (heap e) as [|[|] rest];
    intro H; inversion H; subst; split; reflexivity.
Qed.

Lemma read_any_same_content e a d n :
  same_content e (fst (read_any e a d n)).
Proof.
  unfold read_any.
  destruct (negb (_errnum e =? 0)); [apply same_content_refl|].
  destruct (negb (checkAddress e _)); [apply same_content_set_errnum|].
  destruct (malloc e n) as [e1 [cmd|]] eqn:M;
    apply malloc_same_content in M.
  - pose proof (read_array_same_content e1 a cmd n) as R.
    destruct (read_array e1 a cmd n) as [e2 c2].
    eapply same_content_trans; eassumption.
  - apply same_content_errnum. exact M.
Qed.

Lemma read_int16_same_content e a d :
  same_content e (fst (read_int16 e a d)).
Proof.
  unfold read_int16.
  destruct (negb (_errnum e =? 0)); [apply same_content_refl|].
  destruct (negb (checkAddress e _)); [apply same_content_set_errnum|].
  pose proof (read_array_same_content e a (fresh 2) 2) as R.
  destruct (read_array e a (fresh 2) 2) as [e2 c2]. exact R.
Qed.

Lemma read_int32_same_content e a d :
  same_content e (fst (read_int32 e a d)).
Proof.
  unfold read_int32.
  destruct (negb (_errnum e =? 0)); [apply same_content_refl|].
  destruct (negb (checkAddress e _)); [apply same_content_set_errnum|].
  pose proof (read_array_same_content e a (fresh 4) 4) as R.
  destruct (read_array e a (fresh 4) 4) as [e2 c2]. exact R.
Qed.

Lemma run_reads_same_content fuel c e e' out :
  reads c = true -> run fuel c e = Some (e', out) -> same_content e e'.
Proof.
  destruct c; cbn [reads]; try discriminate; intros _; cbn [run]; intro H.
  - pose proof (read_int8_same_content e address data) as C.
    destruct (read_int8 e address data). inversion H; subst. exact C.
  - pose proof (read_array_same_content e address data size) as C.
    inversion H as [R]. rewrite R in C. exact C.
  - pose proof (read_current_same_content e data) as C.
    destruct (read_current e data). inversion H; subst. exact C.
  - pose proof (read_int16_same_content e address data) as C.
    destruct (read_int16 e address data). inversion H; subst. exact C.
  - pose proof (read_int32_same_content e address data) as C.
    destruct (read_int32 e address data). inversion H; subst. exact C.
  - pose proof (read_int32_same_content e address data) as C.
    change (read_int32 e address data) with (read_float e address data) in C.
    destruct (read_float e address data). inversion H; subst. exact C.
  - pose proof (read_any_same_content e address data size) as C.
    inversion H as [R]. rewrite R in C. exact C.
  - inversion H; subst. apply ready_same_content.
Qed.

(** X9.  No read and no poll alters the chip: whatever the bus answers
    and whether or not the allocation succeeds, after a read of any
    overload or a call of ready every cell holds what it held before. *)
Theorem reads_leave_the_chip_unchanged :
  forall (fuel : nat) (c : Call) (e e' : EEPROM) (out : list byte),
    reads c = true -> run fuel c e = Some (e', out) ->
    forall k : Z, cells (_i2c e') k = cells (_i2c e) k.
Proof.
  intros fuel c e e' out Hr H.
  apply (run_reads_same_content fuel c e e' out Hr H).
Qed.

(** ** A byte written and read back *)

Lemma store_one (c : Z -> byte) (from k : Z) (d : byte) :
  store c from [d] k = if k =? from then d else c k.
Proof.
  unfold store. cbn [length].
  destruct (Z.leb_spec from k); destruct (Z.ltb_spec k (from + Z.of_nat 1));
    destruct (Z.eqb_spec k from); cbn [andb]; try reflexivity; try lia.
  subst. rewrite Z.sub_diag. reflexivity.
Qed.

Lemma bus_write_acked e addr cmd len rep :
  acks (_i2c e) = [] -> firstn (Z.to_nat len) cmd <> [] ->
  let bytes := firstn (Z.to_nat len) cmd in
  let from :=
    Z.shiftr (Z.land addr (Z.lnot (base_address e))) 1
    * block_stride (layout (_i2c e)) (_type e)
    + word_of_bytes (firstn (Z.to_nat (word_width (_type e))) bytes) in
  let payload := skipn (Z.to_nat (word_width (_type e))) bytes in
  bus_write e addr cmd len rep =
  (set_i2c e
     (mkI2C (layout (_i2c e)) (store (cells (_i2c e)) from payload)
            (from + Z.of_nat (length payload)) []
            (BusWrite addr bytes rep :: traffic (_i2c e))),
   0).
Proof.
  intros Ha Hne bytes from payload.
  unfold bus_write, i2c_write, pop_ack. rewrite Ha. cbn [negb Z.eqb].
  fold bytes. destruct bytes as [|b0 bs] eqn:Eb; [contradiction|].
  reflexivity.
Qed.

Lemma ready_acked e :
  _errnum e = EEPROM_NoError -> acks (_i2c e) = [] ->
  ready e =
  set_i2c e
    (mkI2C (layout (_i2c e)) (cells (_i2c e)) (cursor (_i2c e)) []
           (BusWrite (base_address e) [] false :: traffic (_i2c e))).
Proof.
  intros He Ha. unfold ready.
  rewrite He, Ha. cbn [negb Z.eqb EEPROM_NoError length ready_loop].
  unfold bus_write, i2c_write, pop_ack. rewrite Ha. reflexivity.
Qed.

Lemma word_address_1 (a : Z) : word_address 1 a = [byte_of_Z a].
Proof. reflexivity. Qed.

Lemma word_address_2 (a : Z) :
  word_address 2 a = [byte_of_Z (Z.shiftr a 8); byte_of_Z a].
Proof. reflexivity. Qed.

(** The byte write, acknowledged: the byte lands in the cell of its
    address and nothing else changes. *)
Lemma write_int8_acked e a d :
  _errnum e = EEPROM_NoError -> acks (_i2c e) = [] ->
  checkAddress e a = true ->
  _errnum (write_int8 e a d) = EEPROM_NoError /\
  acks (_i2c (write_int8 e a d)) = [] /\
  heap (write_int8 e a d) = heap e /\
  layout (_i2c (write_int8 e a d)) = layout (_i2c e) /\
  forall k, cells (_i2c (write_int8 e a d)) k
            = store (cells (_i2c e)) (cell_of e a) [d] k.
Proof.
  intros He Ha Hc.
  unfold write_int8, cell_of. rewrite He, Hc. cbn [negb Z.eqb EEPROM_NoError].
  destruct (page_block_of (_type e) a) as [pb a'] eqn:P.
  unfold word_width.
  destruct (type_lt (_type e) T24C32) eqn:T.
  - rewrite bus_write_acked by (try exact Ha; discriminate).
    cbn [negb Z.eqb]. rewrite ready_acked by first [exact He | reflexivity].
    unfold word_width. rewrite T, word_address_1.
    cbn [set_i2c _i2c _errnum heap layout cells acks].
    repeat split; try assumption.
  - rewrite bus_write_acked by (try exact Ha; discriminate).
    cbn [negb Z.eqb]. rewrite ready_acked by first [exact He | reflexivity].
    unfold word_width. rewrite T, word_address_2.
    cbn [set_i2c _i2c _errnum heap layout cells acks].
    repeat split; try assumption.
Qed.

(** The byte read, acknowledged: it delivers the content of the cell of
    its address. *)
Lemma read_int8_acked e a x :
  _errnum e = EEPROM_NoError -> acks (_i2c e) = [] ->
  checkAddress e a = true ->
  exists e',
    read_int8 e a x = (e', cells (_i2c e) (cell_of e a)) /\
    _errnum e' = EEPROM_NoError /\ acks (_i2c e') = [] /\
    cursor (_i2c e') = cell_of e a + 1.
Proof.
  intros He Ha Hc.
  unfold read_int8, cell_of. rewrite He, Hc. cbn [negb Z.eqb EEPROM_NoError].
  destruct (page_block_of (_type e) a) as [pb a'] eqn:P.
  change (if type_lt (_type e) T24C32 then 1 else 2)
    with (word_width (_type e)).
  pose proof (word_width_pos (_type e)) as Hw.
  assert (Hf : firstn (Z.to_nat (word_width (_type e)))
                 (word_address (word_width (_type e)) a')
               = word_address (word_width (_type e)) a').
  { apply firstn_all2. rewrite length_word_address. lia. }
  rewrite bus_write_acked.
  2: exact Ha.
  2:{ rewrite Hf. intro E. apply (f_equal (@length byte)) in E.
      rewrite length_word_address in E. cbn in E. lia. }
  cbn [negb Z.eqb]. rewrite !Hf.
  rewrite skipn_all2 by (rewrite length_word_address; lia).
  rewrite bus_read_acked by reflexivity.
  cbn [negb Z.eqb set_i2c _i2c cells cursor layout traffic length acks
       _errnum fetch Z.to_nat Pos.to_nat Pos.iter_op Nat.add hd].
  eexists. split.
  - f_equal. rewrite Z.add_0_r. apply store_nil.
  - split; [exact He|]. split; [reflexivity|].
    cbn [_i2c set_i2c cursor]. change (Z.of_nat 0) with 0. lia.
Qed.

Lemma cell_of_same e e' a :
  config e' = config e -> layout (_i2c e') = layout (_i2c e) ->
  cell_of e' a = cell_of e a.
Proof.
  unfold config, cell_of, device_address, base_address.
  intros C L. inversion C as [[Ht Had Hp Hb Hs]]. rewrite Ht, Had, L.
  reflexivity.
Qed.

(** X10.  A byte written at any in-range address is what the byte read
    at that address returns, on every variant and in every block, and
    the write changes one cell of the chip and no other. *)
Theorem write_int8_then_read_int8 :
  forall (e : EEPROM) (a : Z) (d x : byte),
    getError e = EEPROM_NoError -> acks (_i2c e) = [] ->
    checkAddress e a = true ->
    exists e2 : EEPROM,
      read_int8 (write_int8 e a d) a x = (e2, d) /\
      getError e2 = EEPROM_NoError /\
      forall k, cells (_i2c (write_int8 e a d)) k
                = if k =? cell_of e a then d else cells (_i2c e) k.
Proof.
  intros e a d x He Ha Hc. unfold getError in He.
  destruct (write_int8_acked e a d He Ha Hc) as (He1 & Ha1 & _ & L1 & C1).
  pose proof (config_write_int8 e a d) as G.
  assert (Hc1 : checkAddress (write_int8 e a d) a = true)
    by (rewrite (checkAddress_config _ _ a G); exact Hc).
  destruct (read_int8_acked (write_int8 e a d) a x He1 Ha1 Hc1)
    as (e2 & R & He2 & _).
  exists e2. rewrite R, (cell_of_same _ _ a G L1), C1, store_one, Z.eqb_refl.
  split; [reflexivity|]. split; [exact He2|].
  intro k. rewrite C1. apply store_one.
Qed.

(** ** Scalars and blocks of memory written and read back *)

(** After the paged write of [data] the cells of the span hold [data]. *)
Lemma written_span t fuel e address data length :
  sound t e -> (256 <= fuel)%nat ->
  0 <= address -> 0 < length -> Z.of_nat (List.length data) = length ->
  address + length <= span_limit t ->
  address mod page_size t + length <= 255 * page_size t ->
  page_size t <= 128 \/ length <= 255 ->
  exists e1 : EEPROM,
    write_array fuel e address data length = Some e1 /\
    sound t e1 /\
    fetch (cells (_i2c e1)) address (Z.to_nat length) = data /\
    forall k, ~ (address <= k < address + length) ->
      cells (_i2c e1) k = cells (_i2c e) k.
Proof.
  intros S Hfuel Ha Hlen Hdata Hspan Hpages Hsmall.
  destruct (write_array_in_first_block t fuel e address data length
              S Hfuel Ha Hlen Hspan Hpages Hsmall)
    as (e1 & Hw & S1 & _ & Hcells).
  exists e1. split; [exact Hw|]. split; [exact S1|]. split.
  - apply list_eq_peek.
    + rewrite length_fetch. lia.
    + intros k Hk. rewrite length_fetch in Hk.
      rewrite peek_fetch by lia. rewrite Hcells.
      destruct (Z.leb_spec address (address + k));
        destruct (Z.ltb_spec (address + k) (address + length));
        cbn [andb]; try lia. f_equal. lia.
  - intros k Hk. rewrite Hcells.
    destruct (Z.leb_spec address k);
      destruct (Z.ltb_spec k (address + length)); cbn [andb];
      try reflexivity; lia.
Qed.

Lemma span_in_range t e a n :
  sound t e -> 0 <= a -> 0 < n -> a + n <= span_limit t ->
  0 <= a < first_block_size t /\
  checkAddress e a = true /\ checkAddress e (u32 (a + n - 1)) = true.
Proof.
  intros (Ht & _) Ha Hn Hs.
  assert (Hcap : span_limit t <= effective_capacity t /\
                 span_limit t <= first_block_size t)
    by (unfold span_limit; lia).
  pose proof (span_limit_bound t) as Hlim.
  split; [lia|]. unfold checkAddress. rewrite Ht, u32_small by lia.
  split; apply checkAddress_type_accepts; lia.
Qed.

Lemma small_span_pages t a n :
  0 <= a -> 0 < n <= 255 ->
  a mod page_size t + n <= 255 * page_size t /\
  (page_size t <= 128 \/ n <= 255).
Proof.
  intros Ha Hn. pose proof (page_size_bound t) as Hp.
  pose proof (Z.mod_pos_bound a (page_size t) ltac:(lia)) as Hm.
  split; [nia | right; lia].
Qed.

(** X11.  A short written at an address whose two bytes lie in the
    in-range part of block 0 is what the read of a short at that address
    returns, with no fault recorded and no cell outside the two changed. *)
Theorem write_int16_then_read_int16 :
  forall (t : TypeEeprom) (fuel : nat) (e : EEPROM) (a : Z) (d x : bytes2),
    sound t e -> (256 <= fuel)%nat -> 0 <= a -> a + 2 <= span_limit t ->
    exists e1 e2 : EEPROM,
      write_int16 fuel e a d = Some e1 /\
      read_int16 e1 a x = (e2, d) /\
      getError e2 = EEPROM_NoError /\
      forall k, ~ (a <= k < a + 2) -> cells (_i2c e2) k = cells (_i2c e) k.
Proof.
  intros t fuel e a d x S Hfuel Ha Hs.
  destruct (small_span_pages t a 2 Ha ltac:(lia)) as [Hp1 Hp2].
  destruct (written_span t fuel e a (list_of_bytes2 d) 2 S Hfuel Ha
              ltac:(lia) ltac:(destruct d; reflexivity) Hs Hp1 Hp2)
    as (e1 & Hw & S1 & Hf & Hk).
  destruct (span_in_range t e a 2 S Ha ltac:(lia) Hs) as (_ & _ & Hc).
  destruct (span_in_range t e1 a 2 S1 Ha ltac:(lia) Hs) as (Hb1 & Hc1 & Hc2).
  destruct (read_array_first_block t e1 a (fresh 2) 2 S1 Hb1 ltac:(lia)
              Hc1 Hc2) as (e2 & Hr & St).
  exists e1, e2. unfold write_int16, read_int16.
  replace (a + 1) with (a + 2 - 1) by lia.
  pose proof S as (_ & _ & He & _). pose proof S1 as (_ & _ & He1 & _).
  rewrite He, He1, Hc, Hc2. cbn [negb Z.eqb EEPROM_NoError].
  split; [exact Hw|]. rewrite Hr, Hf.
  destruct St as (_ & _ & _ & He2 & _ & _ & _ & Hc3).
  split; [destruct d; reflexivity|].
  split; [unfold getError; congruence|].
  intros k Hout. rewrite Hc3. apply Hk. exact Hout.
Qed.

(** X12.  A long or a float written at an address whose four bytes lie
    in the in-range part of block 0 is what the read of a long or of a
    float at that address returns, with no fault recorded and no cell
    outside the four changed. *)
Theorem write_int32_then_read_int32 :
  forall (t : TypeEeprom) (fuel : nat) (e : EEPROM) (a : Z) (d x : bytes4),
    sound t e -> (256 <= fuel)%nat -> 0 <= a -> a + 4 <= span_limit t ->
    exists e1 e2 : EEPROM,
      write_int32 fuel e a d = Some e1 /\
      write_float fuel e a d = Some e1 /\
      read_int32 e1 a x = (e2, d) /\
      read_float e1 a x = (e2, d) /\
      getError e2 = EEPROM_NoError /\
      forall k, ~ (a <= k < a + 4) -> cells (_i2c e2) k = cells (_i2c e) k.
Proof.
  intros t fuel e a d x S Hfuel Ha Hs.
  destruct (small_span_pages t a 4 Ha ltac:(lia)) as [Hp1 Hp2].
  destruct (written_span t fuel e a (list_of_bytes4 d) 4 S Hfuel Ha
              ltac:(lia) ltac:(destruct d as [[[? ?] ?] ?]; reflexivity)
              Hs Hp1 Hp2)
    as (e1 & Hw & S1 & Hf & Hk).
  destruct (span_in_range t e a 4 S Ha ltac:(lia) Hs) as (_ & _ & Hc).
  destruct (span_in_range t e1 a 4 S1 Ha ltac:(lia) Hs) as (Hb1 & Hc1 & Hc2).
  destruct (read_array_first_block t e1 a (fresh 4) 4 S1 Hb1 ltac:(lia)
              Hc1 Hc2) as (e2 & Hr & St).
  exists e1, e2. unfold write_int32, write_float, read_int32, read_float.
  replace (a + 3) with (a + 4 - 1) by lia.
  pose proof S as (_ & _ & He & _). pose proof S1 as (_ & _ & He1 & _).
  rewrite He, He1, Hc, Hc2. cbn [negb Z.eqb EEPROM_NoError].
  split; [exact Hw|]. split; [exact Hw|]. rewrite Hr, Hf.
  destruct St as (_ & _ & _ & He2 & _ & _ & _ & Hc3).
  split; [destruct d as [[[? ?] ?] ?]; reflexivity|].
  split; [destruct d as [[[? ?] ?] ?]; reflexivity|].
  split; [unfold getError; congruence|].
  intros k Hout. rewrite Hc3. apply Hk. exact Hout.
Qed.

(** X13.  A block of memory written through the [void*] overload on the
    sound domain is what the [void*] read of the same span returns; both
    go through a block from the allocator and neither records a fault. *)
Theorem write_any_then_read_any :
  forall (t : TypeEeprom) (fuel : nat) (e : EEPROM) (a : Z)
         (data buffer : list byte) (size : Z),
    sound t e -> (256 <= fuel)%nat ->
    0 <= a -> 0 < size -> Z.of_nat (List.length data) = size ->
    a + size <= span_limit t ->
    a mod page_size t + size <= 255 * page_size t ->
    page_size t <= 128 \/ size <= 255 ->
    exists e1 e2 : EEPROM,
      write_any fuel e a data size = Some e1 /\
      read_any e1 a buffer size
      = (e2, data ++ skipn (Z.to_nat size) buffer) /\
      getError e2 = EEPROM_NoError /\
      forall k, ~ (a <= k < a + size) -> cells (_i2c e2) k = cells (_i2c e) k.
Proof.
  intros t fuel e a data buffer size S Hfuel Ha Hn Hdata Hs Hp1 Hp2.
  destruct (written_span t fuel e a data size S Hfuel Ha Hn Hdata Hs Hp1 Hp2)
    as (e1 & Hw & S1 & Hf & Hk).
  destruct (span_in_range t e a size S Ha Hn Hs) as (_ & _ & Hc).
  destruct (span_in_range t e1 a size S1 Ha Hn Hs) as (Hb1 & Hc1 & Hc2).
  destruct (read_any_first_block t e1 a buffer size S1 Hb1 ltac:(lia)
              Hc1 Hc2) as (e2 & Hr & St).
  exists e1, e2. unfold write_any.
  pose proof S as (_ & _ & He & _ & Hh).
  rewrite He, Hc. cbn [negb Z.eqb EEPROM_NoError].
  rewrite malloc_calm by exact Hh.
  assert (Hov : overlay (firstn (Z.to_nat size) data) (fresh size) = data).
  { unfold overlay. rewrite firstn_all2 by lia.
    rewrite skipn_all2 by (rewrite length_fresh; lia). apply app_nil_r. }
  rewrite Hov. split; [exact Hw|]. rewrite Hr, Hf.
  destruct St as (_ & _ & _ & He2 & _ & _ & _ & Hc3).
  split.
  { unfold overlay.
    replace (List.length data) with (Z.to_nat size) by lia. reflexivity. }
  split; [unfold getError; rewrite He2; apply S1|].
  intros k Hout. rewrite Hc3. apply Hk. exact Hout.
Qed.

(** ** A transfer the chip does not acknowledge *)

Lemma bus_write_refused e addr cmd len rep ack rest :
  acks (_i2c e) = ack :: rest -> ack <> 0 ->
  bus_write e addr cmd len rep =
  (set_i2c e
     (mkI2C (layout (_i2c e)) (cells (_i2c e)) (cursor (_i2c e)) rest
            (BusWrite addr (firstn (Z.to_nat len) cmd) rep
             :: traffic (_i2c e))),
   ack).
Proof.
  intros Ha Hn. unfold bus_write, i2c_write, pop_ack. rewrite Ha.
  destruct (Z.eqb_spec ack 0); [contradiction|]. reflexivity.
Qed.

Lemma read_array_refused e a d n ack rest :
  _errnum e = EEPROM_NoError -> acks (_i2c e) = ack :: rest -> ack <> 0 ->
  checkAddress e a = true -> checkAddress e (u32 (a + n - 1)) = true ->
  exists e',
    read_array e a d n = (e', d) /\ _errnum e' = EEPROM_I2cError /\
    heap e' = heap e.
Proof.
  intros He Ha Hn Hc1 Hc2. unfold read_array.
  rewrite He, Hc1, Hc2. cbn [negb Z.eqb EEPROM_NoError].
  destruct (page_block_of (_type e) a) as [pb a'].
  rewrite (bus_write_refused _ _ _ _ _ ack rest Ha Hn).
  destruct (Z.eqb_spec ack 0); [contradiction|]. cbn [negb].
  eexists. split; [reflexivity|]. split; reflexivity.
Qed.

(** X14.  When the chip does not acknowledge the address, the byte read
    and the array read record I2cError and leave the destination as it
    was. *)
Theorem refused_read_keeps_destination :
  forall (e : EEPROM) (a n : Z) (x : byte) (buffer : list byte)
         (ack : Z) (rest : list Z),
    getError e = EEPROM_NoError ->
    acks (_i2c e) = ack :: rest -> ack <> 0 ->
    checkAddress e a = true -> checkAddress e (u32 (a + n - 1)) = true ->
    snd (read_int8 e a x) = x /\
    getError (fst (read_int8 e a x)) = EEPROM_I2cError /\
    snd (read_array e a buffer n) = buffer /\
    getError (fst (read_array e a buffer n)) = EEPROM_I2cError.
Proof.
  intros e a n x buffer ack rest He Ha Hn Hc1 Hc2. unfold getError in He.
  destruct (read_array_refused e a buffer n ack rest He Ha Hn Hc1 Hc2)
    as (e' & R & E & _).
  rewrite R. cbn [fst snd]. unfold read_int8.
  rewrite He, Hc1. cbn [negb Z.eqb EEPROM_NoError].
  destruct (page_block_of (_type e) a) as [pb a'].
  rewrite (bus_write_refused _ _ _ _ _ ack rest Ha Hn).
  destruct (Z.eqb_spec ack 0); [contradiction|]. cbn [negb fst snd].
  repeat split; try reflexivity. exact E.
Qed.

(** X15.  When the chip does not acknowledge the address, the reads of a
    short, a long, a float and a block of memory record I2cError and
    still copy their local buffer, which was never filled, into the
    destination: its earlier content is lost and what it holds is
    indeterminate. *)
Theorem refused_scalar_read_overwrites_destination :
  forall (e : EEPROM) (a n : Z) (x2 : bytes2) (x4 : bytes4)
         (buffer : list byte) (ack : Z) (rest : list Z),
    getError e = EEPROM_NoError -> heap e = [] ->
    acks (_i2c e) = ack :: rest -> ack <> 0 ->
    checkAddress e a = true ->
    checkAddress e (u32 (a + 1)) = true ->
    checkAddress e (u32 (a + 3)) = true ->
    checkAddress e (u32 (a + n - 1)) = true ->
    snd (read_int16 e a x2) = (indeterminate 0, indeterminate 1) /\
    getError (fst (read_int16 e a x2)) = EEPROM_I2cError /\
    snd (read_int32 e a x4)
    = (indeterminate 0, indeterminate 1, indeterminate 2, indeterminate 3) /\
    getError (fst (read_int32 e a x4)) = EEPROM_I2cError /\
    snd (read_float e a x4)
    = (indeterminate 0, indeterminate 1, indeterminate 2, indeterminate 3) /\
    getError (fst (read_float e a x4)) = EEPROM_I2cError /\
    snd (read_any e a buffer n) = overlay (fresh n) buffer /\
    getError (fst (read_any e a buffer n)) = EEPROM_I2cError.
Proof.
  intros e a n x2 x4 buffer ack rest He Hh Ha Hn Hc0 Hc1 Hc3 Hcn.
  unfold getError in He.
  assert (H2 : checkAddress e (u32 (a + 2 - 1)) = true)
    by (replace (a + 2 - 1) with (a + 1) by lia; exact Hc1).
  assert (H4 : checkAddress e (u32 (a + 4 - 1)) = true)
    by (replace (a + 4 - 1) with (a + 3) by lia; exact Hc3).
  destruct (read_array_refused e a (fresh 2) 2 ack rest He Ha Hn Hc0 H2)
    as (e2 & R2 & E2 & _).
  destruct (read_array_refused e a (fresh 4) 4 ack rest He Ha Hn Hc0 H4)
    as (e4 & R4 & E4 & _).
  destruct (read_array_refused e a (fresh n) n ack rest He Ha Hn Hc0 Hcn)
    as (en & Rn & En & _).
  unfold read_int16, read_int32, read_float, read_any.
  rewrite He, Hc1, Hc3, Hcn. cbn [negb Z.eqb EEPROM_NoError].
  rewrite malloc_calm by exact Hh.
  rewrite R2, R4, Rn. cbn [fst snd]. unfold getError.
  repeat split; try assumption.
  f_equal. apply firstn_all2. rewrite length_fresh. lia.
Qed.

(** ** The poll *)

Lemma repeat_shift {A : Type} (x : A) (k : nat) (t : list A) :
  repeat x k ++ x :: t = x :: repeat x k ++ t.
Proof.
  induction k as [|k IH]; [reflexivity|].
  cbn [repeat app]. rewrite IH. reflexivity.
Qed.

Lemma ready_loop_polls n :
  forall e addr,
    n = length (acks (_i2c e)) ->
    let polls := S (refusals (acks (_i2c e))) in
    traffic (_i2c (ready_loop n e addr))
    = repeat (BusWrite addr [] false) polls ++ traffic (_i2c e) /\
    acks (_i2c (ready_loop n e addr)) = skipn polls (acks (_i2c e)) /\
    _errnum (ready_loop n e addr) = _errnum e /\
    cursor (_i2c (ready_loop n e addr)) = cursor (_i2c e).
Proof.
  induction n as [|n IH]; intros e addr Hn polls; subst polls;
    cbn [ready_loop]; unfold bus_write, i2c_write, pop_ack;
    destruct (acks (_i2c e)) as [|a rest] eqn:Ha; try discriminate.
  - cbn. auto.
  - cbn [refusals]. change (firstn (Z.to_nat 0) [x00]) with (@nil byte).
    destruct (negb (a =? 0)) eqn:E; cbv iota beta; rewrite ?E; cbv iota.
    + match goal with
      | |- context [ready_loop n ?x addr] =>
          destruct (IH x addr) as (T & A & R & C);
            [cbn; injection Hn as ->; reflexivity|]
      end.
      rewrite T, A, R, C. cbn [set_i2c _i2c traffic acks _errnum cursor].
      repeat split; try reflexivity.
      rewrite repeat_shift. reflexivity.
    + cbn. auto.
Qed.

(** X16.  ready polls the chip with empty write transactions until one
    is acknowledged: it issues one poll more than the chip refuses, never
    gives up, and records no fault however often it is refused. *)
Theorem ready_polls_until_acknowledged :
  forall e : EEPROM,
    getError e = EEPROM_NoError ->
    let polls := S (refusals (acks (_i2c e))) in
    traffic (_i2c (ready e))
    = repeat (BusWrite (base_address e) [] false) polls ++ traffic (_i2c e) /\
    acks (_i2c (ready e)) = skipn polls (acks (_i2c e)) /\
    getError (ready e) = EEPROM_NoError /\
    forall k, cells (_i2c (ready e)) k = cells (_i2c e) k.
Proof.
  intros e He polls. unfold getError in *. unfold ready. rewrite He.
  cbn [negb Z.eqb EEPROM_NoError].
  destruct (ready_loop_polls (length (acks (_i2c e))) e (base_address e)
              eq_refl) as (T & A & R & _).
  split; [exact T|]. split; [exact A|]. split; [congruence|].
  apply ready_loop_same_content.
Qed.

(** ** Resolution of distinct addresses *)

(** X17.  Two in-range logical addresses that resolve to the same block
    and the same in-block address are the same address: the resolution
    never folds two bytes of the address space onto one. *)
Theorem page_block_of_injective :
  forall (t : TypeEeprom) (a b : Z),
    0 <= a -> 0 <= b ->
    checkAddress_type t a = true -> checkAddress_type t b = true ->
    page_block_of t a = page_block_of t b -> a = b.
Proof.
  intros t a b Ha Hb Hca Hcb.
  rewrite (proj1 (page_block_in_range t a Ha Hca)).
  rewrite (proj1 (page_block_in_range t b Hb Hcb)).
  pose proof (Z.div_mod a 255 ltac:(lia)) as A1.
  pose proof (Z.div_mod b 255 ltac:(lia)) as B1.
  pose proof (Z.div_mod a 65535 ltac:(lia)) as A2.
  pose proof (Z.div_mod b 65535 ltac:(lia)) as B2.
  destruct t; cbn [resolve_by_family]; intro E; inversion E; lia.
Qed.

(** ** A write of 256 pages *)

(** X18.  The count of pages is a [uint8_t]: a write of exactly 256 pages
    from the start of a page counts 0 pages, raised to 1 where the 16-bit
    remainder is not 0.  It returns without a fault and has written the
    first page at most: every cell beyond it is as it was. *)
Theorem write_of_256_pages_writes_one_page_at_most :
  forall (t : TypeEeprom) (fuel : nat) (e : EEPROM) (a : Z)
         (data : list byte),
    sound t e -> (256 <= fuel)%nat ->
    0 <= a < span_limit t -> a mod page_size t = 0 ->
    a + 256 * page_size t <= effective_capacity t ->
    exists e' : EEPROM,
      write_array fuel e a data (256 * page_size t) = Some e' /\
      getError e' = EEPROM_NoError /\
      forall k, ~ (a <= k < a + page_size t) ->
        cells (_i2c e') k = cells (_i2c e) k.
Proof.
  intros t fuel e a data S Hfuel Ha Hal Hfit.
  pose proof S as (Ht & Hp & He & Hacks & Hh).
  pose proof (page_size_bound t) as Hpw.
  assert (Hcap : effective_capacity t <= 262144)
    by (destruct t; vm_compute; discriminate).
  unfold write_array. rewrite He. cbn [negb Z.eqb EEPROM_NoError].
  unfold checkAddress. rewrite Ht.
  rewrite (proj2 (checkAddress_type_accepts t a)) by lia.
  rewrite (u32_small (a + 256 * page_size t - 1)) by lia.
  rewrite (proj2 (checkAddress_type_accepts t (a + 256 * page_size t - 1)))
    by lia.
  cbn [negb]. rewrite Hp, Hal.
  assert (Hb :
    (if negb (u16 (u32 (256 * page_size t + 0)
                   - u8 (u32 (256 * page_size t + 0) / page_size t)
                     * page_size t) =? 0)
     then u8 (u8 (u32 (256 * page_size t + 0) / page_size t) + 1)
     else u8 (u32 (256 * page_size t + 0) / page_size t))
    = if page_size t =? 256 then 0 else 1).
  { clear - Hfit. revert Hfit.
    destruct t; variant_constants; intro Hfit; try lia; reflexivity. }
  rewrite Hb. clear Hb.
  destruct (Z.eqb_spec (page_size t) 256) as [E|E].
  - change (Z.to_nat 0) with 0%nat. cbn [write_pages].
    exists e. repeat split; try assumption; reflexivity.
  - change (Z.to_nat 1) with 1%nat.
    assert (Hps : page_size t <= 128) by (destruct t; cbn in *; lia).
    destruct (write_pages_step t fuel 0 e a a data (256 * page_size t) 0
                (s32 (256 * page_size t)) (fresh (MAX_PAGE_SIZE + 2)) S Hfuel)
      as (e' & cmd' & Hw & S' & _ & _ & _ & Hc).
    + rewrite length_fresh. reflexivity.
    + exact Ha.
    + lia.
    + rewrite s32_small by lia. lia.
    + rewrite Hal, s32_small by lia. lia.
    + rewrite Hw. cbn [write_pages]. exists e'. split; [reflexivity|].
      split; [apply S'|].
      intros k Hk. rewrite Hc, Hal, s32_small by lia.
      rewrite Z.min_l by lia.
      destruct (Z.leb_spec a k); destruct (Z.ltb_spec k (a + (page_size t - 0)));
        cbn [andb]; try reflexivity; lia.
Qed.

(** ** The name *)

Lemma type_config e e' : config e' = config e -> _type e' = _type e.
Proof. unfold config. intro C. inversion C. reflexivity. Qed.

(** X19.  getName stays inside the table of names, gives every variant
    a name that no other variant has, and, like the size, is fixed by
    the constructor: no sequence of operations changes it. *)
Theorem getName_identifies_the_variant :
  forall (fuel : nat) (cs : list Call) (bus : I2C) (chip_select : Z)
         (t : TypeEeprom) (e' : EEPROM),
    run_all fuel cs (EEPROM_new bus chip_select t) = Some e' ->
    exists s : String.string,
      getName e' = Some s /\
      forall (bus' : I2C) (chip_select' : Z) (t' : TypeEeprom),
        getName (EEPROM_new bus' chip_select' t') = Some s -> t' = t.
Proof.
  intros fuel cs bus chip_select t e' H.
  apply config_run_all, type_config in H.
  unfold getName. rewrite H, EEPROM_new_type.
  destruct t; eexists; (split; [reflexivity|]);
    intros bus' cs' t'; rewrite EEPROM_new_type;
    destruct t'; cbn; intro E; try reflexivity; discriminate.
Qed.

(** ** The faults an operation records *)

Lemma recorded_refl e : recorded e e.
Proof. left. reflexivity. Qed.

Lemma recorded_trans e1 e2 e3 :
  recorded e1 e2 -> recorded e2 e3 -> recorded e1 e3.
Proof. unfold recorded. intros H1 H2. intuition congruence. Qed.

Lemma recorded_same e e' : _errnum e' = _errnum e -> recorded e e'.
Proof. intro H. left. exact H. Qed.

Lemma recorded_I2cError e e' : recorded e (set_errnum e' EEPROM_I2cError).
Proof. right. left. reflexivity. Qed.

Lemma recorded_OutOfRange e e' : recorded e (set_errnum e' EEPROM_OutOfRange).
Proof. right. right. left. reflexivity. Qed.

Lemma recorded_MallocError e e' :
  recorded e (set_errnum e' EEPROM_MallocError).
Proof. right. right. right. reflexivity. Qed.

Lemma errnum_bus_write e addr cmd len rep e' ack :
  bus_write e addr cmd len rep = (e', ack) -> _errnum e' = _errnum e.
Proof.
  unfold bus_write. destruct (i2c_write _ _ _ _ _ _ _).
  intro H; inversion H; subst. reflexivity.
Qed.

Lemma errnum_bus_read e addr len e' ack got :
  bus_read e addr len = (e', ack, got) -> _errnum e' = _errnum e.
Proof.
  unfold bus_read. destruct (i2c_read _ _ _) as [[? ?] ?].
  intro H; inversion H; subst. reflexivity.
Qed.

Lemma errnum_malloc e n e' r : malloc e n = (e', r) -> _errnum e' = _errnum e.
Proof.
  unfold malloc. destruct (heap e) as [|[|] rest];
    intro H; inversion H; subst; reflexivity.
Qed.

Lemma errnum_ready_loop n :
  forall e addr, _errnum (ready_loop n e addr) = _errnum e.
Proof.
  induction n as [|n IH]; intros e addr; cbn [ready_loop];
    destruct (bus_write e addr [x00] 0 false) as [e1 ack] eqn:E;
    apply errnum_bus_write in E.
  - exact E.
  - destruct (negb (ack =? 0)); [rewrite IH|]; exact E.
Qed.

Lemma recorded_ready e : recorded e (ready e).
Proof.
  unfold ready. destruct (negb (_errnum e =? 0)); [apply recorded_refl|].
  apply recorded_same, errnum_ready_loop.
Qed.

Lemma recorded_write_int8 e a d : recorded e (write_int8 e a d).
Proof.
  unfold write_int8.
  destruct (negb (_errnum e =? 0)); [apply recorded_refl|].
  destruct (negb (checkAddress e a)); [apply recorded_OutOfRange|].
  destruct (page_block_of (_type e) a) as [pb a'].
  destruct (if type_lt (_type e) T24C32 then _ else _) as [len cmd].
  destruct (bus_write _ _ _ _ _) as [e1 ack] eqn:E1.
  apply errnum_bus_write in E1.
  destruct (negb (ack =? 0)); [apply recorded_I2cError|].
  eapply recorded_trans; [apply recorded_same; exact E1|apply recorded_ready].
Qed.

Lemma recorded_read_array e a d n : recorded e (fst (read_array e a d n)).
Proof.
  unfold read_array.
  destruct (negb (_errnum e =? 0)); [apply recorded_refl|].
  destruct (negb (checkAddress e a)); [apply recorded_OutOfRange|].
  destruct (negb (checkAddress e _)); [apply recorded_OutOfRange|].
  destruct (page_block_of (_type e) a) as [pb a'].
  destruct (bus_write _ _ _ _ _) as [e1 ack] eqn:E1.
  apply errnum_bus_write in E1.
  destruct (negb (ack =? 0)); [apply recorded_I2cError|].
  destruct (bus_read _ _ _) as [[e2 ack2] got] eqn:E2.
  apply errnum_bus_read in E2.
  destruct (negb (ack2 =? 0)); [apply recorded_I2cError|].
  apply recorded_same. cbn [fst]. congruence.
Qed.

Lemma recorded_read_int8 e a d : recorded e (fst (read_int8 e a d)).
Proof.
  unfold read_int8.
  destruct (negb (_errnum e =? 0)); [apply recorded_refl|].
  destruct (negb (checkAddress e a)); [apply recorded_OutOfRange|].
  destruct (page_block_of (_type e) a) as [pb a'].
  destruct (bus_write _ _ _ _ _) as [e1 ack] eqn:E1.
  apply errnum_bus_write in E1.
  destruct (negb (ack =? 0)); [apply recorded_I2cError|].
  destruct (bus_read _ _ _) as [[e2 ack2] got] eqn:E2.
  apply errnum_bus_read in E2.
  destruct (negb (ack2 =? 0)); [apply recorded_I2cError|].
  apply recorded_same. cbn [fst]. congruence.
Qed.

Lemma recorded_read_current e d : recorded e (fst (read_current e d)).
Proof.
  unfold read_current.
  destruct (negb (_errnum e =? 0)); [apply recorded_refl|].
  destruct (bus_read _ _ _) as [[e2 ack2] got] eqn:E2.
  apply errnum_bus_read in E2.
  destruct (negb (ack2 =? 0)); [apply recorded_I2cError|].
  apply recorded_same. exact E2.
Qed.

Lemma recorded_read_any e a d n : recorded e (fst (read_any e a d n)).
Proof.
  unfold read_any.
  destruct (negb (_errnum e =? 0)); [apply recorded_refl|].
  destruct (negb (checkAddress e _)); [apply recorded_OutOfRange|].
  destruct (malloc e n) as [e1 [cmd|]] eqn:M; apply errnum_malloc in M.
  - pose proof (recorded_read_array e1 a cmd n) as R.
    destruct (read_array e1 a cmd n) as [e2 c2].
    eapply recorded_trans; [apply recorded_same; exact M|exact R].
  - apply recorded_MallocError.
Qed.

Lemma recorded_read_int16 e a d : recorded e (fst (read_int16 e a d)).
Proof.
  unfold read_int16.
  destruct (negb (_errnum e =? 0)); [apply recorded_refl|].
  destruct (negb (checkAddress e _)); [apply recorded_OutOfRange|].
  pose proof (recorded_read_array e a (fresh 2) 2) as R.
  destruct (read_array e a (fresh 2) 2) as [e2 c2]. exact R.
Qed.

Lemma recorded_read_int32 e a d : recorded e (fst (read_int32 e a d)).
Proof.
  unfold read_int32.
  destruct (negb (_errnum e =? 0)); [apply recorded_refl|].
  destruct (negb (checkAddress e _)); [apply recorded_OutOfRange|].
  pose proof (recorded_read_array e a (fresh 4) 4) as R.
  destruct (read_array e a (fresh 4) 4) as [e2 c2]. exact R.
Qed.

Lemma recorded_write_pages fuel blocs :
  forall e address start data length wc btw cmd e',
    write_pages fuel blocs e address start data length wc btw cmd = Some e' ->
    recorded e e'.
Proof.
  induction blocs as [|blocs IH];
    intros e address start data length wc btw cmd e';
    cbn [write_pages]; intro H.
  - inversion H; subst. apply recorded_refl.
  - destruct (page_block_of (_type e) address) as [pb a].
    match type of H with
    | context [let '(_, _) := ?p in _] => destruct p as [e1 cmd1] eqn:E1
    end.
    assert (R1 : recorded e e1).
    { destruct (_ || _) in E1.
      - match type of E1 with
        | context [read_any ?x ?y ?z ?w] =>
            pose proof (recorded_read_any x y z w) as R1;
            destruct (read_any x y z w) as [e2 pg]
        end.
        inversion E1; subst. exact R1.
      - inversion E1; subst. apply recorded_refl. }
    destruct (splice _ _ _ _ _ _ _ _ _) as [cmd2|]; [|discriminate].
    destruct (bus_write _ _ _ _ _) as [e3 ack] eqn:E3.
    apply errnum_bus_write in E3.
    destruct (negb (ack =? 0)).
    + inversion H; subst. apply recorded_I2cError.
    + apply IH in H.
      eapply recorded_trans; [exact R1|].
      eapply recorded_trans; [apply recorded_same; exact E3|].
      eapply recorded_trans; [apply recorded_ready|exact H].
Qed.

Lemma recorded_write_array fuel e a d n e' :
  write_array fuel e a d n = Some e' -> recorded e e'.
Proof.
  unfold write_array.
  destruct (negb (_errnum e =? 0));
    [intro H; inversion H; subst; apply recorded_refl|].
  destruct (negb (checkAddress e a));
    [intro H; inversion H; subst; apply recorded_OutOfRange|].
  destruct (negb (checkAddress e _));
    [intro H; inversion H; subst; apply recorded_OutOfRange|].
  apply recorded_write_pages.
Qed.

Lemma recorded_write_int16 fuel e a d e' :
  write_int16 fuel e a d = Some e' -> recorded e e'.
Proof.
  unfold write_int16.
  destruct (negb (_errnum e =? 0));
    [intro H; inversion H; subst; apply recorded_refl|].
  destruct (negb (checkAddress e _));
    [intro H; inversion H; subst; apply recorded_OutOfRange|].
  apply recorded_write_array.
Qed.

Lemma recorded_write_int32 fuel e a d e' :
  write_int32 fuel e a d = Some e' -> recorded e e'.
Proof.
  unfold write_int32.
  destruct (negb (_errnum e =? 0));
    [intro H; inversion H; subst; apply recorded_refl|].
  destruct (negb (checkAddress e _));
    [intro H; inversion H; subst; apply recorded_OutOfRange|].
  apply recorded_write_array.
Qed.

Lemma recorded_write_any fuel e a d n e' :
  write_any fuel e a d n = Some e' -> recorded e e'.
Proof.
  unfold write_any.
  destruct (negb (_errnum e =? 0));
    [intro H; inversion H; subst; apply recorded_refl|].
  destruct (negb (checkAddress e _));
    [intro H; inversion H; subst; apply recorded_OutOfRange|].
  destruct (malloc e n) as [e1 [cmd|]] eqn:M; apply errnum_malloc in M.
  - intro H. apply recorded_write_array in H.
    eapply recorded_trans; [apply recorded_same; exact M|exact H].
  - intro H; inversion H; subst. apply recorded_MallocError.
Qed.

Lemma recorded_clear_loop fuel rounds :
  forall i e e', clear_loop fuel rounds i e = Some e' -> recorded e e'.
Proof.
  induction rounds as [|rounds IH]; intros i e e'; cbn [clear_loop]; intro H.
  - inversion H; subst. apply recorded_refl.
  - destruct (write_int32 _ _ _ _) as [e1|] eqn:E; [|discriminate].
    apply recorded_write_int32 in E. apply IH in H.
    eapply recorded_trans; eassumption.
Qed.

Lemma recorded_run fuel c e e' out :
  run fuel c e = Some (e', out) -> recorded e e'.
Proof.
  destruct c; cbn [run]; unfold written; intro H.
  - inversion H; subst. apply recorded_write_int8.
  - destruct (write_array _ _ _ _ _) eqn:E; inversion H; subst.
    eapply recorded_write_array; eassumption.
  - destruct (write_int16 _ _ _ _) eqn:E; inversion H; subst.
    eapply recorded_write_int16; eassumption.
  - destruct (write_int32 _ _ _ _) eqn:E; inversion H; subst.
    eapply recorded_write_int32; eassumption.
  - destruct (write_float _ _ _ _) eqn:E; inversion H; subst.
    eapply recorded_write_int32; eassumption.
  - destruct (write_any _ _ _ _ _) eqn:E; inversion H; subst.
    eapply recorded_write_any; eassumption.
  - pose proof (recorded_read_int8 e address data) as C.
    destruct (read_int8 e address data). inversion H; subst. exact C.
  - pose proof (recorded_read_array e address data size) as C.
    inversion H as [R]. rewrite R in C. exact C.
  - pose proof (recorded_read_current e data) as C.
    destruct (read_current e data). inversion H; subst. exact C.
  - pose proof (recorded_read_int16 e address data) as C.
    destruct (read_int16 e address data). inversion H; subst. exact C.
  - pose proof (recorded_read_int32 e address data) as C.
    destruct (read_int32 e address data). inversion H; subst. exact C.
  - pose proof (recorded_read_int32 e address data) as C.
    change (read_int32 e address data) with (read_float e address data) in C.
    destruct (read_float e address data). inversion H; subst. exact C.
  - pose proof (recorded_read_any e address data size) as C.
    inversion H as [R]. rewrite R in C. exact C.
  - destruct (clear _ _) eqn:E; inversion H; subst.
    eapply recorded_clear_loop; eassumption.
  - inversion H; subst. apply recorded_ready.
Qed.

Lemma recorded_run_all fuel cs :
  forall e e', run_all fuel cs e = Some e' -> recorded e e'.
Proof.
  induction cs as [|c cs IH]; intros e e'; cbn [run_all]; intro H.
  - inversion H; subst. apply recorded_refl.
  - destruct (run fuel c e) as [[e1 out]|] eqn:E; [|discriminate].
    apply recorded_run in E. apply IH in H.
    eapply recorded_trans; eassumption.
Qed.

(** X20.  Whatever the bus and the allocator do, the only error codes a
    sequence of operations can leave are the one it found, I2cError,
    OutOfRange and MallocError: BadAddress comes from the constructor
    alone and ParamError is never recorded. *)
Theorem operations_record_three_faults_only :
  forall (fuel : nat) (cs : list Call) (e e' : EEPROM),
    run_all fuel cs e = Some e' ->
    getError e' = getError e \/ getError e' = EEPROM_I2cError \/
    getError e' = EEPROM_OutOfRange \/ getError e' = EEPROM_MallocError.
Proof. intros fuel cs e e' H. exact (recorded_run_all fuel cs e e' H). Qed.

(** ** A partial page when the allocation fails *)



(** ** The read at the current address *)

(** X22.  The read at the current address continues where the last read
    stopped: after the byte read at an address it delivers the content
    of the next cell of the chip, and records no fault. *)
Theorem read_current_follows_read_int8 :
  forall (e : EEPROM) (a : Z) (x y : byte),
    getError e = EEPROM_NoError -> acks (_i2c e) = [] ->
    checkAddress e a = true ->
    exists e1 e2 : EEPROM,
      read_int8 e a x = (e1, cells (_i2c e) (cell_of e a)) /\
      read_current e1 y = (e2, cells (_i2c e) (cell_of e a + 1)) /\
      getError e2 = EEPROM_NoError.
Proof.
  intros e a x y He Ha Hc. unfold getError in He.
  destruct (read_int8_acked e a x He Ha Hc) as (e1 & R & He1 & Ha1 & Hcur).
  pose proof (read_int8_same_content e a x) as [_ Hcells].
  rewrite R in Hcells. cbn [fst] in Hcells.
  exists e1. unfold read_current. rewrite He1.
  cbn [negb Z.eqb EEPROM_NoError].
  rewrite bus_read_acked by exact Ha1. cbn [negb Z.eqb].
  eexists. split; [exact R|]. split.
  - f_equal. change (Z.to_nat 1) with 1%nat. cbn [fetch hd].
    rewrite Hcur. apply Hcells.
  - exact He1.
Qed.

(** ** The size and the bounds check *)

(** X23.  On every variant but M24M02 the addresses the bounds check
    accepts are exactly those below getSize; on M24M02 the last byte
    below getSize is refused. *)
Theorem checkAddress_agrees_with_getSize :
  forall (bus : I2C) (chip_select : Z) (t : TypeEeprom) (a : Z),
    t <> M24M02 ->
    (checkAddress (EEPROM_new bus chip_select t) a = true <->
     a < getSize (EEPROM_new bus chip_select t)) /\
    checkAddress (EEPROM_new bus chip_select M24M02)
                 (getSize (EEPROM_new bus chip_select M24M02) - 1) = false.
Proof.
  intros bus chip_select t a Hn. split; [|reflexivity].
  unfold getSize, checkAddress.
  rewrite EEPROM_new_type, EEPROM_new_size, checkAddress_type_accepts.
  unfold effective_capacity, nominal_capacity, TypeEeprom_eqb.
  destruct t; cbn [quirked type_value Z.eqb Pos.eqb]; try lia.
  contradiction.
Qed.

(** ** The bus address *)

Lemma construction_chip_select (bus : I2C) (cs : Z) (t : TypeEeprom) :
  0 <= cs -> _errnum (EEPROM_new bus cs t) = EEPROM_NoError ->
  _address (EEPROM_new bus cs t) = 0 \/ cs <= chip_select_limit t.
Proof.
  intros H0. unfold EEPROM_new.
  destruct t; cbn [EEPROM_switch _errnum _address chip_select_limit];
    try (left; reflexivity);
    match goal with
    | |- context [?a <? cs] => destruct (Z.ltb_spec a cs)
    end; try discriminate; intros _; right; lia.
Qed.

(** X24.  On a device constructed without a fault, the bus address of
    every transfer at an in-range logical address is an even 8-bit value
    from 160 up, so the read/write bit is left to the transport, and the
    address of block 0, which the poll and the read at the current
    address use, is at most 174. *)
Theorem device_address_is_even_and_in_range :
  forall (bus : I2C) (chip_select : Z) (t : TypeEeprom) (a : Z),
    0 <= chip_select ->
    getError (EEPROM_new bus chip_select t) = EEPROM_NoError ->
    0 <= a -> checkAddress (EEPROM_new bus chip_select t) a = true ->
    let e := EEPROM_new bus chip_select t in
    let addr := device_address e (fst (page_block_of (_type e) a)) in
    Z.even addr = true /\ 160 <= addr < 192 /\
    Z.even (base_address e) = true /\ 160 <= base_address e <= 174.
Proof.
  intros bus cs t a Hcs He Ha Hc e addr. subst addr e.
  unfold checkAddress in Hc. rewrite EEPROM_new_type in Hc |- *.
  destruct (page_block_in_range t a Ha Hc) as [Hr Hb].
  rewrite Hr. set (b := fst (resolve_by_family t a)) in *.
  assert (Hbs : b = 0 \/ b = 1 \/ b = 2 \/ b = 3 \/ b = 4 \/ b = 5 \/
                b = 6 \/ b = 7 \/ b = 8) by lia.
  clearbody b. clear Hr Hb Hc Ha a.
  unfold getError in He.
  pose proof (construction_chip_select bus cs t Hcs He) as Hsel.
  unfold device_address, base_address.
  destruct Hsel as [Hz|Hsel].
  - rewrite Hz.
    repeat (destruct Hbs as [->|Hbs]); try subst b;
      vm_compute; repeat split;
      first [reflexivity | discriminate | (intro; discriminate)].
  - clear He. unfold EEPROM_new.
    assert (Hsels : cs = 0 \/ cs = 1 \/ cs = 2 \/ cs = 3 \/ cs = 4 \/
                    cs = 5 \/ cs = 6 \/ cs = 7)
      by (destruct t; cbn [chip_select_limit] in Hsel; lia).
    destruct t; cbn [EEPROM_switch _address chip_select_limit] in *;
      repeat (destruct Hsels as [->|Hsels]); try subst cs; try lia;
      repeat (destruct Hbs as [->|Hbs]); try subst b;
      vm_compute; repeat split;
      first [reflexivity | discriminate | (intro; discriminate)].
Qed.

(** ** A byte write the chip does not acknowledge *)

(** X25.  When the chip does not acknowledge the byte write, I2cError is
    recorded, the chip keeps its content, and the write is not followed
    by a poll: the refused transaction is the only one issued. *)
Theorem refused_write_int8_stores_nothing :
  forall (e : EEPROM) (a : Z) (d : byte) (ack : Z) (rest : list Z),
    getError e = EEPROM_NoError ->
    acks (_i2c e) = ack :: rest -> ack <> 0 ->
    checkAddress e a = true ->
    getError (write_int8 e a d) = EEPROM_I2cError /\
    cells (_i2c (write_int8 e a d)) = cells (_i2c e) /\
    acks (_i2c (write_int8 e a d)) = rest /\
    length (traffic (_i2c (write_int8 e a d)))
    = S (length (traffic (_i2c e))).
Proof.
  intros e a d ack rest He Ha Hn Hc. unfold getError in He.
  unfold write_int8. rewrite He, Hc. cbn [negb Z.eqb EEPROM_NoError].
  destruct (page_block_of (_type e) a) as [pb a'].
  destruct (type_lt (_type e) T24C32);
    rewrite (bus_write_refused _ _ _ _ _ ack rest Ha Hn);
    (destruct (Z.eqb_spec ack 0); [contradiction|]); cbn [negb];
    repeat split; reflexivity.
Qed.

(** ** Reads of no bytes *)

(** X26.  A read of no bytes at address 0 is rejected with OutOfRange,
    by the array overload and by the [void*] overload alike, because the
    last address of the span is computed as 0 - 1 in [uint32_t]; at an
    address above 0 whose predecessor is in block 0 the same read
    records nothing and leaves the destination as it was. *)
Theorem zero_length_read :
  forall (t : TypeEeprom) (e : EEPROM) (a : Z) (buffer : list byte),
    sound t e -> 0 < a < span_limit t ->
    read_array e 0 buffer 0 = (set_errnum e EEPROM_OutOfRange, buffer) /\
    read_any e 0 buffer 0 = (set_errnum e EEPROM_OutOfRange, buffer) /\
    exists e' : EEPROM,
      read_array e a buffer 0 = (e', buffer) /\
      getError e' = EEPROM_NoError.
Proof.
  intros t e a buffer S Ha. pose proof S as (Ht & Hp & He & Hacks & Hh).
  assert (H0 : checkAddress e 0 = true).
  { unfold checkAddress. rewrite Ht. destruct t; reflexivity. }
  assert (Hm : checkAddress e (u32 (0 + 0 - 1)) = false).
  { unfold checkAddress. rewrite Ht. destruct t; reflexivity. }
  split; [|split].
  - unfold read_array. rewrite He, H0, Hm. reflexivity.
  - unfold read_any. rewrite He, Hm. reflexivity.
  - assert (Hcap : span_limit t <= effective_capacity t /\
                   span_limit t <= first_block_size t)
      by (unfold span_limit; lia).
    pose proof (span_limit_bound t) as Hlim.
    destruct (read_array_first_block t e a buffer 0 S) as (e' & R & St);
      try lia.
    + unfold checkAddress. rewrite Ht. apply checkAddress_type_accepts. lia.
    + unfold checkAddress. rewrite Ht, u32_small by lia.
      apply checkAddress_type_accepts. lia.
    + exists e'. split; [exact R|].
      destruct St as (_ & _ & _ & He' & _). unfold getError. congruence.
Qed.

End Driver.

(** * The statements at concrete inputs *)

(** C2 as the specification words it, by page size, does not hold: a
    T24C1024 has pages of 128 bytes, which is neither below 32 nor above
    128, and still address 70000 resolves to block 1. *)
Lemma resolution_by_page_size_fails_T24C1024 :
  checkAddress (EEPROM_new (idle_bus Linear zeroed) 0 T24C1024) 70000 = true /\
  _page_write (EEPROM_new (idle_bus Linear zeroed) 0 T24C1024) = 128 /\
  page_block_of T24C1024 70000 = (1, 4465) /\
  resolve_by_page_size 128 70000 = (0, 70000) /\
  page_block_of T24C1024 70000 <> resolve_by_page_size 128 70000.
Proof. repeat split; try reflexivity. vm_compute. discriminate. Qed.

Lemma address_resolution_by_family_witness :
  0 <= 70000 /\
  checkAddress (EEPROM_new (idle_bus Linear zeroed) 0 T24C1024) 70000 = true /\
  page_block_of T24C1024 70000 = resolve_by_family T24C1024 70000.
Proof.
  split; [lia|]. split; [reflexivity|].
  apply (address_resolution_by_family
           (idle_bus Linear zeroed) 0 T24C1024 70000); [lia | reflexivity].
Defined.

(** C8 as the specification words it does not hold: T24C16 is among the
    variants with limit 7, and the chip-select value 8 leaves the error
    state clear. *)
Lemma T24C16_accepts_chip_select_8 :
  chip_select_limit T24C16 < 8 /\
  getError (EEPROM_new (idle_bus Linear zeroed) 8 T24C16) = EEPROM_NoError /\
  getError (EEPROM_new (idle_bus Linear zeroed) 8 T24C16)
  <> construction_error_as_specified T24C16 8.
Proof. repeat split; try reflexivity. vm_compute. discriminate. Qed.

Lemma T24C16_write_20_bytes_at_10_witness :
  length (count_up 20) = 20%nat /\
  exists e1 : EEPROM,
    write_array zeroed 256
      (EEPROM_new (idle_bus Linear ramp) 0 T24C16) 10 (count_up 20) 20
    = Some e1 /\
    snd (read_array e1 10 [] 20) = count_up 20.
Proof.
  split; [reflexivity|].
  destruct (T24C16_write_20_bytes_at_10 zeroed Linear ramp 0 (count_up 20) []
              eq_refl) as (e1 & Hw & _ & _ & _ & _ & Hr).
  exists e1. split; [exact Hw|]. rewrite Hr. reflexivity.
Defined.

Lemma fault_is_sticky_witness :
  getError (EEPROM_new (idle_bus Linear ramp) 9 T24C02) <> EEPROM_NoError /\
  run zeroed 8 CallClear (EEPROM_new (idle_bus Linear ramp) 9 T24C02)
  = Some (EEPROM_new (idle_bus Linear ramp) 9 T24C02, []) /\
  run_all zeroed 8 sample_calls (EEPROM_new (idle_bus Linear ramp) 9 T24C02)
  = Some (EEPROM_new (idle_bus Linear ramp) 9 T24C02).
Proof.
  assert (H : getError (EEPROM_new (idle_bus Linear ramp) 9 T24C02)
              <> EEPROM_NoError) by (vm_compute; discriminate).
  split; [exact H|].
  split.
  - apply (proj1 (fault_is_sticky zeroed 8 _ H) CallClear).
  - apply (proj2 (fault_is_sticky zeroed 8 _ H) sample_calls).
Defined.

Lemma getSize_fixed_at_construction_witness :
  exists e' : EEPROM,
    run_all zeroed 8 sample_calls (EEPROM_new (idle_bus Linear ramp) 0 T24C1025)
    = Some e' /\
    getSize e' = 131072.
Proof.
  eexists. split.
  - vm_compute. reflexivity.
  - apply (getSize_fixed_at_construction zeroed
             (idle_bus Linear ramp) 0 T24C1025 8 sample_calls).
    vm_compute. reflexivity.
Defined.

Lemma zero_length_write_at_0_is_rejected_witness :
  getError (EEPROM_new (idle_bus Linear ramp) 0 T24C02) = EEPROM_NoError /\
  option_map getError
    (write_array zeroed 8 (EEPROM_new (idle_bus Linear ramp) 0 T24C02) 0 [] 0)
  = Some EEPROM_OutOfRange.
Proof.
  split; [reflexivity|].
  rewrite (proj2 (zero_length_write_at_0_is_rejected zeroed 8
                    (EEPROM_new (idle_bus Linear ramp) 0 T24C02) [] eq_refl)).
  reflexivity.
Defined.

Lemma straddling_write_T24C04_not_read_back_witness :
  length (count_up 10) = 10%nat /\
  exists e1 : EEPROM,
    write_array zeroed 256
      (EEPROM_new (idle_bus Linear ramp) 0 T24C04) 250 (count_up 10) 10
    = Some e1 /\
    snd (read_array e1 250 [] 10)
    = [x01; x02; x03; x04; x05; x64; x07; x08; x09; x0a] /\
    snd (read_array e1 250 [] 10) <> count_up 10.
Proof.
  split; [reflexivity|].
  destruct (straddling_write_T24C04_not_read_back zeroed Linear ramp
              (count_up 10) [] eq_refl) as (e1 & Hw & _ & _ & Hr).
  exists e1. split; [exact Hw|]. rewrite Hr.
  split; [reflexivity | vm_compute; discriminate].
Defined.

Lemma sub_page_write_T24C04_alters_page_witness :
  length (count_up 4) = 4%nat /\
  exists e1 : EEPROM,
    write_array zeroed 256
      (EEPROM_new (idle_bus Linear ramp) 0 T24C04) 256 (count_up 4) 4
    = Some e1 /\
    snd (read_array (EEPROM_new (idle_bus Linear ramp) 0 T24C04) 260 [] 11)
    = fetch ramp 260 11 /\
    snd (read_array e1 260 [] 11) = fetch ramp 5 11 /\
    fetch ramp 5 11 <> fetch ramp 260 11.
Proof.
  split; [reflexivity|].
  destruct (sub_page_write_T24C04_alters_page zeroed Linear ramp
              (count_up 4) [] eq_refl) as (e1 & Hw & _ & Hb & Ha & _).
  exists e1. split; [exact Hw|]. rewrite Hb, Ha.
  repeat split; try reflexivity. vm_compute. discriminate.
Defined.

Lemma clear_M24M02_ends_faulted_witness :
  (5 <= 8)%nat /\
  exists e' : EEPROM,
    clear zeroed 8 (EEPROM_new (idle_bus Linear erased) 0 M24M02) = Some e' /\
    getError e' = EEPROM_OutOfRange.
Proof.
  split; [lia|].
  assert (H : (5 <= 8)%nat) by lia.
  exact (clear_M24M02_ends_faulted zeroed Linear erased 0 8 H).
Defined.

(** ** The sound domain is inhabited *)

Lemma write_array_first_block_witness :
  sound T24C256 (EEPROM_new (idle_bus Banked ramp) 3 T24C256) /\
  1000 + 200 <= span_limit T24C256 /\
  exists e1 : EEPROM,
    write_array zeroed 256 (EEPROM_new (idle_bus Banked ramp) 3 T24C256)
                1000 (count_up 200) 200 = Some e1 /\
    cells (_i2c e1) 1199 = xc8 /\ cells (_i2c e1) 1200 = ramp 1200.
Proof.
  assert (Hs : sound T24C256 (EEPROM_new (idle_bus Banked ramp) 3 T24C256))
    by (apply sound_new; reflexivity).
  assert (Hl : 1000 + 200 <= span_limit T24C256)
    by (vm_compute; discriminate).
  split; [exact Hs|]. split; [exact Hl|].
  destruct (write_array_first_block zeroed T24C256 256
              (EEPROM_new (idle_bus Banked ramp) 3 T24C256)
              1000 (count_up 200) 200 Hs)
    as (e1 & Hw & _ & _ & Hc).
  - lia.
  - lia.
  - lia.
  - exact Hl.
  - vm_compute. discriminate.
  - left. vm_compute. discriminate.
  - exists e1. split; [exact Hw|]. rewrite !Hc. split; reflexivity.
Defined.

Lemma write_then_read_first_block_witness :
  sound T24C256 (EEPROM_new (idle_bus Banked ramp) 3 T24C256) /\
  1000 + 200 <= span_limit T24C256 /\
  exists e1 e2 : EEPROM,
    write_array zeroed 256 (EEPROM_new (idle_bus Banked ramp) 3 T24C256)
                1000 (count_up 200) 200 = Some e1 /\
    read_array e1 1000 [] 200 = (e2, count_up 200) /\
    getError e2 = EEPROM_NoError.
Proof.
  assert (Hs : sound T24C256 (EEPROM_new (idle_bus Banked ramp) 3 T24C256))
    by (apply sound_new; reflexivity).
  assert (Hl : 1000 + 200 <= span_limit T24C256)
    by (vm_compute; discriminate).
  split; [exact Hs|]. split; [exact Hl|].
  destruct (write_then_read_first_block zeroed T24C256 256
              (EEPROM_new (idle_bus Banked ramp) 3 T24C256)
              1000 (count_up 200) [] 200 Hs)
    as (e1 & e2 & Hw & Hr & He & _).
  - lia.
  - lia.
  - lia.
  - reflexivity.
  - exact Hl.
  - vm_compute. discriminate.
  - left. vm_compute. discriminate.
  - exists e1, e2. rewrite Hr, app_nil_r. auto.
Defined.

Lemma zero_length_write_above_0_witness :
  sound T24C16 (EEPROM_new (idle_bus Linear ramp) 0 T24C16) /\
  checkAddress (EEPROM_new (idle_bus Linear ramp) 0 T24C16) 2047 = true /\
  exists e' : EEPROM,
    write_array zeroed 1 (EEPROM_new (idle_bus Linear ramp) 0 T24C16)
                2047 [] 0 = Some e' /\
    getError e' = EEPROM_NoError.
Proof.
  assert (Hs : sound T24C16 (EEPROM_new (idle_bus Linear ramp) 0 T24C16))
    by (apply sound_new; reflexivity).
  split; [exact Hs|]. split; [reflexivity|].
  apply (zero_length_write_above_0 zeroed T24C16 1 _ 2047 [] Hs);
    [lia | lia | reflexivity].
Defined.

Lemma clear_then_read_first_block_witness :
  span_limit T24C01 = nominal_capacity T24C01 /\
  getError (EEPROM_new (idle_bus Linear erased) 7 T24C01) = EEPROM_NoError /\
  exists e1 e2 : EEPROM,
    clear zeroed 256 (EEPROM_new (idle_bus Linear erased) 7 T24C01) = Some e1 /\
    read_array e1 0 [] 128 = (e2, repeat x00 128) /\
    getError e2 = EEPROM_NoError.
Proof.
  split; [reflexivity|]. split; [reflexivity|].
  destruct (clear_then_read_first_block zeroed T24C01 Linear erased 7 256 [])
    as (e1 & e2 & Hc & _ & Hr & He).
  - reflexivity.
  - reflexivity.
  - lia.
  - exists e1, e2. split; [exact Hc|]. split; [|exact He].
    change (nominal_capacity T24C01) with 128 in Hr.
    rewrite Hr. reflexivity.
Defined.

Lemma whole_page_write_M24M02_never_returns_witness :
  _errnum (EEPROM_new (idle_bus Banked erased) 1 M24M02) = EEPROM_NoError /\
  write_array zeroed 1000 (EEPROM_new (idle_bus Banked erased) 1 M24M02)
              0 (repeat x00 256) 256 = None.
Proof.
  split; [reflexivity|].
  apply (whole_page_write_M24M02_never_returns zeroed 1000
           (EEPROM_new (idle_bus Banked erased) 1 M24M02) (repeat x00 256));
    reflexivity.
Defined.

(** C6 as the specification words it does not hold: getError does not
    always report the first fault recorded.  Inside the array write, the
    page read that precedes a partial page is itself an operation and may
    record a fault; the write does not test for it, and sends the page.
    Here a device without a fault is asked to write one byte at address
    1.  The allocation of the page read fails, which records MallocError
    before anything has gone over the bus; the page is sent all the same,
    the chip does not acknowledge it, and the write returns with
    I2cError in the place of MallocError. *)
Lemma array_write_goes_on_after_page_read_fault :
  getError starved_device = EEPROM_NoError /\
  heap starved_device = [false] /\
  getError
    (fst (read_any zeroed starved_device 0
            (skipn 1 (overlay (word_address 1 0)
                              (fresh zeroed (MAX_PAGE_SIZE + 2)))) 8))
  = EEPROM_MallocError /\
  traffic
    (_i2c (fst (read_any zeroed starved_device 0
                  (skipn 1 (overlay (word_address 1 0)
                                    (fresh zeroed (MAX_PAGE_SIZE + 2)))) 8)))
  = [] /\
  exists e1 : EEPROM,
    write_array zeroed 256 starved_device 1 [x2a] 1 = Some e1 /\
    heap e1 = [] /\
    length (traffic (_i2c e1)) = 1%nat /\
    getError e1 = EEPROM_I2cError /\
    getError e1 <> EEPROM_MallocError.
Proof.
  repeat split; try reflexivity.
  eexists. split; [vm_compute; reflexivity|].
  repeat split; try reflexivity. vm_compute. discriminate.
Qed.

(** ** clear on a T24C04 numbered by logical address

    The last long of clear() goes to address 508, which resolves to block
    1 with in-block address 253.  The page offset taken from the in-block
    address is 13, so only three bytes fit the page, and the count of
    pages, taken from the logical address, is 1: the byte for address 511
    is never sent.  On a chip that numbers its cells by logical address
    the whole-capacity read then ends with the old content of cell 511. *)
Lemma clear_T24C04_Linear_skips_last_byte :
  option_map
    (fun e1 => (getError e1, snd (read_array e1 0 [] 512)))
    (clear zeroed 256 (EEPROM_new (idle_bus Linear erased) 0 T24C04))
  = Some (EEPROM_NoError, repeat x00 511 ++ [xff]).
Proof. vm_compute. reflexivity. Qed.

(** ** The further properties at concrete inputs *)

Lemma every_call_returns_witness :
  0 < _page_write (EEPROM_new (idle_bus Linear ramp) 0 T24C02) <= 255 /\
  exists e' : EEPROM,
    run_all zeroed 256 sample_calls
            (EEPROM_new (idle_bus Linear ramp) 0 T24C02) = Some e'.
Proof.
  assert (H : 0 < _page_write (EEPROM_new (idle_bus Linear ramp) 0 T24C02)
              <= 255) by (cbn; lia).
  split; [exact H|].
  apply (every_call_returns zeroed 256 sample_calls _ (le_n 256) H).
Defined.

Lemma only_OutOfRange_without_environment_faults_witness :
  exists e' : EEPROM,
    run_all zeroed 8 sample_calls
            (EEPROM_new (idle_bus Linear ramp) 0 T24C02) = Some e' /\
    (getError e' = EEPROM_NoError \/ getError e' = EEPROM_OutOfRange).
Proof.
  eexists. split.
  - vm_compute. reflexivity.
  - apply (only_OutOfRange_without_environment_faults zeroed 8 sample_calls
             (EEPROM_new (idle_bus Linear ramp) 0 T24C02)).
    + reflexivity.
    + reflexivity.
    + reflexivity.
    + vm_compute. reflexivity.
Defined.

Lemma span_beyond_capacity_is_rejected_witness :
  span (CallReadInt16 255 (x01, x02)) = Some (255, 2) /\
  effective_capacity (_type (EEPROM_new (idle_bus Linear ramp) 0 T24C02))
  < 255 + 2 /\
  run zeroed 8 (CallReadInt16 255 (x01, x02))
      (EEPROM_new (idle_bus Linear ramp) 0 T24C02)
  = Some (set_errnum (EEPROM_new (idle_bus Linear ramp) 0 T24C02)
                     EEPROM_OutOfRange, [x01; x02]).
Proof.
  split; [reflexivity|]. split; [vm_compute; reflexivity|].
  apply (span_beyond_capacity_is_rejected zeroed 8
           (CallReadInt16 255 (x01, x02))
           (EEPROM_new (idle_bus Linear ramp) 0 T24C02) 255 2).
  - reflexivity.
  - reflexivity.
  - lia.
  - lia.
  - lia.
  - vm_compute. reflexivity.
Defined.

Lemma reads_leave_the_chip_unchanged_witness :
  reads (CallReadArray 0 [] 4) = true /\
  exists (e' : EEPROM) (out : list byte),
    run zeroed 8 (CallReadArray 0 [] 4) starved_device = Some (e', out) /\
    cells (_i2c e') 7 = cells (_i2c starved_device) 7.
Proof.
  split; [reflexivity|].
  eexists. eexists. split.
  - vm_compute. reflexivity.
  - refine (reads_leave_the_chip_unchanged zeroed 8 (CallReadArray 0 [] 4)
              starved_device _ _ eq_refl _ 7).
    vm_compute. reflexivity.
Defined.

Lemma write_int8_then_read_int8_witness :
  checkAddress (EEPROM_new (idle_bus Banked ramp) 0 T24C16) 2000 = true /\
  exists e2 : EEPROM,
    read_int8 (write_int8 (EEPROM_new (idle_bus Banked ramp) 0 T24C16)
                          2000 x2a) 2000 x00 = (e2, x2a) /\
    getError e2 = EEPROM_NoError.
Proof.
  split; [reflexivity|].
  destruct (write_int8_then_read_int8
              (EEPROM_new (idle_bus Banked ramp) 0 T24C16) 2000 x2a x00
              eq_refl eq_refl eq_refl) as (e2 & R & E & _).
  exists e2. split; [exact R | exact E].
Defined.

Lemma write_int16_then_read_int16_witness :
  sound T24C02 (EEPROM_new (idle_bus Linear erased) 0 T24C02) /\
  100 + 2 <= span_limit T24C02 /\
  exists e1 e2 : EEPROM,
    write_int16 zeroed 256 (EEPROM_new (idle_bus Linear erased) 0 T24C02)
                100 (x01, x02) = Some e1 /\
    read_int16 zeroed e1 100 (x00, x00) = (e2, (x01, x02)).
Proof.
  assert (Hs : sound T24C02 (EEPROM_new (idle_bus Linear erased) 0 T24C02))
    by (apply sound_new; reflexivity).
  assert (Hl : 100 + 2 <= span_limit T24C02) by (vm_compute; discriminate).
  split; [exact Hs|]. split; [exact Hl|].
  destruct (write_int16_then_read_int16 zeroed T24C02 256 _ 100
              (x01, x02) (x00, x00) Hs (le_n 256) ltac:(lia) Hl)
    as (e1 & e2 & W & R & _).
  exists e1, e2. split; [exact W | exact R].
Defined.

Lemma write_int32_then_read_int32_witness :
  sound T24C64 (EEPROM_new (idle_bus Banked erased) 5 T24C64) /\
  8000 + 4 <= span_limit T24C64 /\
  exists e1 e2 : EEPROM,
    write_int32 zeroed 256 (EEPROM_new (idle_bus Banked erased) 5 T24C64)
                8000 (x01, x02, x03, x04) = Some e1 /\
    read_int32 zeroed e1 8000 zero4 = (e2, (x01, x02, x03, x04)).
Proof.
  assert (Hs : sound T24C64 (EEPROM_new (idle_bus Banked erased) 5 T24C64))
    by (apply sound_new; reflexivity).
  assert (Hl : 8000 + 4 <= span_limit T24C64) by (vm_compute; discriminate).
  split; [exact Hs|]. split; [exact Hl|].
  destruct (write_int32_then_read_int32 zeroed T24C64 256 _ 8000
              (x01, x02, x03, x04) zero4 Hs (le_n 256) ltac:(lia) Hl)
    as (e1 & e2 & W & _ & R & _).
  exists e1, e2. split; [exact W | exact R].
Defined.

Lemma write_any_then_read_any_witness :
  sound T24C32 (EEPROM_new (idle_bus Linear ramp) 0 T24C32) /\
  30 + 40 <= span_limit T24C32 /\
  exists e1 e2 : EEPROM,
    write_any zeroed 256 (EEPROM_new (idle_bus Linear ramp) 0 T24C32)
              30 (count_up 40) 40 = Some e1 /\
    read_any zeroed e1 30 [] 40 = (e2, count_up 40).
Proof.
  assert (Hs : sound T24C32 (EEPROM_new (idle_bus Linear ramp) 0 T24C32))
    by (apply sound_new; reflexivity).
  assert (Hl : 30 + 40 <= span_limit T24C32) by (vm_compute; discriminate).
  split; [exact Hs|]. split; [exact Hl|].
  destruct (write_any_then_read_any zeroed T24C32 256 _ 30 (count_up 40) []
              40 Hs (le_n 256))
    as (e1 & e2 & W & R & _).
  - lia.
  - lia.
  - reflexivity.
  - exact Hl.
  - vm_compute. discriminate.
  - left. vm_compute. discriminate.
  - exists e1, e2. split; [exact W|]. rewrite R.
    change (skipn (Z.to_nat 40) (@nil byte)) with (@nil byte).
    rewrite app_nil_r. reflexivity.
Defined.

Lemma refused_read_keeps_destination_witness :
  acks (_i2c starved_device) = [1] /\
  snd (read_array starved_device 0 [x07; x08] 2) = [x07; x08] /\
  getError (fst (read_array starved_device 0 [x07; x08] 2)) = EEPROM_I2cError.
Proof.
  split; [reflexivity|].
  destruct (refused_read_keeps_destination starved_device 0 2 x00
              [x07; x08] 1 [] eq_refl eq_refl ltac:(discriminate)
              eq_refl eq_refl) as (_ & _ & D & E).
  split; [exact D | exact E].
Defined.

Lemma refused_scalar_read_overwrites_destination_witness :
  acks (_i2c (EEPROM_new (mkI2C Linear ramp 0 [1] []) 0 T24C02)) = [1] /\
  snd (read_int32 zeroed (EEPROM_new (mkI2C Linear ramp 0 [1] []) 0 T24C02)
                  0 (x01, x02, x03, x04)) = (x00, x00, x00, x00) /\
  getError (fst (read_int32 zeroed
                   (EEPROM_new (mkI2C Linear ramp 0 [1] []) 0 T24C02)
                   0 (x01, x02, x03, x04))) = EEPROM_I2cError.
Proof.
  split; [reflexivity|].
  destruct (refused_scalar_read_overwrites_destination zeroed
              (EEPROM_new (mkI2C Linear ramp 0 [1] []) 0 T24C02) 0 4
              (x01, x02) (x01, x02, x03, x04) [] 1 []
              eq_refl eq_refl eq_refl ltac:(discriminate)
              eq_refl eq_refl eq_refl eq_refl)
    as (_ & _ & D & E & _).
  split; [exact D | exact E].
Defined.

Lemma ready_polls_until_acknowledged_witness :
  getError (EEPROM_new (mkI2C Linear ramp 0 [1; 1; 0; 1] []) 0 T24C02)
  = EEPROM_NoError /\
  length (traffic (_i2c (ready (EEPROM_new
                                  (mkI2C Linear ramp 0 [1; 1; 0; 1] [])
                                  0 T24C02)))) = 3%nat /\
  acks (_i2c (ready (EEPROM_new (mkI2C Linear ramp 0 [1; 1; 0; 1] [])
                                0 T24C02))) = [1].
Proof.
  split; [reflexivity|].
  destruct (ready_polls_until_acknowledged
              (EEPROM_new (mkI2C Linear ramp 0 [1; 1; 0; 1] []) 0 T24C02)
              eq_refl) as (T & A & _).
  rewrite T, A. split; reflexivity.
Defined.

Lemma page_block_of_injective_witness :
  checkAddress_type T24C04 300 = true /\
  page_block_of T24C04 300 = page_block_of T24C04 (255 + 45) /\
  300 = 255 + 45.
Proof.
  split; [reflexivity|]. split; [reflexivity|].
  apply (page_block_of_injective T24C04 300 (255 + 45)).
  - lia.
  - lia.
  - reflexivity.
  - reflexivity.
  - reflexivity.
Defined.

Lemma write_of_256_pages_writes_one_page_at_most_witness :
  sound T24C64 (EEPROM_new (idle_bus Linear ramp) 0 T24C64) /\
  0 + 256 * page_size T24C64 <= effective_capacity T24C64 /\
  exists e' : EEPROM,
    write_array zeroed 256 (EEPROM_new (idle_bus Linear ramp) 0 T24C64)
                0 (count_up 40) (256 * page_size T24C64) = Some e' /\
    getError e' = EEPROM_NoError /\
    cells (_i2c e') 32 = ramp 32.
Proof.
  assert (Hs : sound T24C64 (EEPROM_new (idle_bus Linear ramp) 0 T24C64))
    by (apply sound_new; reflexivity).
  assert (Hl : 0 + 256 * page_size T24C64 <= effective_capacity T24C64)
    by (vm_compute; discriminate).
  split; [exact Hs|]. split; [exact Hl|].
  destruct (write_of_256_pages_writes_one_page_at_most zeroed T24C64 256 _ 0
              (count_up 40) Hs (le_n 256))
    as (e' & W & E & C).
  - vm_compute. split; [discriminate | reflexivity].
  - reflexivity.
  - exact Hl.
  - exists e'. split; [exact W|]. split; [exact E|].
    apply C. cbn. lia.
Defined.

Lemma getName_identifies_the_variant_witness :
  exists e' : EEPROM,
    run_all zeroed 8 sample_calls
            (EEPROM_new (idle_bus Linear ramp) 0 T24C02) = Some e' /\
    exists s : String.string,
      getName e' = Some s /\
      forall (bus' : I2C) (chip_select' : Z) (t' : TypeEeprom),
        getName (EEPROM_new bus' chip_select' t') = Some s -> t' = T24C02.
Proof.
  eexists. split.
  - vm_compute. reflexivity.
  - apply (getName_identifies_the_variant zeroed 8 sample_calls
             (idle_bus Linear ramp) 0 T24C02).
    vm_compute. reflexivity.
Defined.

Lemma operations_record_three_faults_only_witness :
  exists e' : EEPROM,
    run_all zeroed 8 sample_calls starved_device = Some e' /\
    (getError e' = getError starved_device \/
     getError e' = EEPROM_I2cError \/
     getError e' = EEPROM_OutOfRange \/ getError e' = EEPROM_MallocError).
Proof.
  eexists. split.
  - vm_compute. reflexivity.
  - apply (operations_record_three_faults_only zeroed 8 sample_calls
             starved_device).
    vm_compute. reflexivity.
Defined.


Lemma read_current_follows_read_int8_witness :
  checkAddress (EEPROM_new (idle_bus Linear ramp) 0 T24C02) 10 = true /\
  exists e1 e2 : EEPROM,
    read_int8 (EEPROM_new (idle_bus Linear ramp) 0 T24C02) 10 x00
    = (e1, ramp 10) /\
    read_current e1 x00 = (e2, ramp 11) /\
    getError e2 = EEPROM_NoError.
Proof.
  split; [reflexivity|].
  exact (read_current_follows_read_int8
           (EEPROM_new (idle_bus Linear ramp) 0 T24C02) 10 x00 x00
           eq_refl eq_refl eq_refl).
Defined.

Lemma checkAddress_agrees_with_getSize_witness :
  T24C1025 <> M24M02 /\
  (checkAddress (EEPROM_new (idle_bus Linear ramp) 0 T24C1025) 131071 = true
   <-> 131071 < getSize (EEPROM_new (idle_bus Linear ramp) 0 T24C1025)).
Proof.
  assert (H : T24C1025 <> M24M02) by discriminate.
  split; [exact H|].
  apply (proj1 (checkAddress_agrees_with_getSize
                  (idle_bus Linear ramp) 0 T24C1025 131071 H)).
Defined.

Lemma device_address_is_even_and_in_range_witness :
  getError (EEPROM_new (idle_bus Linear ramp) 5 T24C08) = EEPROM_NoError /\
  checkAddress (EEPROM_new (idle_bus Linear ramp) 5 T24C08) 600 = true /\
  device_address (EEPROM_new (idle_bus Linear ramp) 5 T24C08)
                 (fst (page_block_of T24C08 600)) = 172 /\
  160 <= device_address (EEPROM_new (idle_bus Linear ramp) 5 T24C08)
                        (fst (page_block_of T24C08 600)) < 192.
Proof.
  split; [reflexivity|]. split; [reflexivity|]. split; [reflexivity|].
  apply (device_address_is_even_and_in_range
           (idle_bus Linear ramp) 5 T24C08 600).
  - lia.
  - reflexivity.
  - lia.
  - reflexivity.
Defined.

Lemma refused_write_int8_stores_nothing_witness :
  acks (_i2c starved_device) = [1] /\
  getError (write_int8 starved_device 5 x2a) = EEPROM_I2cError /\
  cells (_i2c (write_int8 starved_device 5 x2a)) = ramp.
Proof.
  split; [reflexivity|].
  destruct (refused_write_int8_stores_nothing starved_device 5 x2a 1 []
              eq_refl eq_refl ltac:(discriminate) eq_refl)
    as (E & C & _).
  split; [exact E | exact C].
Defined.

Lemma zero_length_read_witness :
  sound T24C02 (EEPROM_new (idle_bus Linear ramp) 0 T24C02) /\
  0 < 17 < span_limit T24C02 /\
  read_array (EEPROM_new (idle_bus Linear ramp) 0 T24C02) 0 [x07] 0
  = (set_errnum (EEPROM_new (idle_bus Linear ramp) 0 T24C02)
                EEPROM_OutOfRange, [x07]) /\
  exists e' : EEPROM,
    read_array (EEPROM_new (idle_bus Linear ramp) 0 T24C02) 17 [x07] 0
    = (e', [x07]) /\
    getError e' = EEPROM_NoError.
Proof.
  assert (Hs : sound T24C02 (EEPROM_new (idle_bus Linear ramp) 0 T24C02))
    by (apply sound_new; reflexivity).
  assert (Hl : 0 < 17 < span_limit T24C02)
    by (vm_compute; split; reflexivity).
  split; [exact Hs|]. split; [exact Hl|].
  destruct (zero_length_read zeroed T24C02 _ 17 [x07] Hs Hl)
    as (R0 & _ & R).
  split; [exact R0 | exact R].
Defined.
